(** * FreeKeel: annotation state, undo history and coordinate transform

    A shallow embedding of the annotation engine of FreeKeel's [app.js].
    Three variants of the file are embedded, each in a module of its own:

    - [V1]: [src/app.js], lines 1-303 (text and draw modes, guarded export);
    - [V2]: [src/app.js], lines 304-510 (the plainer variant stored after
      the separator line: no guards in the export, no initial stroke point);
    - [V3]: [src/unnamed/part_000] (adds the eraser mode, colours and sizes).

    A load is embedded twice: as one function of the state, which is the
    load that nothing interrupts, and, in [Async], one [await] at a time, so
    that what is handled while a document is rendering can be stated.

    JavaScript objects are modelled with their identity: the [annotations]
    array and the [history] entries hold references into a heap of annotation
    objects, a stroke being drawn is a reference held by the closure of
    [wire], and [structuredClone] allocates fresh objects. *)

From Stdlib Require Import PrimFloat Floats QArith Ascii.
From stdpp Require Import base option list strings.

(** ** Numbers

    The source computes with JavaScript numbers.  The engine multiplies,
    divides and subtracts them, tests them for truthiness and stores them in
    the [width] and [height] of a canvas, so the embedding is written once
    over an interface with these operations and instantiated twice: with the
    exact rationals [Q], and with IEEE 754 binary64 floats, which are
    JavaScript's numbers. *)

Class Number (num : Type) := {
  nmul : num → num → num;
  ndiv : num → num → num;
  nsub : num → num → num;
  (** [!v] on a number: [0], [-0] and [NaN] are falsy *)
  falsy : num → bool;
  (** the literals [18] and [2] of the source *)
  num_18 : num;
  num_2 : num;
  (** the conversion of a number to an [unsigned long], the type of
      [canvas.width] and [canvas.height]: the integer part, modulo [2 ^ 32];
      [0] for [NaN] and the infinities *)
  to_unsigned_long : num → Z;
  (** the number that is the integer [z], for [z] from [0] to [2 ^ 32] *)
  of_integer : Z → num
}.

Declare Scope js_scope.
Delimit Scope js_scope with js.
Infix "*" := nmul : js_scope.
Infix "/" := ndiv : js_scope.
Infix "-" := nsub : js_scope.

#[export] Instance Q_Number : Number Q := {
  nmul := Qmult;
  ndiv := Qdiv;
  nsub := Qminus;
  falsy q := Qeq_bool q 0;
  num_18 := 18%Q;
  num_2 := 2%Q;
  to_unsigned_long q := (Z.quot (Qnum q) (Z.pos (Qden q)) mod 2 ^ 32)%Z;
  of_integer := inject_Z
}.

(** The integer part of a float, towards zero; [0] for [NaN] and the
    infinities. *)
Definition float_integer_part (f : float) : Z :=
  match Prim2SF f with
  | S754_finite negative m e =>
      let magnitude :=
        if (0 <=? e)%Z then (Z.pos m * 2 ^ e)%Z else (Z.pos m / 2 ^ (- e))%Z in
      if negative then (- magnitude)%Z else magnitude
  | _ => 0%Z
  end.

#[export] Instance float_Number : Number float := {
  nmul := PrimFloat.mul;
  ndiv := PrimFloat.div;
  nsub := PrimFloat.sub;
  falsy f := (PrimFloat.eqb f 0%float || PrimFloat.is_nan f)%bool;
  num_18 := 18%float;
  num_2 := 2%float;
  to_unsigned_long f := (float_integer_part f mod 2 ^ 32)%Z;
  of_integer z := PrimFloat.of_uint63 (Uint63.of_Z z)
}.

(** ** JavaScript helpers *)

(** [v || d] where [v] is a possibly missing numeric field. *)
Definition num_or {num : Type} `{!Number num} (v : option num) (d : num) : num :=
  match v with
  | Some n => if falsy n then d else n
  | None => d
  end.

(** [canvas.width = v] followed by [canvas.width]: the attribute holds an
    [unsigned long], so a viewport 892.5 wide gives a canvas 892 wide; a
    value above [2 ^ 31 - 1] is replaced by the attribute's default, 300 for
    the width and 150 for the height. *)
Definition canvas_dim {num : Type} `{!Number num} (default : Z) (v : num) : num :=
  let n := to_unsigned_long v in
  of_integer (if (n <=? 2147483647)%Z then n else default).

(** [v || d] where [v] is a possibly missing string field; the empty string
    is falsy. *)
Definition str_or (v : option string) (d : string) : string :=
  match v with
  | Some EmptyString => d
  | Some s => s
  | None => d
  end.

(** [!text] for the result of [prompt]: [null] (cancelled) and the empty
    string are falsy. *)
Definition prompt_falsy (text : option string) : bool :=
  match text with
  | None => true
  | Some EmptyString => true
  | Some _ => false
  end.

(** [arr.push(x)], [arr.shift()] and [arr.pop()] on an array held as a list
    with the first element at index 0. *)
Definition js_push {A} (arr : list A) (x : A) : list A := arr ++ [x].

Definition js_shift {A} (arr : list A) : list A := tail arr.

Definition js_pop {A} (arr : list A) : option (A * list A) :=
  match reverse arr with
  | [] => None
  | x :: rest => Some (x, reverse rest)
  end.

(** ** Data model *)

Section Model.
Context {num : Type}.

(** [{ x, y }] in overlay pixels *)
Record point := Point { pt_x : num; pt_y : num }.

(** An annotation object.  [size], [width] and [color] are fields that some
    variants never write, hence optional ([undefined] when absent). *)
Inductive annotation :=
  | Text (pageIndex : nat) (x y : num) (text : string)
         (size : option num) (color : option string)
  | Stroke (pageIndex : nat) (points : list point)
           (width : option num) (color : option string).

Definition pageIndex (a : annotation) : nat :=
  match a with
  | Text i _ _ _ _ _ => i
  | Stroke i _ _ _ => i
  end.

(** What a 2D canvas context has been asked to paint since it was last
    cleared. *)
Inductive path_cmd :=
  | MoveTo (x y : num)
  | LineTo (x y : num).

Inductive canvas_op :=
  | FillText (fillStyle : string) (font_px : num) (text : string) (x y : num)
  (** [beginPath(); ...; stroke()]; [lineWidth] is [None] when the variant
      never assigns it *)
  | StrokePath (strokeStyle : string) (lineWidth : option num)
               (path : list path_cmd).

(** An entry of [pages]: the overlay canvas [anno] (its size) and what its
    context [annoCtx] shows. *)
Record page_view := PageView {
  anno_width : num;
  anno_height : num;
  annoCtx : list canvas_op
}.

(** The variables [drawing] and [stroke] of one call of [wire]. *)
Record wire_vars := WireVars {
  drawing : bool;
  stroke : option nat
}.

Inductive mode_t := TextMode | DrawMode | EraserMode.

(** The module-level variables, the heap of annotation objects and the
    closures of [wire], one per page. *)
Record state := State {
  mode : mode_t;
  pdfBytes : option (list Byte.byte);
  pages : list page_view;
  annotations : list nat;
  history : list (list nat);
  heap : list annotation;
  wires : list wire_vars
}.

(** The document the exporter works on. *)
Inductive pdf_color := rgb (r g b : nat).

Inductive pdf_op :=
  | DrawText (text : string) (x y size : num) (color : pdf_color)
  | DrawLine (start_x start_y end_x end_y thickness : num) (color : pdf_color).

Record pdf_page := PdfPage {
  pg_width : num;
  pg_height : num;
  pg_content : list pdf_op
}.

(** What [pdfDoc.getPage(index)] does with an index the document has no
    page for.  The library is not part of the repository: it may answer
    [undefined], the case the guard [if (!page) continue] of [savePdf] is
    written for, or raise an error, as a library that checks the range does.
    The export is embedded for both. *)
Inductive missing_page := AnswersUndefined | RaisesError.

Inductive got_page :=
  | Got (page : pdf_page)
  | Undefined
  | Raised.

Definition getPage (lib : missing_page) (pdfDoc : list pdf_page) (index : nat)
  : got_page :=
  match pdfDoc !! index with
  | Some page => Got page
  | None =>
      match lib with
      | AnswersUndefined => Undefined
      | RaisesError => Raised
      end
  end.

(** The font [savePdf] embeds, [PDFLib.StandardFonts.Helvetica], and passes
    to [page.drawText]: which texts it can encode.  [drawText] raises on a
    text with a character the encoding of the font does not have.  The
    library and the table of the font are not part of the repository, so the
    export is embedded for any font.  A text is held as the bytes of its
    UTF-8 encoding, as the string literals of this file are. *)
Class Font := encodes : string → bool.

(** Whether the calls that export [a] go through.  The lines of a stroke are
    taken as accepted: [drawLine] rejects a coordinate that is [NaN], which
    takes an overlay of size zero, and no pointer event comes from such an
    overlay. *)
Definition drawable `{!Font} (a : annotation) : bool :=
  match a with
  | Text _ _ _ text _ _ => encodes text
  | Stroke _ _ _ _ => true
  end.

Inductive save_result :=
  | Alert (msg : string)
  | Saved (doc : list pdf_page)
  | Throws.

(** A mouse event and the canvas' [getBoundingClientRect()]. *)
Record mouse_event := MouseEvent { clientX : num; clientY : num }.
Record dom_rect := DomRect { rect_left : num; rect_top : num }.

(** The toolbar inputs of the third variant; [parseInt] of the two numeric
    inputs is taken as given. *)
Record toolbar := Toolbar {
  textColor : string;
  textSize : num;
  drawColor : string;
  lineWidth : num
}.

(** What the rasterizer does with the bytes: [getDocument(...).promise]
    rejects (malformed bytes, password entry cancelled), or the document
    opens and the pages with the given viewport sizes are rendered, all of
    them ([true]) or only those before a page that fails ([false]). *)
Inductive raster :=
  | OpenRejected
  | Opened (viewports : list (num * num)) (all : bool).

(** [beginPath(); points.forEach((pt, i) => i === 0 ? moveTo : lineTo)] *)
Definition trace (points : list point) : list path_cmd :=
  imap (λ i pt, match i with
                | 0 => MoveTo (pt_x pt) (pt_y pt)
                | S _ => LineTo (pt_x pt) (pt_y pt)
                end) points.

Definition op_color (op : pdf_op) : pdf_color :=
  match op with
  | DrawText _ _ _ _ c => c
  | DrawLine _ _ _ _ _ c => c
  end.


(** *** Field updates *)

Definition set_mode (m : mode_t) (st : state) : state :=
  State m (pdfBytes st) (pages st) (annotations st) (history st) (heap st) (wires st).
Definition set_pdfBytes (b : option (list Byte.byte)) (st : state) : state :=
  State (mode st) b (pages st) (annotations st) (history st) (heap st) (wires st).
Definition set_pages (ps : list page_view) (st : state) : state :=
  State (mode st) (pdfBytes st) ps (annotations st) (history st) (heap st) (wires st).
Definition set_annotations (a : list nat) (st : state) : state :=
  State (mode st) (pdfBytes st) (pages st) a (history st) (heap st) (wires st).
Definition set_history (h : list (list nat)) (st : state) : state :=
  State (mode st) (pdfBytes st) (pages st) (annotations st) h (heap st) (wires st).
Definition set_heap (h : list annotation) (st : state) : state :=
  State (mode st) (pdfBytes st) (pages st) (annotations st) (history st) h (wires st).
Definition set_wires (w : list wire_vars) (st : state) : state :=
  State (mode st) (pdfBytes st) (pages st) (annotations st) (history st) (heap st) w.

End Model.

Arguments point : clear implicits.
Arguments annotation : clear implicits.
Arguments path_cmd : clear implicits.
Arguments canvas_op : clear implicits.
Arguments page_view : clear implicits.
Arguments state : clear implicits.
Arguments pdf_op : clear implicits.
Arguments pdf_page : clear implicits.
Arguments save_result : clear implicits.
Arguments mouse_event : clear implicits.
Arguments dom_rect : clear implicits.
Arguments toolbar : clear implicits.
Arguments raster : clear implicits.
Arguments got_page : clear implicits.

(** The entry [renderPdf] pushes to [pages] for a page whose viewport is [v]:
    [canvas.width = viewport.width; canvas.height = viewport.height] and
    [anno.width = canvas.width; anno.height = canvas.height], nothing
    painted. *)
Definition overlay {num : Type} `{!Number num} (v : num * num) : page_view num :=
  PageView (canvas_dim 300 v.1) (canvas_dim 150 v.2) [].

(** ** The code shared by the three variants

    [pushHistory], [undo] and the loop of [redraw] read the same in the three
    variants; what differs in [redraw] is how one annotation is painted, which
    is the parameter [paint] here. *)

Module Engine.
Section Engine.
Context {num : Type}.
Variable paint : annotation num → canvas_op num.

(** Dereferencing.  Every reference the handlers store is allocated first, so
    the default (an empty stroke) is not reached from the states they build. *)
Definition deref (h : list (annotation num)) (l : nat) : annotation num :=
  default (Stroke 0 [] None None) (h !! l).

(** The annotation sequence as values: the array with its objects read. *)
Definition view (st : state num) : list (annotation num) :=
  deref (heap st) <$> annotations st.

(** [structuredClone(arr)]: a new array of new objects, one per slot, each
    with the contents of the object it copies.  The arrays the handlers build
    never hold one object twice (what is pushed is always a new object), so
    sharing between slots is not tracked. *)
Definition structuredClone (h : list (annotation num)) (arr : list nat)
  : list (annotation num) * list nat :=
  (h ++ (deref h <$> arr), seq (length h) (length arr)).

(** [annotations.push(obj)] for an object literal [obj]; the new object's
    reference is [length (heap st)]. *)
Definition annotations_push (obj : annotation num) (st : state num) : state num :=
  set_annotations (js_push (annotations st) (length (heap st)))
    (set_heap (heap st ++ [obj]) st).

(** [stroke.points.push(pt)] through the reference [l] *)
Definition points_push (l : nat) (pt : point num) (st : state num) : state num :=
  match heap st !! l with
  | Some (Stroke i pts w c) =>
      set_heap (<[l := Stroke i (js_push pts pt) w c]> (heap st)) st
  | _ => st
  end.

(** [history.push(entry); if (history.length > 50) history.shift();] as a
    function of the array and of what is pushed. *)
Definition push_bounded {A} (history : list A) (entry : A) : list A :=
  let history := js_push history entry in
  if 50 <? length history then js_shift history else history.

(** What [push_bounded] keeps of the entries it finds. *)
Definition kept {A} (history : list A) : list A :=
  if 50 <=? length history then js_shift history else history.

(** <<
function pushHistory() {
  history.push(structuredClone(annotations));
  if (history.length > 50) history.shift();
}
>> *)
Definition pushHistory (st : state num) : state num :=
  let '(h, copy) := structuredClone (heap st) (annotations st) in
  set_history (push_bounded (history st) copy) (set_heap h st).

(** [p.annoCtx.clearRect(0, 0, p.anno.width, p.anno.height)] *)
Definition clearRect (p : page_view num) : page_view num :=
  PageView (anno_width p) (anno_height p) [].

(** One turn of [for (const a of annotations)] in [redraw]. *)
Definition redraw_step (pgs : list (page_view num)) (a : annotation num)
  : list (page_view num) :=
  match pgs !! pageIndex a with
  | None => pgs
  | Some p =>
      <[pageIndex a := PageView (anno_width p) (anno_height p) (annoCtx p ++ [paint a])]> pgs
  end.

Definition redraw (st : state num) : state num :=
  set_pages (foldl redraw_step (clearRect <$> pages st) (view st)) st.

(** <<
function undo() {
  if (!history.length) return;
  annotations = history.pop();
  redraw();
}
>> *)
Definition undo (st : state num) : state num :=
  match js_pop (history st) with
  | None => st
  | Some (top, rest) => redraw (set_annotations top (set_history rest st))
  end.

(** Every reference held by the live array or by a history entry is
    allocated.  It holds of the initial state and every handler keeps it. *)
Definition wf (st : state num) : Prop :=
  Forall (λ l, l < length (heap st)) (annotations st) ∧
  Forall (Forall (λ l, l < length (heap st))) (history st).

(** [st] continues [base]: the history is the one of [base], the heap is the
    heap of [base] with objects added, and the stroke held by the closure of
    page [i], if any, is one of the added objects. *)
Definition framed (base : state num) (i : nat) (st : state num) : Prop :=
  history st = history base ∧
  heap base `prefix_of` heap st ∧
  ∀ w l, wires st !! i = Some w → stroke w = Some l → length (heap base) ≤ l.

(** [k] presses of the Undo button *)
Definition undo_times (k : nat) (st : state num) : state num :=
  Nat.iter k undo st.

End Engine.
End Engine.

(** ** First variant: [src/app.js], lines 1-303 *)

Module V1.
Section V1.
Context {num : Type} `{!Number num} `{!Font}.

(** The body of the loop of [redraw] (lines 215-230): a text is filled in
    yellow at [a.size || 18] pixels, a stroke is traced in lime with line
    width [a.width || 2]. *)
Definition paint (a : annotation num) : canvas_op num :=
  match a with
  | Text _ x y text size _ => FillText "yellow" (num_or size num_18) text x y
  | Stroke _ points width _ =>
      StrokePath "lime" (Some (num_or width num_2)) (trace points)
  end.

Definition redraw : state num → state num := Engine.redraw paint.
Definition pushHistory : state num → state num := Engine.pushHistory.
Definition undo : state num → state num := Engine.undo paint.

(** The [click] listener of [wire(canvas, ctx, pageIndex)] (lines 162-176);
    [answer] is what [prompt("Text:")] returns. *)
Definition click (pageIndex : nat) (e : mouse_event num) (rect : dom_rect num)
    (answer : option string) (st : state num) : state num :=
  match mode st, answer with
  | TextMode, Some (String _ _ as text) =>
      let st := pushHistory st in
      let x := (clientX e - rect_left rect)%js in
      let y := (clientY e - rect_top rect)%js in
      let st :=
        Engine.annotations_push (Text pageIndex x y text (Some num_18) None) st in
      redraw st
  | _, _ => st
  end.

(** The [mousedown] listener (lines 178-189). *)
Definition mousedown (pageIndex : nat) (e : mouse_event num)
    (rect : dom_rect num) (st : state num) : state num :=
  match mode st with
  | DrawMode =>
      let st := pushHistory st in
      let stroke := length (heap st) in
      let st :=
        Engine.annotations_push (Stroke pageIndex [] (Some num_2) None) st in
      let st := set_wires (<[pageIndex := WireVars true (Some stroke)]> (wires st)) st in
      Engine.points_push stroke
        (Point (clientX e - rect_left rect)%js (clientY e - rect_top rect)%js) st
  | _ => st
  end.

(** The [mousemove] listener (lines 191-199). *)
Definition mousemove (pageIndex : nat) (e : mouse_event num)
    (rect : dom_rect num) (st : state num) : state num :=
  match wires st !! pageIndex, mode st with
  | Some (WireVars true (Some stroke)), DrawMode =>
      redraw (Engine.points_push stroke
        (Point (clientX e - rect_left rect)%js (clientY e - rect_top rect)%js) st)
  | _, _ => st
  end.

(** The [mouseup] listeners on [window] (lines 201-204), one per call of
    [wire]: every closure stops drawing and drops its stroke. *)
Definition mouseup (st : state num) : state num :=
  set_wires ((λ _, WireVars false None) <$> wires st) st.

(** [renderPdf(bytes)] (lines 92-155), as it runs when nothing else is
    handled between its [await]s ([Async] below runs it one step at a time).
    [pages] is emptied first; each turn of the loop calls [wire] and pushes
    one page; [redraw()] runs when every page was rendered; the [catch] only
    reports. *)
Definition renderPdf (r : raster num) (st : state num) : state num :=
  let st := set_wires [] (set_pages [] st) in
  match r with
  | OpenRejected => st
  | Opened viewports all =>
      let st :=
        set_wires ((λ _, WireVars false None) <$> viewports)
          (set_pages (overlay <$> viewports) st) in
      if all then redraw st else st
  end.

(** [loadFile(file)] (lines 84-89).  [file] is [None] when
    [file.arrayBuffer()] rejects, which happens before any assignment. *)
Definition loadFile (file : option (list Byte.byte)) (r : raster num)
    (st : state num) : state num :=
  match file with
  | None => st
  | Some bytes =>
      renderPdf r (set_history [] (set_annotations [] (set_pdfBytes (Some bytes) st)))
  end.

(** The two [if] blocks of the loop of [savePdf] (lines 264-290), for an
    annotation whose page and overlay canvas both resolved. *)
Definition export_ops (page : pdf_page num) (canvas : page_view num)
    (a : annotation num) : list (pdf_op num) :=
  let width := pg_width page in
  let height := pg_height page in
  let sx := (width / anno_width canvas)%js in
  let sy := (height / anno_height canvas)%js in
  match a with
  | Text _ x y text size _ =>
      let size := num_or size num_18 in
      [DrawText text (x * sx)%js (height - (y * sy) - size)%js size (rgb 1 1 0)]
  | Stroke _ points width _ =>
      let thickness := num_or width num_2 in
      flat_map (λ i,
        match points !! (i - 1), points !! i with
        | Some p1, Some p2 =>
            [DrawLine (pt_x p1 * sx)%js (height - pt_y p1 * sy)%js
                      (pt_x p2 * sx)%js (height - pt_y p2 * sy)%js
                      thickness (rgb 0 1 0)]
        | _, _ => []
        end) (seq 1 (length points - 1))
  end.

(** The loop [for (const a of annotations)] of [savePdf] (lines 256-291);
    [None] when a call raises ([getPage] out of range, [drawText] on a text
    the font cannot encode), which ends [savePdf] with nothing saved. *)
Fixpoint savePdf_loop (lib : missing_page) (pgs : list (page_view num))
    (pdfDoc : list (pdf_page num)) (anns : list (annotation num))
  : option (list (pdf_page num)) :=
  match anns with
  | [] => Some pdfDoc
  | a :: rest =>
      match getPage lib pdfDoc (pageIndex a) with
      | Raised => None
      | Undefined => savePdf_loop lib pgs pdfDoc rest
      | Got page =>
          match pgs !! pageIndex a with
          | None => savePdf_loop lib pgs pdfDoc rest
          | Some canvas =>
              if drawable a then
                savePdf_loop lib pgs
                  (<[pageIndex a :=
                      PdfPage (pg_width page) (pg_height page)
                              (pg_content page ++ export_ops page canvas a)]> pdfDoc)
                  rest
              else None
          end
      end
  end.

(** [savePdf()] (lines 247-303); [pdfDoc] is the document
    [PDFLib.PDFDocument.load] makes of the bytes, and [st] holds the
    variables as they are when the loop runs. *)
Definition savePdf (lib : missing_page) (pdfDoc : list (pdf_page num))
    (st : state num) : save_result num :=
  match pdfBytes st with
  | None => Alert "Load a PDF first."
  | Some _ =>
      match savePdf_loop lib (pages st) pdfDoc (Engine.view st) with
      | Some doc => Saved doc
      | None => Throws
      end
  end.

(** [createNewPdf()] (lines 65-81); [bytes] is what [doc.save()] gives for
    the pages asked for. *)
Definition createNewPdf (bytes : list Byte.byte) (r : raster num)
    (st : state num) : state num :=
  renderPdf r (set_history [] (set_annotations [] (set_pdfBytes (Some bytes) st))).

(** The variables as the script initialises them (lines 15-19). *)
Definition initial : state num := State TextMode None [] [] [] [] [].

(** What the page can be asked to do, and the handler that answers. *)
Inductive event :=
  | TextModeBtn
  | DrawModeBtn
  | UndoBtn
  | NewBtn (bytes : list Byte.byte) (r : raster num)
  | FileChosen (file : option (list Byte.byte)) (r : raster num)
  | Click (pageIndex : nat) (e : mouse_event num) (rect : dom_rect num)
          (answer : option string)
  | MouseDown (pageIndex : nat) (e : mouse_event num) (rect : dom_rect num)
  | MouseMove (pageIndex : nat) (e : mouse_event num) (rect : dom_rect num)
  | MouseUp.

Definition handle (st : state num) (ev : event) : state num :=
  match ev with
  | TextModeBtn => set_mode TextMode st
  | DrawModeBtn => set_mode DrawMode st
  | UndoBtn => undo st
  | NewBtn bytes r => createNewPdf bytes r st
  | FileChosen file r => loadFile file r st
  | Click i e rect answer => click i e rect answer st
  | MouseDown i e rect => mousedown i e rect st
  | MouseMove i e rect => mousemove i e rect st
  | MouseUp => mouseup st
  end.

Definition run (st : state num) (evs : list event) : state num :=
  foldl handle st evs.

(** One edit as the user makes it: choose Text, click and answer the prompt
    with a text that is not empty; or choose Draw, press, drag and release. *)
Inductive gesture :=
  | TypeText (e : mouse_event num) (rect : dom_rect num) (c : Ascii.ascii) (s : string)
  | DrawStroke (e : mouse_event num) (rect : dom_rect num)
               (moves : list (mouse_event num * dom_rect num)).

Definition gesture_events (pageIndex : nat) (g : gesture) : list event :=
  match g with
  | TypeText e rect c s =>
      [TextModeBtn; Click pageIndex e rect (Some (String c s))]
  | DrawStroke e rect moves =>
      [DrawModeBtn; MouseDown pageIndex e rect]
      ++ ((λ m, MouseMove pageIndex m.1 m.2) <$> moves)
  end.

(** The edit up to its last change of the store (a stroke is still live). *)
Definition perform (pageIndex : nat) (g : gesture) (st : state num) : state num :=
  run st (gesture_events pageIndex g).

(** A series of edits, the mouse button released after each. *)
Definition edit_all (st : state num) (edits : list (nat * gesture)) : state num :=
  foldl (λ st ig, mouseup (perform ig.1 ig.2 st)) st edits.

Definition undo_times : nat → state num → state num := Engine.undo_times paint.

(** What [redraw] leaves on the overlay of page [i] for a store that reads
    as [anns]: the paintings of the annotations of that page, first to last. *)
Definition overlay_of (anns : list (annotation num)) (i : nat)
  : list (canvas_op num) :=
  paint <$> filter (λ a, pageIndex a = i) anns.

(** The position of a mouse event on the canvas:
    [{ x: e.clientX - rect.left, y: e.clientY - rect.top }]. *)
Definition local (e : mouse_event num) (rect : dom_rect num) : point num :=
  Point (clientX e - rect_left rect)%js (clientY e - rect_top rect)%js.

(** What an edit shows on its overlay once it is painted: the text in
    yellow at 18 pixels, anchored where the click was, or a path in lime of
    width 2 that starts where the button was pressed and goes on to the
    position of each move. *)
Definition shown (g : gesture) : canvas_op num :=
  match g with
  | TypeText e rect c s =>
      FillText "yellow" num_18 (String c s)
        (clientX e - rect_left rect)%js (clientY e - rect_top rect)%js
  | DrawStroke e rect moves =>
      StrokePath "lime" (Some num_2)
        (MoveTo (clientX e - rect_left rect)%js (clientY e - rect_top rect)%js
         :: ((λ m, LineTo (clientX m.1 - rect_left m.2)%js
                          (clientY m.1 - rect_top m.2)%js) <$> moves))
  end.

(** The annotation object an edit leaves at the end of the store. *)
Definition gesture_result (pageIndex : nat) (g : gesture) : annotation num :=
  match g with
  | TypeText e rect c s =>
      Text pageIndex (pt_x (local e rect)) (pt_y (local e rect)) (String c s)
           (Some num_18) None
  | DrawStroke e rect moves =>
      Stroke pageIndex (local e rect :: ((λ m, local m.1 m.2) <$> moves))
             (Some num_2) None
  end.

End V1.
End V1.

(** ** Second variant: [src/app.js], lines 304-510 *)

Module V2.
Section V2.
Context {num : Type} `{!Number num} `{!Font}.

(** The body of the loop of [redraw] (lines 437-451): the font is the fixed
    ["18px Arial"] and the line width is never assigned. *)
Definition paint (a : annotation num) : canvas_op num :=
  match a with
  | Text _ x y text _ _ => FillText "yellow" num_18 text x y
  | Stroke _ points _ _ => StrokePath "lime" None (trace points)
  end.

Definition redraw : state num → state num := Engine.redraw paint.
Definition pushHistory : state num → state num := Engine.pushHistory.
Definition undo : state num → state num := Engine.undo paint.

(** The [click] listener (lines 400-410): the snapshot is pushed before the
    prompt is shown. *)
Definition click (pageIndex : nat) (e : mouse_event num) (rect : dom_rect num)
    (answer : option string) (st : state num) : state num :=
  match mode st with
  | TextMode =>
      let st := pushHistory st in
      let x := (clientX e - rect_left rect)%js in
      let y := (clientY e - rect_top rect)%js in
      match answer with
      | Some (String _ _ as text) =>
          let st :=
            Engine.annotations_push (Text pageIndex x y text None None) st in
          redraw st
      | _ => st
      end
  | _ => st
  end.

(** The [mousedown] listener (lines 412-418): the stroke is pushed with an
    empty [points] array and nothing is added to it here. *)
Definition mousedown (pageIndex : nat) (e : mouse_event num)
    (rect : dom_rect num) (st : state num) : state num :=
  match mode st with
  | DrawMode =>
      let st := pushHistory st in
      let stroke := length (heap st) in
      let st := Engine.annotations_push (Stroke pageIndex [] None None) st in
      set_wires (<[pageIndex := WireVars true (Some stroke)]> (wires st)) st
  | _ => st
  end.

(** The [mousemove] listener (lines 420-425). *)
Definition mousemove (pageIndex : nat) (e : mouse_event num)
    (rect : dom_rect num) (st : state num) : state num :=
  match wires st !! pageIndex, mode st with
  | Some (WireVars true (Some stroke)), DrawMode =>
      redraw (Engine.points_push stroke
        (Point (clientX e - rect_left rect)%js (clientY e - rect_top rect)%js) st)
  | _, _ => st
  end.

(** The [mouseup] listeners (line 427): [drawing = false], the stroke
    variable is kept. *)
Definition mouseup (st : state num) : state num :=
  set_wires ((λ w, WireVars false (stroke w)) <$> wires st) st.

(** [renderPdf(bytes)] (lines 359-394), uninterrupted: no [try], no final
    [redraw()]; a rejection leaves what was assigned so far. *)
Definition renderPdf (r : raster num) (st : state num) : state num :=
  let st := set_wires [] (set_pages [] st) in
  match r with
  | OpenRejected => st
  | Opened viewports _ =>
      set_wires ((λ _, WireVars false None) <$> viewports)
        (set_pages (overlay <$> viewports) st)
  end.

(** [loadFile(file)] (lines 352-357). *)
Definition loadFile (file : option (list Byte.byte)) (r : raster num)
    (st : state num) : state num :=
  match file with
  | None => st
  | Some bytes =>
      renderPdf r (set_history [] (set_annotations [] (set_pdfBytes (Some bytes) st)))
  end.

(** The two [if] blocks of the loop of [savePdf] (lines 478-499): size 18 and
    thickness 2 are literals. *)
Definition export_ops (page : pdf_page num) (canvas : page_view num)
    (a : annotation num) : list (pdf_op num) :=
  let width := pg_width page in
  let height := pg_height page in
  let sx := (width / anno_width canvas)%js in
  let sy := (height / anno_height canvas)%js in
  match a with
  | Text _ x y text _ _ =>
      [DrawText text (x * sx)%js (height - (y * sy) - num_18)%js num_18 (rgb 1 1 0)]
  | Stroke _ points _ _ =>
      flat_map (λ i,
        match points !! (i - 1), points !! i with
        | Some p1, Some p2 =>
            [DrawLine (pt_x p1 * sx)%js (height - pt_y p1 * sy)%js
                      (pt_x p2 * sx)%js (height - pt_y p2 * sy)%js
                      num_2 (rgb 0 1 0)]
        | _, _ => []
        end) (seq 1 (length points - 1))
  end.

(** The loop of [savePdf] (lines 471-500).  Nothing guards the page: when
    the document has no such page, [getPage] raises or [page.getSize()] has
    no object to read, and when [pages] has no such entry,
    [pages[a.pageIndex].anno] reads a property of [undefined]; either way
    the function stops with an exception, [None] here, as it does when
    [drawText] raises on a text the font cannot encode. *)
Fixpoint savePdf_loop (lib : missing_page) (pgs : list (page_view num))
    (pdfDoc : list (pdf_page num)) (anns : list (annotation num))
  : option (list (pdf_page num)) :=
  match anns with
  | [] => Some pdfDoc
  | a :: rest =>
      match getPage lib pdfDoc (pageIndex a), pgs !! pageIndex a with
      | Got page, Some canvas =>
          if drawable a then
            savePdf_loop lib pgs
              (<[pageIndex a :=
                  PdfPage (pg_width page) (pg_height page)
                          (pg_content page ++ export_ops page canvas a)]> pdfDoc)
              rest
          else None
      | _, _ => None
      end
  end.

(** [savePdf()] (lines 466-510). *)
Definition savePdf (lib : missing_page) (pdfDoc : list (pdf_page num))
    (st : state num) : save_result num :=
  match pdfBytes st with
  | None => Alert "Load a PDF first."
  | Some _ =>
      match savePdf_loop lib (pages st) pdfDoc (Engine.view st) with
      | Some doc => Saved doc
      | None => Throws
      end
  end.

End V2.
End V2.

(** ** Third variant: [src/unnamed/part_000] *)

Module V3.
Section V3.
Context {num : Type} `{!Number num} `{!Font}.

(** The body of the loop of [redraw] (lines 213-228): the stored colour is
    used, with the first variant's colours as defaults. *)
Definition paint (a : annotation num) : canvas_op num :=
  match a with
  | Text _ x y text size color =>
      FillText (str_or color "yellow") (num_or size num_18) text x y
  | Stroke _ points width color =>
      StrokePath (str_or color "lime") (Some (num_or width num_2)) (trace points)
  end.

Definition redraw : state num → state num := Engine.redraw paint.
Definition pushHistory : state num → state num := Engine.pushHistory.
Definition undo : state num → state num := Engine.undo paint.

(** [parseInt(input.value) || d], with [parseInt]'s answer given. *)
Definition parsed_or (parsed d : num) : num := if falsy parsed then d else parsed.

(** The [click] listener (lines 168-181).  The call of [redraw] at the end of
    line 180 is inside the line's comment, so nothing is repainted here. *)
Definition click (tb : toolbar num) (pageIndex : nat) (e : mouse_event num)
    (rect : dom_rect num) (answer : option string) (st : state num) : state num :=
  match mode st, answer with
  | TextMode, Some (String _ _ as text) =>
      let st := pushHistory st in
      let x := (clientX e - rect_left rect)%js in
      let y := (clientY e - rect_top rect)%js in
      Engine.annotations_push
        (Text pageIndex x y text (Some (parsed_or (textSize tb) num_18))
              (Some (textColor tb))) st
  | _, _ => st
  end.

(** The [mousedown] listener (lines 183-191). *)
Definition mousedown (tb : toolbar num) (pageIndex : nat) (e : mouse_event num)
    (rect : dom_rect num) (st : state num) : state num :=
  match mode st with
  | TextMode => st
  | m =>
      let st := pushHistory st in
      let stroke := length (heap st) in
      let color :=
        match m with EraserMode => "#FFFFFF" | _ => drawColor tb end in
      let st :=
        Engine.annotations_push
          (Stroke pageIndex [] (Some (parsed_or (lineWidth tb) num_2)) (Some color))
          st in
      let st := set_wires (<[pageIndex := WireVars true (Some stroke)]> (wires st)) st in
      Engine.points_push stroke
        (Point (clientX e - rect_left rect)%js (clientY e - rect_top rect)%js) st
  end.

(** The [mousemove] listener (lines 193-198). *)
Definition mousemove (pageIndex : nat) (e : mouse_event num)
    (rect : dom_rect num) (st : state num) : state num :=
  match wires st !! pageIndex, mode st with
  | Some (WireVars true (Some stroke)), (DrawMode | EraserMode) =>
      redraw (Engine.points_push stroke
        (Point (clientX e - rect_left rect)%js (clientY e - rect_top rect)%js) st)
  | _, _ => st
  end.

(** The [mouseup] listeners (lines 200-203). *)
Definition mouseup (st : state num) : state num :=
  set_wires ((λ _, WireVars false None) <$> wires st) st.

(** The two [if] blocks of the loop of [savePdf] (lines 258-284). *)
Definition export_ops (page : pdf_page num) (canvas : page_view num)
    (a : annotation num) : list (pdf_op num) :=
  let width := pg_width page in
  let height := pg_height page in
  let sx := (width / anno_width canvas)%js in
  let sy := (height / anno_height canvas)%js in
  match a with
  | Text _ x y text size _ =>
      let size := num_or size num_18 in
      [DrawText text (x * sx)%js (height - (y * sy) - size)%js size (rgb 1 1 0)]
  | Stroke _ points width _ =>
      let thickness := num_or width num_2 in
      flat_map (λ i,
        match points !! (i - 1), points !! i with
        | Some p1, Some p2 =>
            [DrawLine (pt_x p1 * sx)%js (height - pt_y p1 * sy)%js
                      (pt_x p2 * sx)%js (height - pt_y p2 * sy)%js
                      thickness (rgb 0 1 0)]
        | _, _ => []
        end) (seq 1 (length points - 1))
  end.

(** The loop of [savePdf] (lines 252-285), guarded as in the first
    variant, and stopped in the same way when [drawText] raises. *)
Fixpoint savePdf_loop (lib : missing_page) (pgs : list (page_view num))
    (pdfDoc : list (pdf_page num)) (anns : list (annotation num))
  : option (list (pdf_page num)) :=
  match anns with
  | [] => Some pdfDoc
  | a :: rest =>
      match getPage lib pdfDoc (pageIndex a) with
      | Raised => None
      | Undefined => savePdf_loop lib pgs pdfDoc rest
      | Got page =>
          match pgs !! pageIndex a with
          | None => savePdf_loop lib pgs pdfDoc rest
          | Some canvas =>
              if drawable a then
                savePdf_loop lib pgs
                  (<[pageIndex a :=
                      PdfPage (pg_width page) (pg_height page)
                              (pg_content page ++ export_ops page canvas a)]> pdfDoc)
                  rest
              else None
          end
      end
  end.

(** [savePdf()] (lines 245-297). *)
Definition savePdf (lib : missing_page) (pdfDoc : list (pdf_page num))
    (st : state num) : save_result num :=
  match pdfBytes st with
  | None => Alert "Load a PDF first."
  | Some _ =>
      match savePdf_loop lib (pages st) pdfDoc (Engine.view st) with
      | Some doc => Saved doc
      | None => Throws
      end
  end.

End V3.
End V3.

(** ** The font of the examples

    A font that encodes the texts made of the characters from the space to
    the tilde (U+0020 to U+007E) and no other text.  Helvetica encodes these
    texts too; it rejects a text with a character outside its encoding, such
    as the capital omega, as this font does. *)

Definition basic_latin_char (c : Ascii.ascii) : bool :=
  let n := Ascii.nat_of_ascii c in (32 <=? n) && (n <=? 126).

#[export] Instance basic_latin : Font :=
  λ text, forallb basic_latin_char (String.list_ascii_of_string text).

(** ** Sample sessions

    One page rendered at 900 x 1400 overlay pixels whose physical size is
    612 x 792, the page of the specification's examples; in exact rationals
    and in binary64 floats. *)

Module Sample.

Definition canvas_Q : page_view Q := PageView 900%Q 1400%Q [].
Definition page_Q : pdf_page Q := PdfPage 612%Q 792%Q [].
Definition canvas_f : page_view float := PageView 900%float 1400%float [].
Definition page_f : pdf_page float := PdfPage 612%float 792%float [].

Definition at_Q (x y : Q) : mouse_event Q := MouseEvent x y.
Definition at_f (x y : float) : mouse_event float := MouseEvent x y.
Definition origin_Q : dom_rect Q := DomRect 0%Q 0%Q.
Definition origin_f : dom_rect float := DomRect 0%float 0%float.

(** The session after a one-page file was opened. *)
Definition opened_Q : state Q :=
  V1.loadFile (Some []) (Opened [(900%Q, 1400%Q)] true) V1.initial.
Definition opened_f : state float :=
  V1.loadFile (Some []) (Opened [(900%float, 1400%float)] true) V1.initial.

(** A stroke from the top left to the bottom right corner of the overlay. *)
Definition diagonal_f : state float :=
  V1.edit_all opened_f
    [(0, V1.DrawStroke (at_f 0 0) origin_f [(at_f 900 1400, origin_f)])].

Definition diagonal_Q : state Q :=
  V1.edit_all opened_Q
    [(0, V1.DrawStroke (at_Q 0 0) origin_Q [(at_Q 900 1400, origin_Q)])].

(** The text "Hi" typed at pixel (50, 100). *)
Definition hi_Q : state Q :=
  V1.edit_all opened_Q [(0, V1.TypeText (at_Q 50 100) origin_Q "H"%char "i")].
Definition hi_f : state float :=
  V1.edit_all opened_f [(0, V1.TypeText (at_f 50 100) origin_f "H"%char "i")].

(** A capital omega typed at the same place. *)
Definition omega_Q : state Q :=
  V1.click 0 (at_Q 50 100) origin_Q (Some "Ω") opened_Q.

(** A text, a stroke and a text on the same page. *)
Definition three_edits : list (nat * @V1.gesture Q) :=
  [(0, V1.TypeText (at_Q 50 100) origin_Q "A"%char "");
   (0, V1.DrawStroke (at_Q 10 10) origin_Q [(at_Q 20 30, origin_Q)]);
   (0, V1.TypeText (at_Q 70 200) origin_Q "C"%char "")].

(** A session of three pages whose store holds one annotation of page 5
    between two annotations of page 0. *)
Definition three_pages : list (Q * Q) :=
  [(900%Q, 1400%Q); (900%Q, 1400%Q); (900%Q, 1400%Q)].
Definition three_page_doc : list (pdf_page Q) := [page_Q; page_Q; page_Q].
Definition dangling : state Q :=
  State TextMode (Some [])
        ((λ v, PageView v.1 v.2 []) <$> three_pages)
        [0; 1; 2] []
        [Text 0 10%Q 20%Q "a" (Some 18%Q) None;
         Text 5 10%Q 20%Q "b" (Some 18%Q) None;
         Text 0 30%Q 40%Q "c" (Some 18%Q) None]
        ((λ _, WireVars false None) <$> three_pages).
Definition not_dangling : state Q :=
  set_heap [Text 0 10%Q 20%Q "a" (Some 18%Q) None; Text 0 30%Q 40%Q "c" (Some 18%Q) None]
    (set_annotations [0; 1] dangling).

(** The same session in draw mode, and in eraser mode. *)
Definition drawing_Q : state Q := set_mode DrawMode opened_Q.
Definition erasing_Q : state Q := set_mode EraserMode opened_Q.
Definition tools_Q : toolbar Q := Toolbar "#ff0000" 24%Q "#0000ff" 3%Q.

(** 51 texts typed one after the other. *)
Definition many_edits : list (nat * @V1.gesture Q) :=
  replicate 51 (0, V1.TypeText (at_Q 50 100) origin_Q "x"%char "").

End Sample.

(** ** The rest of the three variants

    The loading functions of the third variant, the events of the second and
    third variants, the file handlers and the page list of [createNewPdf]. *)

(** *** Strokes as they are dragged *)

Module Drag.
Section Drag.
Context {num : Type} `{!Number num}.

(** Pointer down on page [i], then the mouse moved over that page. *)
Definition v1 (i : nat) (e : mouse_event num) (rect : dom_rect num)
    (moves : list (mouse_event num * dom_rect num)) (st : state num) : state num :=
  foldl (λ st m, V1.mousemove i m.1 m.2 st) (V1.mousedown i e rect st) moves.

Definition v2 (i : nat) (e : mouse_event num) (rect : dom_rect num)
    (moves : list (mouse_event num * dom_rect num)) (st : state num) : state num :=
  foldl (λ st m, V2.mousemove i m.1 m.2 st) (V2.mousedown i e rect st) moves.

Definition v3 (tb : toolbar num) (i : nat) (e : mouse_event num)
    (rect : dom_rect num) (moves : list (mouse_event num * dom_rect num))
    (st : state num) : state num :=
  foldl (λ st m, V3.mousemove i m.1 m.2 st) (V3.mousedown tb i e rect st) moves.

(** The mouse moved over any pages, with no pointer down in between. *)
Definition moves1 (st : state num)
    (moves : list (nat * mouse_event num * dom_rect num)) : state num :=
  foldl (λ st m, V1.mousemove m.1.1 m.1.2 m.2 st) st moves.

Definition moves2 (st : state num)
    (moves : list (nat * mouse_event num * dom_rect num)) : state num :=
  foldl (λ st m, V2.mousemove m.1.1 m.1.2 m.2 st) st moves.

Definition moves3 (st : state num)
    (moves : list (nat * mouse_event num * dom_rect num)) : state num :=
  foldl (λ st m, V3.mousemove m.1.1 m.1.2 m.2 st) st moves.

End Drag.
End Drag.

(** *** Sessions of the second variant *)

Module V2Session.
Section V2Session.
Context {num : Type} `{!Number num}.

Definition initial : state num := State TextMode None [] [] [] [] [].

(** The second variant has no New button. *)
Inductive event :=
  | TextModeBtn
  | DrawModeBtn
  | UndoBtn
  | FileChosen (file : option (list Byte.byte)) (r : raster num)
  | Click (pageIndex : nat) (e : mouse_event num) (rect : dom_rect num)
          (answer : option string)
  | MouseDown (pageIndex : nat) (e : mouse_event num) (rect : dom_rect num)
  | MouseMove (pageIndex : nat) (e : mouse_event num) (rect : dom_rect num)
  | MouseUp.

Definition handle (st : state num) (ev : event) : state num :=
  match ev with
  | TextModeBtn => set_mode TextMode st
  | DrawModeBtn => set_mode DrawMode st
  | UndoBtn => V2.undo st
  | FileChosen file r => V2.loadFile file r st
  | Click i e rect answer => V2.click i e rect answer st
  | MouseDown i e rect => V2.mousedown i e rect st
  | MouseMove i e rect => V2.mousemove i e rect st
  | MouseUp => V2.mouseup st
  end.

Definition run (st : state num) (evs : list event) : state num :=
  foldl handle st evs.

(** A mouse event comes from the overlay canvas of a page that is shown. *)
Definition possible_event (st : state num) (ev : event) : Prop :=
  match ev with
  | Click i _ _ _ | MouseDown i _ _ | MouseMove i _ _ => i < length (pages st)
  | _ => True
  end.

End V2Session.
End V2Session.

(** *** Sessions of the first variant *)

Module V1Session.
Section V1Session.
Context {num : Type} `{!Number num}.

Definition possible_event (st : state num) (ev : @V1.event num) : Prop :=
  match ev with
  | V1.Click i _ _ _ | V1.MouseDown i _ _ | V1.MouseMove i _ _ =>
      i < length (pages st)
  | _ => True
  end.

End V1Session.
End V1Session.

(** *** Sessions of the third variant *)

Module V3Session.
Section V3Session.
Context {num : Type} `{!Number num}.

(** [renderPdf(bytes)] ([part_000], lines 98-161), uninterrupted. *)
Definition renderPdf (r : raster num) (st : state num) : state num :=
  let st := set_wires [] (set_pages [] st) in
  match r with
  | OpenRejected => st
  | Opened viewports all =>
      let st :=
        set_wires ((λ _, WireVars false None) <$> viewports)
          (set_pages (overlay <$> viewports) st) in
      if all then V3.redraw st else st
  end.

(** [loadFile(file)] (lines 90-95). *)
Definition loadFile (file : option (list Byte.byte)) (r : raster num)
    (st : state num) : state num :=
  match file with
  | None => st
  | Some bytes =>
      renderPdf r (set_history [] (set_annotations [] (set_pdfBytes (Some bytes) st)))
  end.

(** [createNewPdf()] (lines 71-87), from the bytes [doc.save()] gives. *)
Definition createNewPdf (bytes : list Byte.byte) (r : raster num)
    (st : state num) : state num :=
  renderPdf r (set_history [] (set_annotations [] (set_pdfBytes (Some bytes) st))).

Definition initial : state num := State TextMode None [] [] [] [] [].

(** The toolbar is read when the event is handled. *)
Inductive event :=
  | TextModeBtn
  | DrawModeBtn
  | EraserModeBtn
  | UndoBtn
  | NewBtn (bytes : list Byte.byte) (r : raster num)
  | FileChosen (file : option (list Byte.byte)) (r : raster num)
  | Click (tb : toolbar num) (pageIndex : nat) (e : mouse_event num)
          (rect : dom_rect num) (answer : option string)
  | MouseDown (tb : toolbar num) (pageIndex : nat) (e : mouse_event num)
              (rect : dom_rect num)
  | MouseMove (pageIndex : nat) (e : mouse_event num) (rect : dom_rect num)
  | MouseUp.

Definition handle (st : state num) (ev : event) : state num :=
  match ev with
  | TextModeBtn => set_mode TextMode st
  | DrawModeBtn => set_mode DrawMode st
  | EraserModeBtn => set_mode EraserMode st
  | UndoBtn => V3.undo st
  | NewBtn bytes r => createNewPdf bytes r st
  | FileChosen file r => loadFile file r st
  | Click tb i e rect answer => V3.click tb i e rect answer st
  | MouseDown tb i e rect => V3.mousedown tb i e rect st
  | MouseMove i e rect => V3.mousemove i e rect st
  | MouseUp => V3.mouseup st
  end.

Definition run (st : state num) (evs : list event) : state num :=
  foldl handle st evs.

Definition possible_event (st : state num) (ev : event) : Prop :=
  match ev with
  | Click _ i _ _ _ | MouseDown _ i _ _ | MouseMove i _ _ => i < length (pages st)
  | _ => True
  end.

End V3Session.
End V3Session.

(** *** Where the annotations are *)

Module Place.
Section Place.
Context {num : Type}.

(** The objects of an array are on pages that are shown. *)
Definition on_pages (st : state num) (arr : list nat) : Prop :=
  Forall (λ l, pageIndex (Engine.deref (heap st) l) < length (pages st)) arr.

(** Every reference is allocated, every page has the closure of its call of
    [wire], and the annotations of the store and of every snapshot are on
    pages that are shown. *)
Definition placed (st : state num) : Prop :=
  Engine.wf st ∧
  length (wires st) = length (pages st) ∧
  on_pages st (annotations st) ∧
  Forall (on_pages st) (history st).

End Place.
End Place.

(** *** Loads as they run

    [loadFile], [createNewPdf] and [renderPdf] are [async]: at each [await]
    the page goes on handling events, a click on a page already rendered or
    another load among them.  [V1.renderPdf] and its like above are a load
    that nothing interrupts; here a load is run one step at a time, a step
    being what the function does between two [await]s. *)

Module Async.
Section Async.
Context {num : Type} `{!Number num}.

(** A call of [renderPdf] waiting at an [await]: the index [i] of the page
    it renders next, the viewports of the pages it has yet to render, and
    whether these are all its pages ([false]: the promise it waits for after
    them is rejected, so the call ends without its last [redraw]). *)
Record task := Task {
  next : nat;
  todo : list (num * num);
  all : bool
}.

(** The variables of the script; for each overlay of the viewer, in the
    order of [pages], the [pageIndex] its call of [wire] was given; and the
    calls of [renderPdf] that are waiting. *)
Record session := Session {
  now : state num;
  wired : list nat;
  waiting : list task
}.

Definition task_of (r : raster num) : task :=
  match r with
  | OpenRejected => Task 0 [] false
  | Opened viewports all => Task 0 viewports all
  end.

(** How many times such a call goes on before it ends. *)
Definition steps (r : raster num) : nat :=
  match r with
  | OpenRejected => 1
  | Opened viewports true => Nat.max 1 (length viewports)
  | Opened viewports false => S (length viewports)
  end.

(** The overlays in the viewer were rendered by one call of [renderPdf],
    which is the only one that may be waiting: each overlay is wired with its
    position in [pages]. *)
Definition aligned (s : session) : Prop :=
  wired s = seq 0 (length (pages (now s))) ∧
  (waiting s = [] ∨
   ∃ viewports all,
     waiting s = [Task (length (pages (now s))) viewports all]).

Section Machine.
(** A variant: its events; which of them are loads whose bytes are there;
    how its handlers answer the others, given the indexes the overlays are
    wired with; what [renderPdf] calls after its last page; the overlay a
    pointer event comes from. *)
Variable ev : Type.
Variable begins : ev → option (list Byte.byte * raster num).
Variable act : list nat → ev → state num → state num.
Variable finish : state num → state num.
Variable target : ev → option nat.

Inductive event :=
  | Do (e : ev)
  | Resume (t : nat).

(** [loadFile] after [await file.arrayBuffer()], or [createNewPdf] after
    [await doc.save()], up to the first [await] of [renderPdf]: the bytes,
    the store and the history are assigned, the viewer and [pages] are
    emptied, and the call waits for the document. *)
Definition begin (bytes : list Byte.byte) (r : raster num) (s : session)
  : session :=
  Session
    (set_wires [] (set_pages []
       (set_history [] (set_annotations [] (set_pdfBytes (Some bytes) (now s))))))
    []
    (waiting s ++ [task_of r]).

(** The call [t] goes on: with no page left, it ends (after [redraw()] when
    every page was rendered); otherwise one turn of its loop wires an overlay
    with the index [i] and pushes it to [pages], and when that was the last
    page the loop is left and [redraw()] runs before anything else does. *)
Definition resume (t : nat) (s : session) : session :=
  match waiting s !! t with
  | None => s
  | Some task =>
      match todo task with
      | [] =>
          Session (if all task then finish (now s) else now s)
                  (wired s) (delete t (waiting s))
      | v :: rest =>
          let st :=
            set_wires (wires (now s) ++ [WireVars false None])
              (set_pages (pages (now s) ++ [overlay v]) (now s)) in
          let wired := wired s ++ [next task] in
          match rest, all task with
          | [], true => Session (finish st) wired (delete t (waiting s))
          | _, _ =>
              Session st wired
                (<[t := Task (S (next task)) rest (all task)]> (waiting s))
          end
      end
  end.

Definition step (s : session) (e : event) : session :=
  match e with
  | Resume t => resume t s
  | Do e =>
      match begins e with
      | Some (bytes, r) => begin bytes r s
      | None => Session (act (wired s) e (now s)) (wired s) (waiting s)
      end
  end.

Definition run (s : session) (evs : list event) : session :=
  foldl step s evs.

(** A session in which no load begins while another is waiting, and every
    pointer event comes from an overlay that is in the viewer. *)
Definition orderly_event (s : session) (e : event) : Prop :=
  match e with
  | Resume _ => True
  | Do e =>
      (is_Some (begins e) → waiting s = []) ∧
      (∀ k, target e = Some k → k < length (pages (now s)))
  end.

Fixpoint orderly (s : session) (evs : list event) : Prop :=
  match evs with
  | [] => True
  | e :: rest => orderly_event s e ∧ orderly (step s e) rest
  end.

(** The load [ev], and then its call of [renderPdf] for as long as it is
    waiting, with nothing in between. *)
Definition uninterrupted (e : ev) (n : nat) : list event :=
  Do e :: replicate n (Resume 0).

End Machine.
End Async.
End Async.

Arguments Async.task : clear implicits.
Arguments Async.session : clear implicits.
Arguments Async.Do {ev} e.
Arguments Async.Resume {ev} t.
Arguments Async.step {num _ ev} begins act finish s e.
Arguments Async.run {num _ ev} begins act finish s evs.
Arguments Async.orderly_event {num ev} begins target s e.
Arguments Async.orderly {num _ ev} begins act finish target s evs.
Arguments Async.uninterrupted {ev} e n.

(** The first variant, step by step. *)

Module V1Async.
Section V1Async.
Context {num : Type} `{!Number num}.

(** The [mousedown] listener (lines 178-189) of the overlay at position [k]
    of the viewer, whose call of [wire] was given [pageIndex]. *)
Definition mousedown_at (k pageIndex : nat) (e : mouse_event num)
    (rect : dom_rect num) (st : state num) : state num :=
  match mode st with
  | DrawMode =>
      let st := V1.pushHistory st in
      let stroke := length (heap st) in
      let st :=
        Engine.annotations_push (Stroke pageIndex [] (Some num_2) None) st in
      let st := set_wires (<[k := WireVars true (Some stroke)]> (wires st)) st in
      Engine.points_push stroke
        (Point (clientX e - rect_left rect)%js (clientY e - rect_top rect)%js) st
  | _ => st
  end.

Definition begins (e : @V1.event num) : option (list Byte.byte * raster num) :=
  match e with
  | V1.NewBtn bytes r => Some (bytes, r)
  | V1.FileChosen (Some bytes) r => Some (bytes, r)
  | _ => None
  end.

Definition target (e : @V1.event num) : option nat :=
  match e with
  | V1.Click k _ _ _ | V1.MouseDown k _ _ | V1.MouseMove k _ _ => Some k
  | _ => None
  end.

(** An event that is not a load whose bytes are there; [k] is the position
    of the overlay the event comes from. *)
Definition act (wired : list nat) (e : @V1.event num) (st : state num)
  : state num :=
  match e with
  | V1.Click k e rect answer =>
      match wired !! k with
      | Some pageIndex => V1.click pageIndex e rect answer st
      | None => st
      end
  | V1.MouseDown k e rect =>
      match wired !! k with
      | Some pageIndex => mousedown_at k pageIndex e rect st
      | None => st
      end
  | V1.NewBtn _ _ | V1.FileChosen _ _ => st
  | e => V1.handle st e
  end.

Definition initial : Async.session num := Async.Session V1.initial [] [].

Definition run : Async.session num → list (Async.event V1.event) → Async.session num :=
  Async.run begins act V1.redraw.

Definition orderly : Async.session num → list (Async.event V1.event) → Prop :=
  Async.orderly begins act V1.redraw target.

End V1Async.
End V1Async.

(** The second variant: [renderPdf] has no last [redraw()]. *)

Module V2Async.
Section V2Async.
Context {num : Type} `{!Number num}.

(** The [mousedown] listener (lines 412-418) of the overlay at position
    [k], whose call of [wire] was given [pageIndex]. *)
Definition mousedown_at (k pageIndex : nat) (e : mouse_event num)
    (rect : dom_rect num) (st : state num) : state num :=
  match mode st with
  | DrawMode =>
      let st := V2.pushHistory st in
      let stroke := length (heap st) in
      let st := Engine.annotations_push (Stroke pageIndex [] None None) st in
      set_wires (<[k := WireVars true (Some stroke)]> (wires st)) st
  | _ => st
  end.

Definition begins (e : @V2Session.event num)
  : option (list Byte.byte * raster num) :=
  match e with
  | V2Session.FileChosen (Some bytes) r => Some (bytes, r)
  | _ => None
  end.

Definition target (e : @V2Session.event num) : option nat :=
  match e with
  | V2Session.Click k _ _ _ | V2Session.MouseDown k _ _
  | V2Session.MouseMove k _ _ => Some k
  | _ => None
  end.

Definition act (wired : list nat) (e : @V2Session.event num) (st : state num)
  : state num :=
  match e with
  | V2Session.Click k e rect answer =>
      match wired !! k with
      | Some pageIndex => V2.click pageIndex e rect answer st
      | None => st
      end
  | V2Session.MouseDown k e rect =>
      match wired !! k with
      | Some pageIndex => mousedown_at k pageIndex e rect st
      | None => st
      end
  | V2Session.FileChosen _ _ => st
  | e => V2Session.handle st e
  end.

Definition initial : Async.session num := Async.Session V2Session.initial [] [].

Definition run
  : Async.session num → list (Async.event V2Session.event) → Async.session num :=
  Async.run begins act id.

Definition orderly
  : Async.session num → list (Async.event V2Session.event) → Prop :=
  Async.orderly begins act id target.

End V2Async.
End V2Async.

(** The third variant. *)

Module V3Async.
Section V3Async.
Context {num : Type} `{!Number num}.

(** The [mousedown] listener ([part_000], lines 183-191) of the overlay at
    position [k], whose call of [wire] was given [pageIndex]. *)
Definition mousedown_at (tb : toolbar num) (k pageIndex : nat)
    (e : mouse_event num) (rect : dom_rect num) (st : state num) : state num :=
  match mode st with
  | TextMode => st
  | m =>
      let st := V3.pushHistory st in
      let stroke := length (heap st) in
      let color :=
        match m with EraserMode => "#FFFFFF" | _ => drawColor tb end in
      let st :=
        Engine.annotations_push
          (Stroke pageIndex [] (Some (V3.parsed_or (lineWidth tb) num_2)) (Some color))
          st in
      let st := set_wires (<[k := WireVars true (Some stroke)]> (wires st)) st in
      Engine.points_push stroke
        (Point (clientX e - rect_left rect)%js (clientY e - rect_top rect)%js) st
  end.

Definition begins (e : @V3Session.event num)
  : option (list Byte.byte * raster num) :=
  match e with
  | V3Session.NewBtn bytes r => Some (bytes, r)
  | V3Session.FileChosen (Some bytes) r => Some (bytes, r)
  | _ => None
  end.

Definition target (e : @V3Session.event num) : option nat :=
  match e with
  | V3Session.Click _ k _ _ _ | V3Session.MouseDown _ k _ _
  | V3Session.MouseMove k _ _ => Some k
  | _ => None
  end.

Definition act (wired : list nat) (e : @V3Session.event num) (st : state num)
  : state num :=
  match e with
  | V3Session.Click tb k e rect answer =>
      match wired !! k with
      | Some pageIndex => V3.click tb pageIndex e rect answer st
      | None => st
      end
  | V3Session.MouseDown tb k e rect =>
      match wired !! k with
      | Some pageIndex => mousedown_at tb k pageIndex e rect st
      | None => st
      end
  | V3Session.NewBtn _ _ | V3Session.FileChosen _ _ => st
  | e => V3Session.handle st e
  end.

Definition initial : Async.session num := Async.Session V3Session.initial [] [].

Definition run
  : Async.session num → list (Async.event V3Session.event) → Async.session num :=
  Async.run begins act V3.redraw.

Definition orderly
  : Async.session num → list (Async.event V3Session.event) → Prop :=
  Async.orderly begins act V3.redraw target.

End V3Async.
End V3Async.

(** *** Snapshots and the strokes being drawn *)

Module Seal.
Section Seal.
Context {num : Type}.

(** The objects of [arr] are allocated and none of them is a stroke held by
    a closure of [wire]. *)
Definition sealed (st : state num) (arr : list nat) : Prop :=
  Forall (λ l, l < length (heap st)) arr ∧
  Forall (λ w, ∀ l, stroke w = Some l → l ∉ arr) (wires st).

(** The strokes held by the closures are allocated, and every entry of the
    history is sealed. *)
Definition good (st : state num) : Prop :=
  Forall (λ w, ∀ l, stroke w = Some l → l < length (heap st)) (wires st) ∧
  Forall (sealed st) (history st).

End Seal.
End Seal.

(** *** Files dropped and chosen *)

Module Files.

(** A [File]: its [type], its [name], and what [arrayBuffer()] resolves to
    ([None] when it rejects). *)
Record file := File {
  file_type : string;
  file_name : string;
  arrayBuffer : option (list Byte.byte)
}.

(** [toLowerCase] and [toUpperCase] on the letters A-Z and a-z.  Other
    characters are left as they are; none of them maps to a character of
    [".pdf"] or of ["A4"], the two strings the results are compared with. *)
Definition lower_char (c : Ascii.ascii) : Ascii.ascii :=
  let n := Ascii.nat_of_ascii c in
  if (65 <=? n) && (n <=? 90) then Ascii.ascii_of_nat (n + 32) else c.

Definition upper_char (c : Ascii.ascii) : Ascii.ascii :=
  let n := Ascii.nat_of_ascii c in
  if (97 <=? n) && (n <=? 122) then Ascii.ascii_of_nat (n - 32) else c.

Fixpoint toLowerCase (s : string) : string :=
  match s with
  | EmptyString => EmptyString
  | String c rest => String (lower_char c) (toLowerCase rest)
  end.

Fixpoint toUpperCase (s : string) : string :=
  match s with
  | EmptyString => EmptyString
  | String c rest => String (upper_char c) (toUpperCase rest)
  end.

(** [s.endsWith(suffix)] *)
Definition endsWith (s suffix : string) : bool :=
  let n := String.length s in
  let m := String.length suffix in
  (m <=? n) && String.eqb (String.substring (n - m) m s) suffix.

(** [file.type === "application/pdf" ||
     file.name.toLowerCase().endsWith(".pdf")] *)
Definition isPdf (f : file) : bool :=
  String.eqb (file_type f) "application/pdf"
  || endsWith (toLowerCase (file_name f)) ".pdf".

Section Handlers.
Context {num : Type} `{!Number num}.

(** The [drop] listener of the first and third variants ([app.js], lines
    51-62): the new state and what is alerted. *)
Definition drop1 (dropped : option file) (r : raster num) (st : state num)
  : state num * option string :=
  match dropped with
  | None => (st, None)
  | Some f =>
      if isPdf f then (V1.loadFile (arrayBuffer f) r st, None)
      else (st, Some "Please drop a PDF file.")
  end.

(** The [change] listener of the file input (lines 34-39). *)
Definition change1 (chosen : option file) (r : raster num) (st : state num)
  : state num :=
  match chosen with
  | None => st
  | Some f => V1.loadFile (arrayBuffer f) r st
  end.

(** The [drop] listener of the second variant (lines 343-350). *)
Definition drop2 (dropped : option file) (r : raster num) (st : state num)
  : state num :=
  match dropped with
  | Some f =>
      if String.eqb (file_type f) "application/pdf"
      then V2.loadFile (arrayBuffer f) r st
      else st
  | None => st
  end.

(** The [change] listener of the second variant (lines 327-332). *)
Definition change2 (chosen : option file) (r : raster num) (st : state num)
  : state num :=
  match chosen with
  | None => st
  | Some f => V2.loadFile (arrayBuffer f) r st
  end.

End Handlers.
End Files.

(** *** The pages of a new document *)

Module NewPdf.

(** [parseInt(s, 10)] on a string held as the bytes of its UTF-8 encoding:
    white space and line terminators are skipped at the start, then a sign
    is read if there is one, then the decimal digits up to the first
    character that is none; [None] is [NaN], the answer when no digit was
    read.  The integer is the one the digits denote ([parseInt] rounds it to
    a float, which changes nothing up to [2 ^ 53]). *)

(** The characters of [WhiteSpace] and [LineTerminator]: U+0009 to U+000D,
    U+0020, U+00A0, U+1680, U+2000 to U+200A, U+2028, U+2029, U+202F,
    U+205F, U+3000 and U+FEFF. *)
Definition white_space : list (list nat) :=
  [[9]; [10]; [11]; [12]; [13]; [32]; [194; 160]; [225; 154; 128];
   [226; 128; 128]; [226; 128; 129]; [226; 128; 130]; [226; 128; 131];
   [226; 128; 132]; [226; 128; 133]; [226; 128; 134]; [226; 128; 135];
   [226; 128; 136]; [226; 128; 137]; [226; 128; 138];
   [226; 128; 168]; [226; 128; 169]; [226; 128; 175]; [226; 129; 159];
   [227; 128; 128]; [239; 187; 191]].

(** What is left of [bytes] after [prefix], when [bytes] starts with it. *)
Fixpoint after (prefix bytes : list nat) : option (list nat) :=
  match prefix, bytes with
  | [], _ => Some bytes
  | p :: prefix, b :: bytes => if p =? b then after prefix bytes else None
  | _ :: _, [] => None
  end.

Definition after_white_space (bytes : list nat) : option (list nat) :=
  head (omap (λ prefix, after prefix bytes) white_space).

Fixpoint trim_start (fuel : nat) (bytes : list nat) : list nat :=
  match fuel with
  | 0 => bytes
  | S fuel =>
      match after_white_space bytes with
      | Some rest => trim_start fuel rest
      | None => bytes
      end
  end.

Fixpoint digits (read : option Z) (bytes : list nat) : option Z :=
  match bytes with
  | b :: rest =>
      if (48 <=? b) && (b <=? 57)
      then digits (Some (10 * default 0 read + Z.of_nat (b - 48))%Z) rest
      else read
  | [] => read
  end.

Definition parseInt10 (s : string) : option Z :=
  let bytes := Ascii.nat_of_ascii <$> String.list_ascii_of_string s in
  let bytes := trim_start (length bytes) bytes in
  let signed :=
    match bytes with
    | b :: rest =>
        if b =? 45 then (true, rest)
        else if b =? 43 then (false, rest) else (false, bytes)
    | [] => (false, bytes)
    end in
  match digits None signed.2 with
  | Some n => Some (if signed.1 then (- n)%Z else n)
  | None => None
  end.

(** [prompt(...) || d] *)
Definition answer_or (answer : option string) (d : string) : string :=
  match answer with
  | Some (String _ _ as s) => s
  | _ => d
  end.

(** [Math.max(1, parseInt(prompt("How many pages?", "1") || "1", 10))];
    [Math.max] of [NaN] is [NaN]. *)
Definition pagesCount (answer : option string) : option Z :=
  match parseInt10 (answer_or answer "1") with
  | Some n => Some (Z.max 1 n)
  | None => None
  end.

(** [size === "A4" ? [595, 842] : [612, 792]] for
    [size = (prompt(...) || "LETTER").toUpperCase()] *)
Definition dims (answer : option string) : Q * Q :=
  if String.eqb (Files.toUpperCase (answer_or answer "LETTER")) "A4"
  then (595, 842)%Q else (612, 792)%Q.

(** [for (let i = 0; i < pagesCount; i++) doc.addPage(dims)]: the pages
    added, in order; [i < NaN] is false.  The counter is exact up to
    [2 ^ 53]. *)
Definition added_pages (count size : option string) : list (Q * Q) :=
  match pagesCount count with
  | Some n => replicate (Z.to_nat n) (dims size)
  | None => []
  end.

(** The pages of the document [doc.save()] writes: to a document that has
    no page the library first adds one of its own default size, [blank]
    (595.28 x 841.89 in pdf-lib). *)
Definition saved_pages (blank : Q * Q) (count size : option string)
  : list (Q * Q) :=
  match added_pages count size with
  | [] => [blank]
  | added => added
  end.

End NewPdf.

(** *** The export in closed form *)

Module Flatten.
Section Flatten.
Context {num : Type}.
Variable ops : pdf_page num → page_view num → annotation num → list (pdf_op num).

(** The document with, on every page that has an overlay, the instructions
    of that page's annotations added after what the page held, in the order
    of the store. *)
Definition flattened (pgs : list (page_view num)) (doc : list (pdf_page num))
    (anns : list (annotation num)) : list (pdf_page num) :=
  imap (λ i page,
    match pgs !! i with
    | Some canvas =>
        PdfPage (pg_width page) (pg_height page)
          (pg_content page
           ++ flat_map (ops page canvas) (filter (λ a, pageIndex a = i) anns))
    | None => page
    end) doc.

End Flatten.
End Flatten.

(** *** Sample sessions of the three variants, event by event *)

Module Trace.

(** A file is opened, a text is typed, a stroke is drawn and undone. *)
Definition v1 : list (@V1.event Q) :=
  [V1.FileChosen (Some []) (Opened [(900%Q, 1400%Q)] true);
   V1.Click 0 (Sample.at_Q 50 100) Sample.origin_Q (Some "Hi");
   V1.DrawModeBtn;
   V1.MouseDown 0 (Sample.at_Q 10 10) Sample.origin_Q;
   V1.MouseMove 0 (Sample.at_Q 20 30) Sample.origin_Q;
   V1.MouseUp;
   V1.UndoBtn].

(** Two pages are loaded; a text is typed on the first page while the
    second is still rendering; then a stroke is drawn on the second page. *)
Definition a1 : list (Async.event (@V1.event Q)) :=
  [Async.Do (V1.FileChosen (Some []) (Opened [(900%Q, 1400%Q); (900%Q, 1400%Q)] true));
   Async.Resume 0;
   Async.Do (V1.Click 0 (Sample.at_Q 50 100) Sample.origin_Q (Some "Hi"));
   Async.Resume 0;
   Async.Do V1.DrawModeBtn;
   Async.Do (V1.MouseDown 1 (Sample.at_Q 10 10) Sample.origin_Q);
   Async.Do (V1.MouseMove 1 (Sample.at_Q 20 30) Sample.origin_Q);
   Async.Do V1.MouseUp].

Definition a2 : list (Async.event (@V2Session.event Q)) :=
  [Async.Do (V2Session.FileChosen (Some [])
               (Opened [(900%Q, 1400%Q); (900%Q, 1400%Q)] true));
   Async.Resume 0;
   Async.Do (V2Session.Click 0 (Sample.at_Q 50 100) Sample.origin_Q (Some "Hi"));
   Async.Resume 0;
   Async.Do V2Session.DrawModeBtn;
   Async.Do (V2Session.MouseDown 1 (Sample.at_Q 10 10) Sample.origin_Q);
   Async.Do (V2Session.MouseMove 1 (Sample.at_Q 20 30) Sample.origin_Q);
   Async.Do V2Session.MouseUp].

Definition a3 : list (Async.event (@V3Session.event Q)) :=
  [Async.Do (V3Session.FileChosen (Some [])
               (Opened [(900%Q, 1400%Q); (900%Q, 1400%Q)] true));
   Async.Resume 0;
   Async.Do (V3Session.Click Sample.tools_Q 0 (Sample.at_Q 50 100)
               Sample.origin_Q (Some "Hi"));
   Async.Resume 0;
   Async.Do V3Session.EraserModeBtn;
   Async.Do (V3Session.MouseDown Sample.tools_Q 1 (Sample.at_Q 10 10)
               Sample.origin_Q);
   Async.Do (V3Session.MouseMove 1 (Sample.at_Q 20 30) Sample.origin_Q);
   Async.Do V3Session.MouseUp].

(** A load begins while another is rendering: the second page of the first
    document arrives after the viewer was emptied for the second document,
    which has one page, and its overlay is clicked. *)
Definition overlapping : list (Async.event (@V1.event Q)) :=
  [Async.Do (V1.FileChosen (Some []) (Opened [(900%Q, 1400%Q); (900%Q, 1400%Q)] true));
   Async.Resume 0;
   Async.Do (V1.FileChosen (Some [Byte.x01]) (Opened [(900%Q, 1400%Q)] true));
   Async.Resume 0;
   Async.Do (V1.Click 0 (Sample.at_Q 50 100) Sample.origin_Q (Some "Hi"));
   Async.Resume 0].

(** A dropped file with no type and an upper-case extension. *)
Definition report : Files.file := Files.File "" "REPORT.PDF" (Some []).

End Trace.

(** * Properties *)

(** ** Arrays *)

Section ArrayFacts.
Context {A : Type}.
Implicit Types (arr : list A) (x : A).

Lemma js_pop_snoc arr x : js_pop (arr ++ [x]) = Some (x, arr).
Proof. unfold js_pop. by rewrite reverse_snoc, reverse_involutive. Qed.

Lemma js_pop_Some arr x rest : js_pop arr = Some (x, rest) → arr = rest ++ [x].
Proof.
  destruct arr as [|y arr _] using rev_ind; [done|].
  rewrite js_pop_snoc. by intros [= -> ->].
Qed.

Lemma reverse_head_snoc arr x :
  reverse arr !! 0 = Some x → ∃ older, arr = older ++ [x].
Proof.
  destruct arr as [|y arr _] using rev_ind; [done|].
  rewrite reverse_snoc. intros [= ->]. by eexists.
Qed.

Lemma push_bounded_snoc arr x : Engine.push_bounded arr x = Engine.kept arr ++ [x].
Proof.
  unfold Engine.push_bounded, Engine.kept, js_push, js_shift.
  rewrite length_app, Nat.add_1_r.
  change (50 <? S (length arr)) with (50 <=? length arr).
  destruct (Nat.leb_spec 50 (length arr)) as [Hfull|]; [|done].
  destruct arr; simpl in *; [lia|done].
Qed.

Lemma kept_drop arr :
  length arr ≤ 50 → Engine.kept arr = drop (S (length arr) - 50) arr.
Proof.
  intros Hle. unfold Engine.kept, js_shift.
  destruct (Nat.leb_spec 50 (length arr)).
  - replace (S (length arr) - 50) with 1 by lia. by destruct arr.
  - by replace (S (length arr) - 50) with 0 by lia.
Qed.

(** With at most 50 entries before, the array after a push is the last 50 of
    what was there followed by the new entry. *)
Lemma push_bounded_drop arr x :
  length arr ≤ 50 →
  Engine.push_bounded arr x = drop (length (arr ++ [x]) - 50) (arr ++ [x]).
Proof.
  intros Hle. rewrite push_bounded_snoc, length_app, kept_drop by done.
  simpl. rewrite Nat.add_1_r.
  by rewrite drop_app_le by lia.
Qed.

Lemma push_bounded_length arr x :
  length arr ≤ 50 → length (Engine.push_bounded arr x) = Nat.min 50 (S (length arr)).
Proof.
  intros Hle. rewrite push_bounded_drop, length_drop, length_app by done.
  change (length [x]) with 1. lia.
Qed.

Lemma foldl_push_bounded_drop arr xs :
  length arr ≤ 50 →
  foldl Engine.push_bounded arr xs = drop (length (arr ++ xs) - 50) (arr ++ xs).
Proof.
  revert arr. induction xs as [|x xs IH]; intros arr Hle; simpl.
  - rewrite app_nil_r. by replace (length arr - 50) with 0 by lia.
  - rewrite IH by (rewrite push_bounded_length by done; lia).
    rewrite push_bounded_drop by done.
    set (k := length (arr ++ [x]) - 50).
    assert (k ≤ length (arr ++ [x])) as Hk by (unfold k; lia).
    rewrite <- drop_app_le by done.
    rewrite drop_drop, <- app_assoc. simpl. f_equal.
    rewrite length_drop, !length_app.
    unfold k in *. rewrite length_app in *.
    change (length [x]) with 1 in *. change (length (x :: xs)) with (S (length xs)).
    lia.
Qed.

End ArrayFacts.

(** ** The heap, snapshots and undo *)

Section EngineFacts.
Context {num : Type}.
Variable paint : annotation num → canvas_op num.
Implicit Types (st : state num) (h : list (annotation num)) (arr : list nat).

Lemma deref_prefix h h' l :
  h `prefix_of` h' → l < length h → Engine.deref h' l = Engine.deref h l.
Proof.
  intros [k ->] Hl. unfold Engine.deref. by rewrite lookup_app_l.
Qed.

Lemma view_prefix h h' arr :
  h `prefix_of` h' → Forall (λ l, l < length h) arr →
  Engine.deref h' <$> arr = Engine.deref h <$> arr.
Proof.
  intros Hpre Harr. induction Harr as [|l arr Hl _ IH]; [done|].
  simpl. f_equal; [by apply deref_prefix | done].
Qed.

(** The copy made by [structuredClone] reads as the array it copies, in the
    heap it returns and in every heap that extends it. *)
Lemma structuredClone_view h arr h' :
  (Engine.structuredClone h arr).1 `prefix_of` h' →
  Engine.deref h' <$> (Engine.structuredClone h arr).2 = Engine.deref h <$> arr.
Proof.
  simpl. intros [k ->].
  apply list_eq. intros i.
  rewrite !list_lookup_fmap.
  destruct (decide (i < length arr)) as [Hi|Hi].
  - rewrite lookup_seq_lt by done.
    destruct (lookup_lt_is_Some_2 arr i Hi) as [l Hl]. rewrite Hl. simpl.
    f_equal. unfold Engine.deref at 1.
    rewrite <- app_assoc, lookup_app_r by lia.
    replace (length h + i - length h) with i by lia.
    rewrite lookup_app_l by (rewrite length_fmap; lia).
    by rewrite list_lookup_fmap, Hl.
  - rewrite lookup_seq_ge by lia.
    by rewrite lookup_ge_None_2 by lia.
Qed.

Lemma structuredClone_fresh h arr :
  Forall (λ l, l < length (Engine.structuredClone h arr).1)
         (Engine.structuredClone h arr).2.
Proof.
  simpl. apply Forall_forall. intros l Hl%elem_of_seq.
  rewrite length_app, length_fmap. lia.
Qed.

Lemma pushHistory_history st :
  history (Engine.pushHistory st)
  = Engine.push_bounded (history st)
      (Engine.structuredClone (heap st) (annotations st)).2.
Proof. reflexivity. Qed.

Lemma pushHistory_heap st :
  heap (Engine.pushHistory st)
  = (Engine.structuredClone (heap st) (annotations st)).1.
Proof. reflexivity. Qed.

Lemma pushHistory_annotations st :
  annotations (Engine.pushHistory st) = annotations st.
Proof. reflexivity. Qed.

Lemma pushHistory_heap_prefix st : heap st `prefix_of` heap (Engine.pushHistory st).
Proof. rewrite pushHistory_heap. simpl. by eexists. Qed.

(** [redraw] touches nothing but the overlays. *)
Lemma redraw_view st : Engine.view (Engine.redraw paint st) = Engine.view st.
Proof. reflexivity. Qed.

(** Undo with nothing to undo: the function returns at once. *)
Lemma undo_empty st : history st = [] → Engine.undo paint st = st.
Proof. intros Hh. unfold Engine.undo. by rewrite Hh. Qed.

Lemma undo_snoc_view st older top :
  history st = older ++ [top] →
  Engine.view (Engine.undo paint st) = Engine.deref (heap st) <$> top.
Proof.
  intros Hh. unfold Engine.undo. by rewrite Hh, js_pop_snoc.
Qed.

Lemma undo_snoc_history st older top :
  history st = older ++ [top] → history (Engine.undo paint st) = older.
Proof.
  intros Hh. unfold Engine.undo. by rewrite Hh, js_pop_snoc.
Qed.

(** The frame of an edit: whatever happens between [pushHistory] and [undo],
    as long as it leaves the history alone and only adds objects to the heap
    or changes objects added after the snapshot, undo restores the sequence
    the snapshot was taken of. *)
Lemma undo_restores st st' :
  history st' = history (Engine.pushHistory st) →
  heap (Engine.pushHistory st) `prefix_of` heap st' →
  Engine.view (Engine.undo paint st') = Engine.view st.
Proof.
  intros Hh Hpre.
  rewrite pushHistory_history, push_bounded_snoc in Hh.
  rewrite (undo_snoc_view _ _ _ Hh).
  rewrite pushHistory_heap in Hpre.
  by apply structuredClone_view.
Qed.

Lemma undo_restores_history st st' :
  history st' = history (Engine.pushHistory st) →
  history (Engine.undo paint st') = Engine.kept (history st).
Proof.
  intros Hh. rewrite pushHistory_history, push_bounded_snoc in Hh.
  by rewrite (undo_snoc_history _ _ _ Hh).
Qed.

End EngineFacts.

Section WfFacts.
Context {num : Type}.
Variable paint : annotation num → canvas_op num.
Implicit Types (st : state num) (h : list (annotation num)).

Lemma refs_valid_mono (n m : nat) (arr : list nat) :
  n ≤ m → Forall (λ l, l < n) arr → Forall (λ l, l < m) arr.
Proof.
  intros Hnm Hall. eapply Forall_impl; [done|]. intros l Hl. simpl in *. lia.
Qed.

Lemma entries_valid_mono (n m : nat) (hist : list (list nat)) :
  n ≤ m → Forall (Forall (λ l, l < n)) hist → Forall (Forall (λ l, l < m)) hist.
Proof.
  intros Hnm Hall. eapply Forall_impl; [done|]. intros arr. by apply refs_valid_mono.
Qed.

Lemma kept_valid (P : list nat → Prop) (hist : list (list nat)) :
  Forall P hist → Forall P (Engine.kept hist).
Proof.
  intros Hall. unfold Engine.kept, js_shift. case_match; [|done].
  destruct hist; [done|]. by apply Forall_cons_1 in Hall as [_ ?].
Qed.

Lemma wf_pushHistory st : Engine.wf st → Engine.wf (Engine.pushHistory st).
Proof.
  intros [Ha Hh]. split.
  - rewrite pushHistory_annotations, pushHistory_heap. simpl.
    eapply refs_valid_mono; [|done]. rewrite length_app. lia.
  - rewrite pushHistory_history, push_bounded_snoc. apply Forall_app. split.
    + apply kept_valid. eapply entries_valid_mono; [|done].
      rewrite pushHistory_heap. simpl. rewrite length_app. lia.
    + apply Forall_singleton. rewrite pushHistory_heap.
      apply structuredClone_fresh.
Qed.

Lemma wf_annotations_push st obj :
  Engine.wf st → Engine.wf (Engine.annotations_push obj st).
Proof.
  intros [Ha Hh]. split; simpl; rewrite length_app; simpl.
  - apply Forall_app. split.
    + eapply refs_valid_mono; [|done]. lia.
    + apply Forall_singleton. lia.
  - eapply entries_valid_mono; [|done]. lia.
Qed.

Lemma wf_points_push st l pt :
  Engine.wf st → Engine.wf (Engine.points_push l pt st).
Proof.
  intros Hwf. unfold Engine.points_push.
  destruct (heap st !! l) as [[|j pts w c]|]; [done| |done].
  destruct Hwf as [Ha Hh]. split; simpl; by rewrite length_insert.
Qed.

Lemma wf_redraw st : Engine.wf st → Engine.wf (Engine.redraw paint st).
Proof. done. Qed.

Lemma wf_undo st : Engine.wf st → Engine.wf (Engine.undo paint st).
Proof.
  intros Hwf. pose proof Hwf as [Ha Hh]. unfold Engine.undo.
  destruct (history st) as [|top older _] using rev_ind; [done|].
  rewrite js_pop_snoc. apply Forall_app in Hh as [Holder Htop].
  apply Forall_inv in Htop. split; simpl; done.
Qed.

(** Taking the snapshot does not change what the store reads as. *)
Lemma pushHistory_view st :
  Engine.wf st → Engine.view (Engine.pushHistory st) = Engine.view st.
Proof.
  intros [Ha _]. unfold Engine.view.
  rewrite pushHistory_annotations.
  apply view_prefix; [apply pushHistory_heap_prefix | done].
Qed.

(** A pushed object is the last of the store. *)
Lemma annotations_push_view st obj :
  Engine.wf st → Engine.view (Engine.annotations_push obj st) = Engine.view st ++ [obj].
Proof.
  intros [Ha _]. unfold Engine.view, Engine.annotations_push, js_push. simpl.
  rewrite fmap_app. f_equal.
  - apply view_prefix; [by apply prefix_app_r | done].
  - simpl. unfold Engine.deref. by rewrite list_lookup_middle.
Qed.

End WfFacts.

Section FrameFacts.
Context {num : Type}.
Variable paint : annotation num → canvas_op num.
Implicit Types (st base : state num).

Lemma framed_annotations_push base i st obj :
  Engine.framed base i st → Engine.framed base i (Engine.annotations_push obj st).
Proof.
  intros (Hh & Hpre & Hw). split_and!; [done| |done].
  simpl. by apply prefix_app_r.
Qed.

Lemma framed_points_push base i st l pt :
  Engine.framed base i st → length (heap base) ≤ l →
  Engine.framed base i (Engine.points_push l pt st).
Proof.
  intros Hf Hl. pose proof Hf as (Hh & [k Hk] & Hw). unfold Engine.points_push.
  destruct (heap st !! l) as [[|j pts w c]|] eqn:Hlook; [done| |done].
  split_and!; [done| |done].
  simpl. rewrite Hk, insert_app_r_alt by done. by eexists.
Qed.

Lemma framed_redraw base i st :
  Engine.framed base i st → Engine.framed base i (Engine.redraw paint st).
Proof. done. Qed.

End FrameFacts.

(** ** Repainting the overlays *)

Section RedrawFacts.
Context {num : Type}.
Variable paint : annotation num → canvas_op num.
Implicit Types (st : state num) (pgs : list (page_view num)).

Lemma redraw_step_lookup pgs a i :
  Engine.redraw_step paint pgs a !! i
  = (λ p, if decide (pageIndex a = i)
          then PageView (anno_width p) (anno_height p) (annoCtx p ++ [paint a])
          else p) <$> pgs !! i.
Proof.
  unfold Engine.redraw_step.
  destruct (pgs !! pageIndex a) as [p|] eqn:Hp.
  - destruct (decide (pageIndex a = i)) as [<-|Hne].
    + rewrite list_lookup_insert_eq by by eapply lookup_lt_Some.
      by rewrite Hp.
    + rewrite list_lookup_insert_ne by done. by destruct (pgs !! i).
  - destruct (decide (pageIndex a = i)) as [<-|Hne].
    + by rewrite Hp.
    + by destruct (pgs !! i).
Qed.

(** After the loop of [redraw], every overlay shows what it showed before
    followed by the paintings of its own annotations, in the order of the
    array. *)
Lemma foldl_redraw_step_lookup pgs anns i :
  foldl (Engine.redraw_step paint) pgs anns !! i
  = (λ p, PageView (anno_width p) (anno_height p)
            (annoCtx p ++ (paint <$> filter (λ a, pageIndex a = i) anns)))
    <$> pgs !! i.
Proof.
  revert pgs. induction anns as [|a anns IH]; intros pgs.
  - simpl. destruct (pgs !! i) as [[w h ops]|]; [|done].
    simpl. by rewrite app_nil_r.
  - simpl. rewrite IH, redraw_step_lookup, filter_cons.
    destruct (pgs !! i) as [p|]; [|done]. simpl.
    destruct (decide (pageIndex a = i)); [|done].
    simpl. by rewrite <- app_assoc.
Qed.

Lemma redraw_pages st :
  pages (Engine.redraw paint st)
  = imap (λ i p, PageView (anno_width p) (anno_height p)
                   (paint <$> filter (λ a, pageIndex a = i) (Engine.view st)))
         (pages st).
Proof.
  apply list_eq. intros i. simpl.
  rewrite foldl_redraw_step_lookup, list_lookup_fmap, list_lookup_imap.
  by destruct (pages st !! i).
Qed.

Lemma clearRect_redraw_step pgs a :
  Engine.clearRect <$> Engine.redraw_step paint pgs a = Engine.clearRect <$> pgs.
Proof.
  unfold Engine.redraw_step. destruct (pgs !! pageIndex a) as [p|] eqn:Hp; [|done].
  rewrite list_fmap_insert. apply list_insert_id.
  by rewrite list_lookup_fmap, Hp.
Qed.

(** Repainting changes what the overlays show, not the overlays. *)
Lemma redraw_geometry st :
  Engine.clearRect <$> pages (Engine.redraw paint st) = Engine.clearRect <$> pages st.
Proof.
  simpl. generalize (Engine.view st). intros anns.
  assert (∀ pgs, Engine.clearRect <$> foldl (Engine.redraw_step paint) pgs anns
                 = Engine.clearRect <$> pgs) as Hfold.
  { induction anns as [|a anns IH]; intros pgs; [done|].
    simpl. by rewrite IH, clearRect_redraw_step. }
  rewrite Hfold, <- list_fmap_compose. by apply list_fmap_ext; intros ? [].
Qed.

Lemma redraw_ext st1 st2 :
  Engine.clearRect <$> pages st1 = Engine.clearRect <$> pages st2 →
  Engine.view st1 = Engine.view st2 →
  pages (Engine.redraw paint st1) = pages (Engine.redraw paint st2).
Proof. intros Hp Hv. simpl. by rewrite Hp, Hv. Qed.

Lemma undo_pages st top older :
  history st = older ++ [top] →
  pages (Engine.undo paint st)
  = pages (Engine.redraw paint (set_annotations top st)).
Proof. intros Hh. unfold Engine.undo. by rewrite Hh, js_pop_snoc. Qed.

End RedrawFacts.

(** ** First variant: edits and undo *)

Section V1Facts.
Context {num : Type} `{!Number num} `{!Font}.
Implicit Types (st base : state num) (e : mouse_event num) (rect : dom_rect num).

Lemma V1_click_continues st i e rect c s :
  mode st = TextMode →
  let st' := V1.click i e rect (Some (String c s)) st in
  history st' = history (Engine.pushHistory st) ∧
  heap (Engine.pushHistory st) `prefix_of` heap st'.
Proof.
  intros Hm. unfold V1.click. rewrite Hm. simpl.
  split; [done|]. by apply prefix_app_r.
Qed.

Lemma V1_mousedown_framed st i e rect :
  mode st = DrawMode →
  Engine.framed (Engine.pushHistory st) i (V1.mousedown i e rect st).
Proof.
  intros Hm. unfold V1.mousedown. rewrite Hm.
  apply framed_points_push; [|done].
  split_and!; [done|simpl; by apply prefix_app_r|].
  intros w l. cbn [wires set_wires Engine.annotations_push set_annotations set_heap].
  destruct (decide (i < length (wires (V1.pushHistory st)))) as [Hi|Hi].
  - rewrite list_lookup_insert_eq by done. intros [= <-] [= <-]. done.
  - rewrite list_insert_ge by lia. rewrite lookup_ge_None_2 by lia. done.
Qed.

Lemma V1_mousemove_framed base st i e rect :
  Engine.framed base i st → Engine.framed base i (V1.mousemove i e rect st).
Proof.
  intros Hf. unfold V1.mousemove.
  destruct (wires st !! i) as [[[] [l|]]|] eqn:Hw; try done.
  destruct (mode st); try done.
  apply framed_redraw, framed_points_push; [done|].
  destruct Hf as (_ & _ & Hl). by eapply Hl.
Qed.

Lemma V1_mousemoves_framed base st i moves :
  Engine.framed base i st →
  Engine.framed base i
    (V1.run st ((λ m, V1.MouseMove i m.1 m.2) <$> moves)).
Proof.
  revert st. induction moves as [|m moves IH]; intros st Hf; [done|].
  simpl. by apply IH, V1_mousemove_framed.
Qed.

Lemma V1_perform_continues st i g :
  ∃ m,
    history (V1.perform i g st) = history (Engine.pushHistory (set_mode m st)) ∧
    heap (Engine.pushHistory (set_mode m st)) `prefix_of` heap (V1.perform i g st).
Proof.
  destruct g as [e rect c s|e rect moves]; unfold V1.perform.
  - exists TextMode. by apply (V1_click_continues (set_mode TextMode st)).
  - exists DrawMode. unfold V1.gesture_events, V1.run. rewrite foldl_app.
    edestruct (V1_mousemoves_framed) as (Hh & Hpre & _); [|by split].
    simpl. by apply V1_mousedown_framed.
Qed.

Lemma V1_undo_perform_view st i g :
  Engine.view (V1.undo (V1.perform i g st)) = Engine.view st ∧
  Engine.view (V1.undo (V1.mouseup (V1.perform i g st))) = Engine.view st.
Proof.
  destruct (V1_perform_continues st i g) as (m & Hh & Hpre).
  split; unfold V1.undo.
  - by rewrite (undo_restores V1.paint (set_mode m st)).
  - by rewrite (undo_restores V1.paint (set_mode m st)).
Qed.

(** C1: for every state of the store and every edit (a text typed at a
    click, or a stroke begun and extended by any number of points), undo
    right after the edit leaves the annotation sequence equal, value for
    value, to the sequence before the edit; the points pushed to the live
    stroke after the snapshot are not in it.  The same holds when the mouse
    button is released before undo. *)
Theorem undo_inverts_edit (st : state num) (i : nat) (g : V1.gesture) :
  Engine.view (V1.undo (V1.perform i g st)) = Engine.view st ∧
  Engine.view (V1.undo (V1.mouseup (V1.perform i g st))) = Engine.view st.
Proof.
  destruct (V1_perform_continues st i g) as (m & Hh & Hpre).
  assert (Engine.view (set_mode m st) = Engine.view st) as <- by done.
  split; unfold V1.undo.
  - apply undo_restores; [exact Hh | exact Hpre].
  - apply undo_restores; [exact Hh | exact Hpre].
Qed.

(** *** What an edit leaves in the store *)

Lemma points_push_last (st : state num) hb i pts w c pt :
  heap st = hb ++ [Stroke i pts w c] →
  heap (Engine.points_push (length hb) pt st) = hb ++ [Stroke i (pts ++ [pt]) w c].
Proof.
  intros Hheap. unfold Engine.points_push.
  rewrite Hheap, list_lookup_middle by done. simpl.
  rewrite insert_app_r_alt, Nat.sub_diag by done. done.
Qed.

Lemma V1_mousedown_live st i e rect :
  mode st = DrawMode → i < length (wires st) →
  let hb := heap (Engine.pushHistory st) in
  let st' := V1.mousedown i e rect st in
  mode st' = DrawMode ∧
  heap st' = hb ++ [Stroke i [V1.local e rect] (Some num_2) None] ∧
  annotations st' = annotations st ++ [length hb] ∧
  wires st' !! i = Some (WireVars true (Some (length hb))).
Proof.
  intros Hm Hi. unfold V1.mousedown. rewrite Hm.
  set (b := V1.pushHistory st).
  set (s1 := Engine.annotations_push (Stroke i [] (Some num_2) None) b).
  set (s2 := set_wires (<[i:=WireVars true (Some (length (heap b)))]> (wires s1)) s1).
  assert (heap s2 = heap b ++ [Stroke i [] (Some num_2) None]) as Hheap by done.
  pose proof (points_push_last s2 _ _ _ _ _ (V1.local e rect) Hheap) as Hpush.
  unfold Engine.points_push in *.
  rewrite Hheap, list_lookup_middle in * by done.
  split_and!; [done|exact Hpush|done|].
  simpl. by rewrite list_lookup_insert_eq.
Qed.

Lemma V1_mousemove_live st i e rect hb pts :
  mode st = DrawMode →
  heap st = hb ++ [Stroke i pts (Some num_2) None] →
  wires st !! i = Some (WireVars true (Some (length hb))) →
  let st' := V1.mousemove i e rect st in
  mode st' = DrawMode ∧
  heap st' = hb ++ [Stroke i (pts ++ [V1.local e rect]) (Some num_2) None] ∧
  annotations st' = annotations st ∧
  wires st' !! i = Some (WireVars true (Some (length hb))).
Proof.
  intros Hm Hheap Hw. unfold V1.mousemove. rewrite Hw, Hm.
  pose proof (points_push_last st _ _ _ _ _ (V1.local e rect) Hheap) as Hpush.
  unfold Engine.points_push in *.
  rewrite Hheap, list_lookup_middle in * by done.
  by split_and!.
Qed.

Lemma V1_mousemoves_live st i moves hb pts :
  mode st = DrawMode →
  heap st = hb ++ [Stroke i pts (Some num_2) None] →
  wires st !! i = Some (WireVars true (Some (length hb))) →
  let st' := V1.run st ((λ m, V1.MouseMove i m.1 m.2) <$> moves) in
  heap st' = hb ++ [Stroke i (pts ++ ((λ m, V1.local m.1 m.2) <$> moves))
                           (Some num_2) None] ∧
  annotations st' = annotations st.
Proof.
  revert st pts. induction moves as [|m moves IH]; intros st pts Hm Hheap Hw.
  - simpl. by rewrite app_nil_r.
  - destruct (V1_mousemove_live st i m.1 m.2 hb pts Hm Hheap Hw)
      as (Hm' & Hheap' & Ha' & Hw').
    destruct (IH _ _ Hm' Hheap' Hw') as [Hheap'' Ha''].
    rewrite fmap_cons.
    change (V1.run st (V1.MouseMove i m.1 m.2 :: ?evs))
      with (V1.run (V1.mousemove i m.1 m.2 st) evs).
    cbv zeta. rewrite Hheap'', Ha'', Ha', fmap_cons. by rewrite <- app_assoc.
Qed.

(** An edit adds one object at the end of the store and leaves the rest as
    it reads. *)
Lemma V1_perform_view st i g :
  Engine.wf st → i < length (wires st) →
  Engine.view (V1.perform i g st) = Engine.view st ++ [V1.gesture_result i g].
Proof.
  intros Hwf Hi. destruct g as [e rect c s|e rect moves]; unfold V1.perform.
  - cbn [V1.gesture_events V1.run foldl V1.handle].
    unfold V1.click. cbn [mode set_mode]. unfold V1.redraw, V1.pushHistory.
    rewrite redraw_view, annotations_push_view by by apply wf_pushHistory.
    by rewrite pushHistory_view.
  - unfold V1.gesture_events, V1.run. rewrite foldl_app. simpl.
    destruct (V1_mousedown_live (set_mode DrawMode st) i e rect)
      as (Hm & Hheap & Ha & Hw); [done..|].
    destruct (V1_mousemoves_live _ i moves _ _ Hm Hheap Hw) as [Hheap' Ha'].
    unfold Engine.view. unfold V1.run in *. rewrite Hheap', Ha', Ha.
    rewrite fmap_app. f_equal.
    + destruct Hwf as [Hvalid _].
      etrans; [apply (view_prefix (heap st))|done]; [|done].
      etrans; [apply (pushHistory_heap_prefix (set_mode DrawMode st))|].
      by apply prefix_app_r.
    + simpl. unfold Engine.deref. by rewrite list_lookup_middle.
Qed.

Lemma V1_perform_wires st i g :
  length (wires (V1.perform i g st)) = length (wires st).
Proof.
  destruct g as [e rect c s|e rect moves]; unfold V1.perform.
  - done.
  - unfold V1.gesture_events, V1.run. rewrite foldl_app.
    assert (∀ s, length (wires (foldl V1.handle s
              ((λ m, V1.MouseMove i m.1 m.2) <$> moves))) = length (wires s)) as Hmoves.
    { induction moves as [|m moves IH]; intros s; [done|].
      simpl. rewrite IH. unfold V1.mousemove.
      destruct (wires s !! i) as [[[] [l|]]|], (mode s); try done.
      unfold Engine.points_push. simpl. by case_match; [case_match|]. }
    rewrite Hmoves. simpl. unfold V1.mousedown. simpl.
    unfold Engine.points_push. simpl.
    case_match; [case_match|]; simpl; by rewrite length_insert.
Qed.

(** *** Reachable states *)

Lemma V1_renderPdf_wf r st : Engine.wf st → Engine.wf (V1.renderPdf r st).
Proof.
  intros Hwf. unfold V1.renderPdf. destruct r as [|viewports []]; done.
Qed.

Lemma V1_handle_wf st ev : Engine.wf st → Engine.wf (V1.handle st ev).
Proof.
  intros Hwf. destruct ev as [| | |bytes r|file r|i e rect answer|i e rect|i e rect|];
    simpl; try done.
  - by apply wf_undo.
  - apply V1_renderPdf_wf. split; simpl; constructor.
  - destruct file; [|done]. apply V1_renderPdf_wf. split; simpl; constructor.
  - unfold V1.click. destruct (mode st), answer as [[|c s]|]; try done.
    by apply wf_redraw, wf_annotations_push, wf_pushHistory.
  - unfold V1.mousedown. destruct (mode st); try done.
    apply wf_points_push.
    by apply (wf_annotations_push (V1.pushHistory st)), wf_pushHistory.
  - unfold V1.mousemove.
    destruct (wires st !! i) as [[[] [l|]]|], (mode st); try done.
    by apply wf_redraw, wf_points_push.
Qed.

Lemma V1_run_wf st evs : Engine.wf st → Engine.wf (V1.run st evs).
Proof.
  revert st. induction evs as [|ev evs IH]; intros st Hwf; [done|].
  simpl. by apply IH, V1_handle_wf.
Qed.

Lemma V1_initial_wf : Engine.wf (@V1.initial num).
Proof. split; constructor. Qed.

Lemma V1_renderPdf_history r st : history (V1.renderPdf r st) = history st.
Proof. unfold V1.renderPdf. by destruct r as [|viewports []]. Qed.

(** The history never holds more than 50 entries, whatever the user does. *)
Lemma V1_handle_history_bound st ev :
  length (history st) ≤ 50 → length (history (V1.handle st ev)) ≤ 50.
Proof.
  intros Hle.
  assert (length (history (V1.pushHistory st)) ≤ 50) as Hpush.
  { unfold V1.pushHistory. rewrite pushHistory_history, push_bounded_length by done. lia. }
  destruct ev as [| | |bytes r|file r|i e rect answer|i e rect|i e rect|];
    simpl; try done.
  - unfold V1.undo, Engine.undo.
    destruct (js_pop (history st)) as [[top older]|] eqn:Hpop; [|done].
    apply js_pop_Some in Hpop. rewrite Hpop, length_app in Hle. simpl. lia.
  - unfold V1.createNewPdf. rewrite V1_renderPdf_history. simpl. lia.
  - destruct file; [|done]. simpl. rewrite V1_renderPdf_history. simpl. lia.
  - unfold V1.click. destruct (mode st), answer as [[|c s]|]; done.
  - unfold V1.mousedown. destruct (mode st); try done.
    unfold Engine.points_push. by case_match; [case_match|].
  - unfold V1.mousemove.
    destruct (wires st !! i) as [[[] [l|]]|], (mode st); try done.
    unfold Engine.points_push. simpl. by case_match; [case_match|].
Qed.

Lemma V1_run_history_bound st evs :
  length (history st) ≤ 50 → length (history (V1.run st evs)) ≤ 50.
Proof.
  revert st. induction evs as [|ev evs IH]; intros st Hle; [done|].
  simpl. by apply IH, V1_handle_history_bound.
Qed.

(** *** Edits, undo and the overlays *)

Lemma V1_perform_geometry st i g :
  Engine.clearRect <$> pages (V1.perform i g st) = Engine.clearRect <$> pages st.
Proof.
  destruct g as [e rect c s|e rect moves]; unfold V1.perform.
  - cbn [V1.gesture_events V1.run foldl V1.handle].
    unfold V1.click. cbn [mode set_mode]. unfold V1.redraw.
    by rewrite redraw_geometry.
  - unfold V1.gesture_events, V1.run. rewrite foldl_app.
    assert (∀ s, Engine.clearRect <$> pages (foldl V1.handle s
              ((λ m, V1.MouseMove i m.1 m.2) <$> moves))
            = Engine.clearRect <$> pages s) as Hmoves.
    { induction moves as [|m moves IH]; intros s; [done|].
      simpl. rewrite IH. unfold V1.mousemove.
      destruct (wires s !! i) as [[[] [l|]]|], (mode s); try done.
      unfold V1.redraw. rewrite redraw_geometry.
      unfold Engine.points_push. by case_match; [case_match|]. }
    rewrite Hmoves. simpl. unfold V1.mousedown. simpl.
    unfold Engine.points_push. simpl. by case_match; [case_match|].
Qed.

Lemma V1_undo_edit_pages st i g :
  pages (V1.undo (V1.mouseup (V1.perform i g st))) = pages (V1.redraw st).
Proof.
  destruct (V1_perform_continues st i g) as (m & Hh & Hpre).
  rewrite pushHistory_history, push_bounded_snoc in Hh.
  set (s' := V1.mouseup (V1.perform i g st)).
  assert (history s' = Engine.kept (history st)
            ++ [(Engine.structuredClone (heap st) (annotations st)).2]) as Hh' by done.
  unfold V1.undo. rewrite (undo_pages _ _ _ _ Hh').
  apply redraw_ext.
  - simpl. apply V1_perform_geometry.
  - unfold Engine.view at 1. simpl. by apply structuredClone_view.
Qed.

Lemma V1_edit_all_snoc st edits ig :
  V1.edit_all st (edits ++ [ig])
  = V1.mouseup (V1.perform ig.1 ig.2 (V1.edit_all st edits)).
Proof. unfold V1.edit_all. by rewrite foldl_app. Qed.

Lemma V1_edit_all_wf st edits : Engine.wf st → Engine.wf (V1.edit_all st edits).
Proof.
  revert st. induction edits as [|ig edits IH]; intros st Hwf; [done|].
  simpl. apply IH. by apply (V1_run_wf st).
Qed.

Lemma V1_edit_all_wires st edits :
  length (wires (V1.edit_all st edits)) = length (wires st).
Proof.
  revert st. induction edits as [|ig edits IH]; intros st; [done|].
  simpl. rewrite IH. simpl. by rewrite length_fmap, V1_perform_wires.
Qed.

(** A series of edits adds its objects to the end of the store, in the order
    the edits were made. *)
Lemma V1_edit_all_view st edits :
  Engine.wf st → Forall (λ ig, ig.1 < length (wires st)) edits →
  Engine.view (V1.edit_all st edits)
  = Engine.view st ++ ((λ ig, V1.gesture_result ig.1 ig.2) <$> edits).
Proof.
  intros Hwf. induction edits as [|ig edits IH] using rev_ind; intros Hall.
  - simpl. by rewrite app_nil_r.
  - apply Forall_app in Hall as [Hall Hi%Forall_inv].
    rewrite V1_edit_all_snoc, fmap_app, app_assoc, <- IH by done.
    change (Engine.view (V1.mouseup ?s)) with (Engine.view s).
    apply V1_perform_view; [by apply V1_edit_all_wf|].
    by rewrite V1_edit_all_wires.
Qed.

(** *** What the overlays show *)

Lemma num_or_same (n : num) : num_or (Some n) n = n.
Proof. unfold num_or. by destruct (falsy n). Qed.

Lemma trace_cons (p : point num) (pts : list (point num)) :
  trace (p :: pts)
  = MoveTo (pt_x p) (pt_y p) :: ((λ q, LineTo (pt_x q) (pt_y q)) <$> pts).
Proof.
  unfold trace. cbn [imap]. f_equal.
  apply list_eq. intros k. rewrite list_lookup_imap, list_lookup_fmap.
  by destruct (pts !! k).
Qed.

Lemma V1_paint_gesture i g : V1.paint (V1.gesture_result i g) = V1.shown g.
Proof.
  destruct g as [e rect c s|e rect moves];
    unfold V1.gesture_result, V1.paint, V1.shown; rewrite num_or_same.
  - done.
  - f_equal. rewrite trace_cons. f_equal. by rewrite <- list_fmap_compose.
Qed.

Lemma V1_overlay_of_edits (edits : list (nat * V1.gesture)) (i : nat) :
  V1.overlay_of ((λ ig, V1.gesture_result ig.1 ig.2) <$> edits) i
  = (λ ig, V1.shown ig.2) <$> filter (λ ig, ig.1 = i) edits.
Proof.
  unfold V1.overlay_of. induction edits as [|[j g] edits IH]; [done|].
  rewrite fmap_cons, !filter_cons.
  assert (pageIndex (V1.gesture_result j g) = j) as Hj by by destruct g.
  simpl. rewrite Hj.
  destruct (decide (j = i)); [|done].
  by rewrite !fmap_cons, IH, V1_paint_gesture.
Qed.

Lemma imap_geometry (F : nat → list (canvas_op num))
    (ps ps' : list (page_view num)) :
  Engine.clearRect <$> ps = Engine.clearRect <$> ps' →
  imap (λ i p, PageView (anno_width p) (anno_height p) (F i)) ps
  = imap (λ i p, PageView (anno_width p) (anno_height p) (F i)) ps'.
Proof.
  intros Hsame. apply list_eq. intros i. rewrite !list_lookup_imap.
  assert ((Engine.clearRect <$> ps) !! i = (Engine.clearRect <$> ps') !! i)
    as Hi by by rewrite Hsame.
  rewrite !list_lookup_fmap in Hi.
  destruct (ps !! i) as [p|], (ps' !! i) as [p'|]; try done.
  simpl in *. injection Hi as Hw Hh. by rewrite Hw, Hh.
Qed.

Lemma V1_edit_all_geometry st edits :
  Engine.clearRect <$> pages (V1.edit_all st edits) = Engine.clearRect <$> pages st.
Proof.
  induction edits as [|ig edits IH] using rev_ind; [done|].
  rewrite V1_edit_all_snoc, <- IH.
  change (pages (V1.mouseup ?s)) with (pages s). apply V1_perform_geometry.
Qed.

(** C7: [redraw] leaves on every overlay the paintings of that page's
    annotations and nothing else, in the order of the store (what the
    overlay showed before is cleared).  The order of the store is the order
    in which the edits were made, whatever their kinds, so after a series of
    edits each overlay shows, after what the store held before, the edits
    made on its page, in the order they were made: each text in yellow at its
    click position, each stroke as a lime path through its pointer
    positions.  Undoing the last edit repaints the overlays with the earlier
    edits only, in their order. *)
Theorem redraw_keeps_append_order (st : state num)
    (edits : list (nat * V1.gesture)) (last : nat * V1.gesture) :
  Engine.wf st →
  Forall (λ ig, ig.1 < length (wires st)) edits →
  pages (V1.redraw st)
    = imap (λ i p, PageView (anno_width p) (anno_height p)
                     (V1.overlay_of (Engine.view st) i)) (pages st) ∧
  Engine.view (V1.edit_all st edits)
    = Engine.view st ++ ((λ ig, V1.gesture_result ig.1 ig.2) <$> edits) ∧
  pages (V1.redraw (V1.edit_all st edits))
    = imap (λ i p, PageView (anno_width p) (anno_height p)
                     (V1.overlay_of (Engine.view st) i
                      ++ ((λ ig, V1.shown ig.2) <$> filter (λ ig, ig.1 = i) edits)))
           (pages st) ∧
  Engine.view (V1.undo (V1.edit_all st (edits ++ [last])))
    = Engine.view (V1.edit_all st edits) ∧
  pages (V1.undo (V1.edit_all st (edits ++ [last])))
    = imap (λ i p, PageView (anno_width p) (anno_height p)
                     (V1.overlay_of (Engine.view st) i
                      ++ ((λ ig, V1.shown ig.2) <$> filter (λ ig, ig.1 = i) edits)))
           (pages st).
Proof.
  intros Hwf Hall.
  assert (pages (V1.redraw (V1.edit_all st edits))
          = imap (λ i p, PageView (anno_width p) (anno_height p)
                     (V1.overlay_of (Engine.view st) i
                      ++ ((λ ig, V1.shown ig.2) <$> filter (λ ig, ig.1 = i) edits)))
                 (pages st)) as Hshown.
  { unfold V1.redraw. rewrite redraw_pages, V1_edit_all_view by done.
    rewrite <- (imap_geometry _ _ _ (V1_edit_all_geometry st edits)).
    apply imap_ext. intros i p _. f_equal.
    rewrite <- V1_overlay_of_edits.
    unfold V1.overlay_of. by rewrite filter_app, fmap_app. }
  split_and!.
  - apply redraw_pages.
  - by apply V1_edit_all_view.
  - exact Hshown.
  - rewrite V1_edit_all_snoc. apply V1_undo_perform_view.
  - rewrite V1_edit_all_snoc, V1_undo_edit_pages. exact Hshown.
Qed.

(** *** The history as a bounded stack of snapshots *)

Lemma V1_edit_step st i g :
  let st' := V1.mouseup (V1.perform i g st) in
  ∃ c, history st' = Engine.push_bounded (history st) c ∧
       heap st `prefix_of` heap st' ∧
       ∀ h', heap st' `prefix_of` h' → Engine.deref h' <$> c = Engine.view st.
Proof.
  destruct (V1_perform_continues st i g) as (m & Hh & Hpre).
  exists (Engine.structuredClone (heap st) (annotations st)).2. split_and!.
  - done.
  - simpl. etrans; [|exact Hpre]. apply (pushHistory_heap_prefix (set_mode m st)).
  - intros h' Hh'. apply structuredClone_view. by etrans.
Qed.

(** After any series of edits the history is the bounded stack of the
    snapshots taken, one per edit, and in the final heap (and any heap that
    extends it) the [j]-th snapshot still reads as the store did after the
    first [j] edits. *)
Lemma V1_edit_all_history st edits :
  ∃ cs, length cs = length edits ∧
    history (V1.edit_all st edits) = foldl Engine.push_bounded (history st) cs ∧
    heap st `prefix_of` heap (V1.edit_all st edits) ∧
    ∀ h' j c, heap (V1.edit_all st edits) `prefix_of` h' → cs !! j = Some c →
      Engine.deref h' <$> c = Engine.view (V1.edit_all st (take j edits)).
Proof.
  induction edits as [|ig edits IH] using rev_ind.
  - exists []. by split_and!.
  - destruct IH as (cs & Hlen & Hh & Hpre & Hviews).
    destruct (V1_edit_step (V1.edit_all st edits) ig.1 ig.2) as (c & Hh' & Hpre' & Hc).
    rewrite <- V1_edit_all_snoc in *.
    exists (cs ++ [c]). split_and!.
    + rewrite !length_app. simpl. lia.
    + rewrite foldl_app. simpl. by rewrite <- Hh.
    + by etrans.
    + intros h' j c' Hh'' Hj.
      destruct (decide (j < length cs)) as [Hlt|Hge].
      * rewrite lookup_app_l in Hj by done.
        rewrite take_app_le by lia.
        apply Hviews; [by etrans | done].
      * rewrite lookup_app_r in Hj by lia.
        destruct (j - length cs) as [|?] eqn:Hj'; [|done].
        injection Hj as <-.
        assert (j = length edits) as -> by lia.
        rewrite take_app_length. by apply Hc.
Qed.

(** [k] presses of Undo pop the [k] most recent entries, one after the
    other; the store then reads as the last entry popped. *)
Lemma undo_times_spec (paint : annotation num → canvas_op num) st k c :
  reverse (history st) !! k = Some c →
  let st' := Engine.undo_times paint (S k) st in
  heap st' = heap st ∧
  history st' = take (length (history st) - S k) (history st) ∧
  annotations st' = c.
Proof.
  revert c. induction k as [|k IH]; intros c Hk.
  - apply reverse_head_snoc in Hk as [older Hst].
    simpl. unfold Engine.undo. rewrite Hst, js_pop_snoc. simpl.
    split_and!; [done| |done].
    rewrite length_app. simpl.
    replace (length older + 1 - 1) with (length older) by lia.
    by rewrite take_app_length.
  - assert (is_Some (reverse (history st) !! k)) as [c0 Hc0].
    { apply lookup_lt_is_Some. apply lookup_lt_Some in Hk. lia. }
    destruct (IH c0 Hc0) as (Hheap & Hhist & _).
    change (Engine.undo_times paint (S (S k)) st)
      with (Engine.undo paint (Engine.undo_times paint (S k) st)).
    set (s := Engine.undo_times paint (S k) st) in *.
    assert (S k < length (history st)) as Hlen.
    { apply lookup_lt_Some in Hk. by rewrite length_reverse in Hk. }
    assert (history st !! (length (history st) - S (S k)) = Some c) as Hc.
    { by rewrite reverse_lookup in Hk by done. }
    assert (history s = take (length (history st) - S (S k)) (history st) ++ [c]) as Hs.
    { rewrite Hhist. replace (length (history st) - S k)
        with (S (length (history st) - S (S k))) by lia.
      by apply take_S_r. }
    simpl. unfold Engine.undo. rewrite Hs, js_pop_snoc. simpl.
    by split_and!.
Qed.

Lemma undo_times_view (paint : annotation num → canvas_op num) st k c :
  reverse (history st) !! k = Some c →
  Engine.view (Engine.undo_times paint (S k) st) = Engine.deref (heap st) <$> c.
Proof.
  intros Hk. destruct (undo_times_spec paint st k c Hk) as (Hheap & _ & Ha).
  unfold Engine.view. by rewrite Hheap, Ha.
Qed.

Lemma V1_edit_all_last_fifty st edits :
  length (history st) ≤ 50 → 50 ≤ length edits →
  ∃ cs, length cs = length edits ∧
    history (V1.edit_all st edits) = drop (length edits - 50) cs ∧
    ∀ j c, cs !! j = Some c →
      Engine.deref (heap (V1.edit_all st edits)) <$> c
      = Engine.view (V1.edit_all st (take j edits)).
Proof.
  intros Hle Hn.
  destruct (V1_edit_all_history st edits) as (cs & Hlen & Hh & _ & Hviews).
  exists cs. split_and!; [done| |by intros j c; apply Hviews].
  rewrite Hh, foldl_push_bounded_drop by done.
  rewrite length_app, drop_app_ge by lia. f_equal. lia.
Qed.

(** C6: the history never holds more than 50 entries.  After more than 50
    edits it holds exactly 50; [k] presses of Undo, for [k] from 1 to 50,
    bring back the store as it was before the last [k] edits, so what can be
    retrieved are the 50 most recent snapshots and the older ones have been
    dropped from the bottom; after the 50th press the history is empty and a
    further press changes nothing.  In general undo on an empty history
    returns the state as it is. *)
Theorem history_capacity (st : state num) (edits : list (nat * V1.gesture)) (k : nat) :
  length (history st) ≤ 50 → 50 < length edits → 1 ≤ k ≤ 50 →
  length (history (V1.edit_all st edits)) = 50 ∧
  Engine.view (V1.undo_times k (V1.edit_all st edits))
    = Engine.view (V1.edit_all st (take (length edits - k) edits)) ∧
  history (V1.undo_times 50 (V1.edit_all st edits)) = [] ∧
  V1.undo (V1.undo_times 50 (V1.edit_all st edits))
    = V1.undo_times 50 (V1.edit_all st edits) ∧
  (∀ evs, length (history (V1.run st evs)) ≤ 50) ∧
  (∀ s : state num, history s = [] → V1.undo s = s).
Proof.
  intros Hle Hn Hk.
  destruct (V1_edit_all_last_fifty st edits) as (cs & Hlen & Hh & Hviews);
    [done|lia|].
  set (final := V1.edit_all st edits) in *.
  assert (length (history final) = 50) as Hfifty.
  { rewrite Hh, length_drop. lia. }
  assert (∀ k', k' < 50 →
            reverse (history final) !! k' = cs !! (length edits - S k')) as Hrev.
  { intros k' Hk'. rewrite reverse_lookup by lia.
    rewrite Hh at 2. rewrite lookup_drop. f_equal. lia. }
  assert (history (V1.undo_times 50 final) = []) as Hempty.
  { destruct (lookup_lt_is_Some_2 cs (length edits - 50)) as [c Hc]; [lia|].
    destruct (undo_times_spec V1.paint final 49 c) as (_ & Hhist & _).
    - by rewrite Hrev by lia.
    - unfold V1.undo_times. rewrite Hhist, Hfifty. done. }
  split_and!.
  - done.
  - destruct k as [|k']; [lia|].
    destruct (lookup_lt_is_Some_2 cs (length edits - S k')) as [c Hc]; [lia|].
    unfold V1.undo_times.
    rewrite (undo_times_view V1.paint final k' c) by (by rewrite Hrev by lia).
    by apply Hviews.
  - done.
  - by apply undo_empty.
  - intros evs. by apply V1_run_history_bound.
  - intros s Hs. by apply undo_empty.
Qed.

End V1Facts.

(** ** Export *)

Section SeqFacts.
Context {B : Type}.
Implicit Types (f g : nat → list B).

Lemma flat_map_seq_ext f g a n :
  (∀ i, a ≤ i < a + n → f i = g i) →
  flat_map f (seq a n) = flat_map g (seq a n).
Proof.
  revert a. induction n as [|n IH]; intros a Hfg; [done|].
  simpl. rewrite Hfg by lia. f_equal. apply IH. intros i Hi. apply Hfg. lia.
Qed.

Lemma flat_map_seq_S f a n :
  flat_map f (seq (S a) n) = flat_map (λ i, f (S i)) (seq a n).
Proof.
  revert a. induction n as [|n IH]; intros a; [done|].
  simpl. f_equal. apply IH.
Qed.

End SeqFacts.

Section ExportFacts.
Context {num : Type} `{!Number num} `{!Font}.
Implicit Types (page : pdf_page num) (canvas : page_view num)
  (doc : list (pdf_page num)) (pgs : list (page_view num)).

(** The loop [for (let i = 1; i < a.points.length; i++)] visits the
    consecutive pairs of points. *)
Lemma segments_zip {B} (line : point num → point num → B) (pts : list (point num)) :
  flat_map (λ i, match pts !! (i - 1), pts !! i with
                 | Some p1, Some p2 => [line p1 p2]
                 | _, _ => []
                 end) (seq 1 (length pts - 1))
  = zip_with line pts (tail pts).
Proof.
  induction pts as [|p ps IH]; [done|].
  destruct ps as [|q qs]; [done|].
  change (zip_with line (p :: q :: qs) (tail (p :: q :: qs)))
    with (line p q :: zip_with line (q :: qs) (tail (q :: qs))).
  rewrite <- IH.
  replace (length (q :: qs) - 1) with (length qs) by (simpl; lia).
  change (length (p :: q :: qs) - 1) with (S (length qs)).
  change (seq 1 (S (length qs))) with (1 :: seq 2 (length qs)).
  cbn [flat_map]. change ((p :: q :: qs) !! (1 - 1)) with (Some p).
  change ((p :: q :: qs) !! 1) with (Some q). cbn [app]. f_equal.
  rewrite flat_map_seq_S.
  apply flat_map_seq_ext. intros i Hi.
  destruct i as [|i]; [lia|]. simpl. by rewrite Nat.sub_0_r.
Qed.

Lemma V1_export_stroke page canvas i pts w c :
  V1.export_ops page canvas (Stroke i pts w c)
  = zip_with (λ p1 p2,
      DrawLine (pt_x p1 * (pg_width page / anno_width canvas))%js
               (pg_height page - pt_y p1 * (pg_height page / anno_height canvas))%js
               (pt_x p2 * (pg_width page / anno_width canvas))%js
               (pg_height page - pt_y p2 * (pg_height page / anno_height canvas))%js
               (num_or w num_2) (rgb 0 1 0))
      pts (tail pts).
Proof. unfold V1.export_ops. apply segments_zip. Qed.

Lemma V1_savePdf_loop_resolved lib pgs doc a rest page canvas :
  doc !! pageIndex a = Some page → pgs !! pageIndex a = Some canvas →
  drawable a = true →
  V1.savePdf_loop lib pgs doc (a :: rest)
  = V1.savePdf_loop lib pgs
      (<[pageIndex a := PdfPage (pg_width page) (pg_height page)
                          (pg_content page ++ V1.export_ops page canvas a)]> doc)
      rest.
Proof. intros Hd Hp Ha. simpl. unfold getPage. by rewrite Hd, Hp, Ha. Qed.

(** [drawText] raises on a text the font cannot encode: the export stops
    there, whatever follows. *)
Lemma V1_savePdf_loop_unencodable lib pgs doc a rest page canvas :
  doc !! pageIndex a = Some page → pgs !! pageIndex a = Some canvas →
  drawable a = false →
  V1.savePdf_loop lib pgs doc (a :: rest) = None.
Proof. intros Hd Hp Ha. simpl. unfold getPage. by rewrite Hd, Hp, Ha. Qed.

(** The guarded export passes over an annotation whose page the page list
    does not have, or whose page the document does not have when [getPage]
    answers [undefined] for it: what it writes for the others is what it
    writes without it. *)
Lemma V1_savePdf_loop_skips lib pgs doc anns1 a anns2 :
  lib = AnswersUndefined ∨ pageIndex a < length doc →
  length doc ≤ pageIndex a ∨ length pgs ≤ pageIndex a →
  V1.savePdf_loop lib pgs doc (anns1 ++ a :: anns2)
  = V1.savePdf_loop lib pgs doc (anns1 ++ anns2).
Proof.
  intros Hlib Hdangling. revert doc Hlib Hdangling.
  induction anns1 as [|b anns1 IH]; intros doc Hlib Hdangling; simpl.
  - unfold getPage. destruct (doc !! pageIndex a) as [page|] eqn:Hd.
    + apply lookup_lt_Some in Hd.
      destruct Hdangling as [?|Hp]; [lia|]. by rewrite (lookup_ge_None_2 pgs).
    + apply lookup_ge_None in Hd. destruct Hlib as [->|?]; [done|lia].
  - destruct (getPage lib doc (pageIndex b)); [|by apply IH|done].
    destruct (pgs !! pageIndex b); [|by apply IH].
    destruct (drawable b); [|done].
    apply IH; by rewrite length_insert.
Qed.

(** When [getPage] raises for a page the document does not have, the
    guard is never reached and the export stops there. *)
Lemma V1_savePdf_loop_raises pgs doc anns1 a anns2 :
  length doc ≤ pageIndex a →
  V1.savePdf_loop RaisesError pgs doc (anns1 ++ a :: anns2) = None.
Proof.
  revert doc. induction anns1 as [|b anns1 IH]; intros doc Hd; simpl.
  - unfold getPage. by rewrite lookup_ge_None_2.
  - destruct (getPage RaisesError doc (pageIndex b)); [|by apply IH|done].
    destruct (pgs !! pageIndex b); [|by apply IH].
    destruct (drawable b); [|done].
    apply IH; by rewrite length_insert.
Qed.

(** The same for [redraw], in every variant. *)
Lemma redraw_skips_dangling (paint : annotation num → canvas_op num)
    pgs anns1 a anns2 :
  length pgs ≤ pageIndex a →
  foldl (Engine.redraw_step paint) pgs (anns1 ++ a :: anns2)
  = foldl (Engine.redraw_step paint) pgs (anns1 ++ anns2).
Proof.
  intros Hdangling. rewrite !foldl_app. simpl. f_equal.
  unfold Engine.redraw_step at 1. rewrite lookup_ge_None_2; [done|].
  assert (∀ anns ps, length (foldl (Engine.redraw_step paint) ps anns) = length ps)
    as Hlen.
  { induction anns as [|b anns IH]; intros ps; [done|].
    simpl. rewrite IH. unfold Engine.redraw_step.
    case_match; [|done]. by rewrite length_insert. }
  by rewrite Hlen.
Qed.

(** The unguarded export of the second variant stops with an exception as
    soon as the store holds such an annotation. *)
Lemma V2_savePdf_loop_dangling lib pgs doc anns1 a anns2 :
  length doc ≤ pageIndex a ∨ length pgs ≤ pageIndex a →
  V2.savePdf_loop lib pgs doc (anns1 ++ a :: anns2) = None.
Proof.
  intros Hdangling. revert doc Hdangling.
  induction anns1 as [|b anns1 IH]; intros doc Hdangling; simpl.
  - unfold getPage. destruct Hdangling as [Hd|Hp].
    + rewrite (lookup_ge_None_2 doc) by done. by destruct lib.
    + rewrite (lookup_ge_None_2 pgs) by done.
      by destruct (doc !! pageIndex a), lib.
  - destruct (getPage lib doc (pageIndex b)), (pgs !! pageIndex b); try done.
    destruct (drawable b); [|done].
    apply IH. by rewrite length_insert.
Qed.

End ExportFacts.

(** ** Beginning a stroke, in the three variants *)

Section StrokeFacts.
Context {num : Type} `{!Number num} `{!Font}.
Implicit Types (st : state num) (e : mouse_event num) (rect : dom_rect num).

Lemma points_push_annotations st l pt :
  annotations (Engine.points_push l pt st) = annotations st.
Proof. unfold Engine.points_push. by repeat case_match. Qed.

Lemma last_view st hb obj :
  heap st = hb ++ [obj] → last (annotations st) = Some (length hb) →
  last (Engine.view st) = Some obj.
Proof.
  intros Hheap Hlast. unfold Engine.view.
  rewrite fmap_last, Hlast. simpl. f_equal.
  unfold Engine.deref. by rewrite Hheap, list_lookup_middle.
Qed.

(** First variant: when [mousedown] returns, the new stroke is the last
    annotation of the store and holds the point of the press. *)
Lemma V1_mousedown_one_point st i e rect :
  mode st = DrawMode →
  last (Engine.view (V1.mousedown i e rect st))
  = Some (Stroke i [V1.local e rect] (Some num_2) None).
Proof.
  intros Hm. unfold V1.mousedown. rewrite Hm.
  eapply (last_view _ (heap (V1.pushHistory st))).
  - by apply (points_push_last _ _ _ []).
  - rewrite points_push_annotations. apply last_snoc.
Qed.

(** Third variant: the same, with the width and colour of the toolbar; in
    eraser mode the colour stored is white. *)
Lemma V3_mousedown_one_point tb st i e rect :
  mode st ≠ TextMode →
  last (Engine.view (V3.mousedown tb i e rect st))
  = Some (Stroke i [V1.local e rect]
            (Some (V3.parsed_or (lineWidth tb) num_2))
            (Some (match mode st with
                   | EraserMode => "#FFFFFF"
                   | _ => drawColor tb
                   end))).
Proof.
  intros Hm. unfold V3.mousedown.
  destruct (mode st) eqn:Hmode; [done| |];
    (eapply (last_view _ (heap (V3.pushHistory st)));
     [by apply (points_push_last _ _ _ [])
     |rewrite points_push_annotations; apply last_snoc]).
Qed.





(** Second variant: the new stroke is the last annotation of the store and
    holds no point. *)
Lemma V2_mousedown_no_point st i e rect :
  mode st = DrawMode →
  last (Engine.view (V2.mousedown i e rect st)) = Some (Stroke i [] None None).
Proof.
  intros Hm. unfold V2.mousedown. rewrite Hm.
  eapply (last_view _ (heap (V2.pushHistory st))); [done|].
  apply last_snoc.
Qed.

(** Second variant: a click in text mode whose prompt is cancelled or left
    empty is exactly a call of [pushHistory]. *)
Lemma V2_click_cancelled st i e rect answer :
  mode st = TextMode → prompt_falsy answer = true →
  V2.click i e rect answer st = Engine.pushHistory st.
Proof.
  intros Hm Hcancel. unfold V2.click. rewrite Hm.
  by destruct answer as [[|c s]|].
Qed.

(** First and third variants: such a click does nothing at all. *)
Lemma V1_click_cancelled st i e rect answer :
  prompt_falsy answer = true → V1.click i e rect answer st = st.
Proof.
  intros Hcancel. unfold V1.click.
  by destruct (mode st), answer as [[|c s]|].
Qed.

Lemma V3_click_cancelled tb st i e rect answer :
  prompt_falsy answer = true → V3.click tb i e rect answer st = st.
Proof.
  intros Hcancel. unfold V3.click.
  by destruct (mode st), answer as [[|c s]|].
Qed.

End StrokeFacts.

(** ** Export coordinates and colours *)

Section ColourFacts.
Context {num : Type} `{!Number num} `{!Font}.

Lemma Forall_zip_with_all {A B C} (P : C → Prop) (f : A → B → C) l k :
  (∀ x y, P (f x y)) → Forall P (zip_with f l k).
Proof.
  intros HP. revert k. induction l as [|x l IH]; intros [|y k]; simpl;
    constructor; auto.
Qed.

Lemma V3_export_is_V1 : @V3.export_ops num _ = V1.export_ops.
Proof. reflexivity. Qed.

Lemma V3_savePdf_loop_is_V1 : @V3.savePdf_loop num _ _ = V1.savePdf_loop.
Proof. reflexivity. Qed.

Lemma V3_savePdf_is_V1 : @V3.savePdf num _ _ = V1.savePdf.
Proof. reflexivity. Qed.

(** Every instruction the export emits for an annotation has the colour of
    the annotation's kind. *)
Lemma V3_export_colour (page : pdf_page num) (canvas : page_view num) a :
  Forall (λ op, op_color op = match a with
                              | Text _ _ _ _ _ _ => rgb 1 1 0
                              | Stroke _ _ _ _ => rgb 0 1 0
                              end)
         (V3.export_ops page canvas a).
Proof.
  destruct a as [i x y text size c|i pts w c].
  - by repeat constructor.
  - rewrite V3_export_is_V1, V1_export_stroke. by apply Forall_zip_with_all.
Qed.


End ColourFacts.

(** C2: in the export, a stroke on a page that resolves adds to the page one
    line per pair of consecutive points, and the ends of each line are the
    points mapped by [(px, py) ↦ (px * (W / pw), H - py * (H / ph))], where
    [(pw, ph)] is the size of the overlay and [(W, H)] the physical size of
    the page.  For the overlay of 900 x 1400 pixels on the page of 612 x 792,
    the stroke from (0, 0) to (900, 1400) is exported as the line from
    (0, 792) to (612, 0): as rationals, and bit for bit in binary64. *)
Theorem stroke_export_coordinates :
  (∀ (num : Type) (N : Number num) (F : Font) (pgs : list (page_view num))
     (doc : list (pdf_page num)) (i : nat) (pts : list (point num))
     (w : option num) (c : option string) (page : pdf_page num)
     (canvas : page_view num),
     doc !! i = Some page → pgs !! i = Some canvas →
     ∀ (lib : missing_page) (rest : list (annotation num)),
     V1.savePdf_loop lib pgs doc (Stroke i pts w c :: rest)
     = V1.savePdf_loop lib pgs
         (<[i := PdfPage (pg_width page) (pg_height page)
            (pg_content page ++
             zip_with (λ p1 p2,
               DrawLine
                 (pt_x p1 * (pg_width page / anno_width canvas))%js
                 (pg_height page - pt_y p1 * (pg_height page / anno_height canvas))%js
                 (pt_x p2 * (pg_width page / anno_width canvas))%js
                 (pg_height page - pt_y p2 * (pg_height page / anno_height canvas))%js
                 (num_or w num_2) (rgb 0 1 0))
               pts (tail pts))]> doc)
         rest) ∧
  (V1.savePdf RaisesError [Sample.page_Q] Sample.diagonal_Q
   = Saved [PdfPage 612 792
              [DrawLine (0 * (612 / 900)) (792 - 0 * (792 / 1400))
                        (900 * (612 / 900)) (792 - 1400 * (792 / 1400))
                        2 (rgb 0 1 0)]]%Q ∧
   (0 * (612 / 900) == 0)%Q ∧ (792 - 0 * (792 / 1400) == 792)%Q ∧
   (900 * (612 / 900) == 612)%Q ∧ (792 - 1400 * (792 / 1400) == 0)%Q) ∧
  V1.savePdf RaisesError [Sample.page_f] Sample.diagonal_f
  = Saved [PdfPage 612 792 [DrawLine 0 792 612 0 2 (rgb 0 1 0)]]%float.
Proof.
  split_and!.
  - intros num N F pgs doc i pts w c page canvas Hd Hp lib rest.
    rewrite (V1_savePdf_loop_resolved lib pgs doc _ rest page canvas) by done.
    by rewrite V1_export_stroke.
  - by vm_compute.
  - by vm_compute.
  - by vm_compute.
  - by vm_compute.
  - by vm_compute.
  - by vm_compute.
Qed.

Lemma stroke_export_coordinates_witness :
  [Sample.page_Q] !! 0 = Some Sample.page_Q ∧
  [Sample.canvas_Q] !! 0 = Some Sample.canvas_Q ∧
  V1.savePdf_loop RaisesError [Sample.canvas_Q] [Sample.page_Q]
    [Stroke 0 [Point 0%Q 0%Q; Point 900%Q 1400%Q] None None]
  = Some [PdfPage 612%Q 792%Q
            [DrawLine (0 * (612 / 900)) (792 - 0 * (792 / 1400))
                      (900 * (612 / 900)) (792 - 1400 * (792 / 1400))
                      2 (rgb 0 1 0)]%Q].
Proof.
  split; [reflexivity|]. split; [reflexivity|].
  exact (proj1 stroke_export_coordinates Q Q_Number basic_latin
           [Sample.canvas_Q] [Sample.page_Q] 0
           [Point 0%Q 0%Q; Point 900%Q 1400%Q] None None
           Sample.page_Q Sample.canvas_Q eq_refl eq_refl RaisesError []).
Defined.

(** C3: in the export, a text on a page that resolves is drawn at
    [(x * (W / pw), H - y * (H / ph) - s)] with size [s], where [s] is the
    font size of the annotation: the size is subtracted after the flip of
    the axis.  [s] is the stored size, a truthy number as the handlers store
    it (the click handler stores 18), or the default 18 for an annotation
    that stores none.  This is what is drawn when the font can encode the
    text; when it cannot, [drawText] raises and the export ends there with
    nothing saved.  With a font that encodes it, the text "Hi" typed at
    pixel (50, 100) on the page above is exported at
    y = 792 - 100 * (792 / 1400) - 18, which is 5022/7 as a rational,
    whichever way the product and the quotient are associated, and the same
    binary64 float either way; with a font that does not encode the capital
    omega, an omega typed at the same place makes [savePdf] raise. *)
Theorem text_export_offset :
  (∀ (num : Type) (N : Number num) (F : Font) (pgs : list (page_view num))
     (doc : list (pdf_page num)) (i : nat) (x y : num) (text : string)
     (s : num) (c : option string) (page : pdf_page num)
     (canvas : page_view num),
     falsy s = false → doc !! i = Some page → pgs !! i = Some canvas →
     ∀ (lib : missing_page) (rest : list (annotation num)),
     (encodes text = true →
      V1.savePdf_loop lib pgs doc (Text i x y text (Some s) c :: rest)
      = V1.savePdf_loop lib pgs
          (<[i := PdfPage (pg_width page) (pg_height page)
             (pg_content page ++
              [DrawText text
                 (x * (pg_width page / anno_width canvas))%js
                 (pg_height page - y * (pg_height page / anno_height canvas) - s)%js
                 s (rgb 1 1 0)])]> doc)
          rest ∧
      V1.savePdf_loop lib pgs doc (Text i x y text None c :: rest)
      = V1.savePdf_loop lib pgs
          (<[i := PdfPage (pg_width page) (pg_height page)
             (pg_content page ++
              [DrawText text
                 (x * (pg_width page / anno_width canvas))%js
                 (pg_height page - y * (pg_height page / anno_height canvas) - num_18)%js
                 num_18 (rgb 1 1 0)])]> doc)
          rest) ∧
     (encodes text = false →
      V1.savePdf_loop lib pgs doc (Text i x y text (Some s) c :: rest) = None ∧
      V1.savePdf_loop lib pgs doc (Text i x y text None c :: rest) = None)) ∧
  (Engine.view Sample.hi_Q = [Text 0 (50 - 0) (100 - 0) "Hi" (Some 18) None]%Q ∧
   (792 - (100 - 0) * (792 / 1400) - 18 == 792 - (100 * 792 / 1400) - 18)%Q ∧
   (792 - (100 - 0) * (792 / 1400) - 18 == 5022 # 7)%Q ∧
   (792 - 100 * (792 / 1400) - 18 = 792 - (100 * 792 / 1400) - 18)%float ∧
   Engine.view Sample.omega_Q
   = [Text 0 (50 - 0) (100 - 0) "Ω" (Some 18) None]%Q) ∧
  (∀ F : Font, encodes "Hi" = true →
     V1.savePdf RaisesError [Sample.page_Q] Sample.hi_Q
     = Saved [PdfPage 612 792
                [DrawText "Hi" ((50 - 0) * (612 / 900))
                          (792 - (100 - 0) * (792 / 1400) - 18) 18 (rgb 1 1 0)]]%Q ∧
     V1.savePdf RaisesError [Sample.page_f] Sample.hi_f
     = Saved [PdfPage 612 792
                [DrawText "Hi" (50 * (612 / 900)) (792 - 100 * (792 / 1400) - 18)
                          18 (rgb 1 1 0)]]%float) ∧
  (∀ F : Font, encodes "Ω" = false →
     V1.savePdf RaisesError [Sample.page_Q] Sample.omega_Q = Throws).
Proof.
  split_and!.
  - intros num N F pgs doc i x y text s c page canvas Hs Hd Hp lib rest.
    split; intros Htext.
    + rewrite !(V1_savePdf_loop_resolved lib pgs doc _ rest page canvas) by done.
      unfold V1.export_ops, num_or. by rewrite Hs.
    + by rewrite !(V1_savePdf_loop_unencodable lib pgs doc _ rest page canvas).
  - by vm_compute.
  - by vm_compute.
  - by vm_compute.
  - by vm_compute.
  - by vm_compute.
  - intros F HF. split.
    + unfold V1.savePdf.
      replace (pdfBytes Sample.hi_Q) with (Some ([] : list Byte.byte))
        by by vm_compute.
      replace (Engine.view Sample.hi_Q)
        with [Text 0 (50 - 0) (100 - 0) "Hi" (Some 18) None]%Q by by vm_compute.
      erewrite V1_savePdf_loop_resolved;
        [|by vm_compute|by vm_compute|exact HF].
      by vm_compute.
    + unfold V1.savePdf.
      replace (pdfBytes Sample.hi_f) with (Some ([] : list Byte.byte))
        by by vm_compute.
      replace (Engine.view Sample.hi_f)
        with [Text 0 (50 - 0) (100 - 0) "Hi" (Some 18) None]%float
        by by vm_compute.
      erewrite V1_savePdf_loop_resolved;
        [|by vm_compute|by vm_compute|exact HF].
      by vm_compute.
  - intros F HF. unfold V1.savePdf.
    replace (pdfBytes Sample.omega_Q) with (Some ([] : list Byte.byte))
      by by vm_compute.
    replace (Engine.view Sample.omega_Q)
      with [Text 0 (50 - 0) (100 - 0) "Ω" (Some 18) None]%Q by by vm_compute.
    erewrite V1_savePdf_loop_unencodable;
      [done|by vm_compute|by vm_compute|exact HF].
Qed.

Lemma text_export_offset_witness :
  falsy 18%Q = false ∧
  [Sample.page_Q] !! 0 = Some Sample.page_Q ∧
  [Sample.canvas_Q] !! 0 = Some Sample.canvas_Q ∧
  encodes "Hi" = true ∧
  V1.savePdf_loop RaisesError [Sample.canvas_Q] [Sample.page_Q]
    [Text 0 50%Q 100%Q "Hi" (Some 18%Q) None]
  = Some [PdfPage 612%Q 792%Q
            [DrawText "Hi" (50 * (612 / 900)) (792 - 100 * (792 / 1400) - 18)
                      18 (rgb 1 1 0)]%Q].
Proof.
  split; [reflexivity|]. split; [reflexivity|]. split; [reflexivity|].
  split; [reflexivity|].
  exact (proj1 (proj1 (proj1 text_export_offset Q Q_Number basic_latin
           [Sample.canvas_Q] [Sample.page_Q] 0 50%Q 100%Q "Hi" 18%Q None
           Sample.page_Q Sample.canvas_Q eq_refl eq_refl eq_refl RaisesError [])
           eq_refl)).
Defined.



(** C8: when the pointer-down handler returns in draw mode, the stroke it
    appended is the last annotation of the store; in the first and in the
    third variant it holds exactly the point of the press, in the second
    variant it holds no point. *)
Theorem begin_stroke_points (num : Type) (N : Number num) (st : state num)
    (tb : toolbar num) (i : nat) (e : mouse_event num) (rect : dom_rect num) :
  mode st = DrawMode →
  last (Engine.view (V1.mousedown i e rect st))
    = Some (Stroke i [V1.local e rect] (Some num_2) None) ∧
  last (Engine.view (V3.mousedown tb i e rect st))
    = Some (Stroke i [V1.local e rect]
              (Some (V3.parsed_or (lineWidth tb) num_2)) (Some (drawColor tb))) ∧
  last (Engine.view (V2.mousedown i e rect st)) = Some (Stroke i [] None None).
Proof.
  intros Hm. split_and!.
  - by apply V1_mousedown_one_point.
  - rewrite V3_mousedown_one_point by by rewrite Hm. by rewrite Hm.
  - by apply V2_mousedown_no_point.
Qed.

Lemma begin_stroke_points_witness :
  mode Sample.drawing_Q = DrawMode ∧
  last (Engine.view (V2.mousedown 0 (Sample.at_Q 10 20) Sample.origin_Q
                       Sample.drawing_Q))
  = Some (Stroke 0 [] None None).
Proof.
  split; [reflexivity|].
  apply (begin_stroke_points Q Q_Number Sample.drawing_Q Sample.tools_Q 0
           (Sample.at_Q 10 20) Sample.origin_Q).
  reflexivity.
Defined.

(** The store of the sample session with a text of page 5 on three pages:
    the first variant exports it as the store without that text when
    [getPage] answers [undefined], and stops when [getPage] raises. *)
Example V1_savePdf_sample_dangling :
  V1.savePdf AnswersUndefined Sample.three_page_doc Sample.dangling
    = V1.savePdf AnswersUndefined Sample.three_page_doc Sample.not_dangling ∧
  V1.savePdf RaisesError Sample.three_page_doc Sample.dangling = Throws ∧
  pages (V1.redraw Sample.dangling) = pages (V1.redraw Sample.not_dangling).
Proof. by vm_compute. Qed.

(** C4: an annotation whose page index is beyond the pages of the document
    and of the page list.  [redraw] passes over it in every variant: what is
    painted is what would be without it.  The guarded export of the first
    and third variants passes over it when [getPage] answers [undefined] for
    the missing page, and what is exported is what would be without it; when
    [getPage] raises, the guard is not reached and the export stops with the
    error.  The export of the second variant has no guard and stops with an
    exception whatever [getPage] does. *)
Theorem dangling_page (num : Type) (N : Number num) (F : Font)
    (paint : annotation num → canvas_op num)
    (pgs : list (page_view num)) (doc : list (pdf_page num))
    (anns1 anns2 : list (annotation num)) (a : annotation num) :
  length doc ≤ pageIndex a → length pgs ≤ pageIndex a →
  foldl (Engine.redraw_step paint) pgs (anns1 ++ a :: anns2)
    = foldl (Engine.redraw_step paint) pgs (anns1 ++ anns2) ∧
  V1.savePdf_loop AnswersUndefined pgs doc (anns1 ++ a :: anns2)
    = V1.savePdf_loop AnswersUndefined pgs doc (anns1 ++ anns2) ∧
  V3.savePdf_loop AnswersUndefined pgs doc (anns1 ++ a :: anns2)
    = V3.savePdf_loop AnswersUndefined pgs doc (anns1 ++ anns2) ∧
  V1.savePdf_loop RaisesError pgs doc (anns1 ++ a :: anns2) = None ∧
  V3.savePdf_loop RaisesError pgs doc (anns1 ++ a :: anns2) = None ∧
  (∀ lib, V2.savePdf_loop lib pgs doc (anns1 ++ a :: anns2) = None) ∧
  ∀ (lib : missing_page) (st : state num),
    pages st = pgs → Engine.view st = anns1 ++ a :: anns2 →
    is_Some (pdfBytes st) → V2.savePdf lib doc st = Throws.
Proof.
  intros Hd Hp. split_and!.
  - by apply redraw_skips_dangling.
  - apply V1_savePdf_loop_skips; by left.
  - rewrite V3_savePdf_loop_is_V1. apply V1_savePdf_loop_skips; by left.
  - by apply V1_savePdf_loop_raises.
  - rewrite V3_savePdf_loop_is_V1. by apply V1_savePdf_loop_raises.
  - intros lib. apply V2_savePdf_loop_dangling. by left.
  - intros lib st Hpages Hview [bytes Hbytes]. unfold V2.savePdf.
    rewrite Hbytes, Hpages, Hview, V2_savePdf_loop_dangling; [done|by left].
Qed.

Lemma dangling_page_witness :
  length Sample.three_page_doc ≤ 5 ∧ length (pages Sample.dangling) ≤ 5 ∧
  V2.savePdf AnswersUndefined Sample.three_page_doc Sample.dangling = Throws ∧
  V2.savePdf RaisesError Sample.three_page_doc Sample.dangling = Throws.
Proof.
  assert (length Sample.three_page_doc ≤ 5) as Hd by (simpl; lia).
  assert (length (pages Sample.dangling) ≤ 5) as Hp by (simpl; lia).
  split; [exact Hd|]. split; [exact Hp|].
  pose proof (proj2 (proj2 (proj2 (proj2 (proj2 (proj2
    (dangling_page Q Q_Number basic_latin V1.paint (pages Sample.dangling)
       Sample.three_page_doc
       [Text 0 10%Q 20%Q "a" (Some 18%Q) None]
       [Text 0 30%Q 40%Q "c" (Some 18%Q) None]
       (Text 5 10%Q 20%Q "b" (Some 18%Q) None) Hd Hp))))))) as Hv2.
  split; apply Hv2; try reflexivity; by eexists.
Defined.

Lemma history_capacity_witness :
  length (history Sample.opened_Q) ≤ 50 ∧
  50 < length Sample.many_edits ∧
  1 ≤ 2 ≤ 50 ∧
  Engine.view (V1.undo_times 2 (V1.edit_all Sample.opened_Q Sample.many_edits))
  = Engine.view (V1.edit_all Sample.opened_Q
                   (take (length Sample.many_edits - 2) Sample.many_edits)).
Proof.
  assert (length (history Sample.opened_Q) ≤ 50) as H1 by (simpl; lia).
  assert (50 < length Sample.many_edits) as H2 by (vm_compute; lia).
  assert (1 ≤ 2 ≤ 50) as H3 by lia.
  split; [exact H1|]. split; [exact H2|]. split; [exact H3|].
  exact (proj1 (proj2 (history_capacity Sample.opened_Q Sample.many_edits 2 H1 H2 H3))).
Defined.

Lemma redraw_keeps_append_order_witness :
  Engine.wf Sample.opened_Q ∧
  Forall (λ ig, ig.1 < length (wires Sample.opened_Q)) Sample.three_edits ∧
  pages (V1.redraw (V1.edit_all Sample.opened_Q Sample.three_edits))
  = [PageView 900 1400
       [FillText "yellow" 18 "A" (50 - 0) (100 - 0);
        StrokePath "lime" (Some 2) [MoveTo (10 - 0) (10 - 0); LineTo (20 - 0) (30 - 0)];
        FillText "yellow" 18 "C" (70 - 0) (200 - 0)]]%Q ∧
  pages (V1.undo (V1.edit_all Sample.opened_Q (take 2 Sample.three_edits)))
  = [PageView 900 1400 [FillText "yellow" 18 "A" (50 - 0) (100 - 0)]]%Q.
Proof.
  assert (Engine.wf Sample.opened_Q) as Hwf by (split; constructor).
  assert (Forall (λ ig, ig.1 < length (wires Sample.opened_Q)) Sample.three_edits)
    as Hall by (repeat constructor).
  assert (Forall (λ ig, ig.1 < length (wires Sample.opened_Q))
            (take 1 Sample.three_edits)) as Hone by (repeat constructor).
  split; [exact Hwf|]. split; [exact Hall|]. split.
  - etrans;
      [exact (proj1 (proj2 (proj2
         (redraw_keeps_append_order Sample.opened_Q Sample.three_edits
            (0, V1.TypeText (Sample.at_Q 1 1) Sample.origin_Q "z"%char "")
            Hwf Hall))))|].
    reflexivity.
  - etrans;
      [exact (proj2 (proj2 (proj2 (proj2
         (redraw_keeps_append_order Sample.opened_Q (take 1 Sample.three_edits)
            (0, V1.DrawStroke (Sample.at_Q 10 10) Sample.origin_Q
                  [(Sample.at_Q 20 30, Sample.origin_Q)])
            Hwf Hone)))))|].
    reflexivity.
Defined.



(** C9: in the second variant a click in text mode whose prompt is cancelled
    or answered with nothing adds no annotation and changes none, yet pushes
    a snapshot that reads as the store does; it takes a place in the history
    (the oldest entry is dropped when 50 were held).  The next undo pops that
    snapshot: the store is replaced by the copy, which reads as the store
    did, and the history is left with the entries kept at the push.  In the
    first variant the same click leaves the state as it is. *)
Theorem cancelled_prompt_pushes_snapshot (num : Type) (N : Number num)
    (st : state num) (i : nat) (e : mouse_event num) (rect : dom_rect num)
    (answer : option string) :
  mode st = TextMode → prompt_falsy answer = true →
  Engine.wf st → length (history st) ≤ 50 →
  let st' := V2.click i e rect answer st in
  annotations st' = annotations st ∧
  Engine.view st' = Engine.view st ∧
  (∃ copy,
     history st' = Engine.kept (history st) ++ [copy] ∧
     Engine.deref (heap st') <$> copy = Engine.view st ∧
     annotations (V2.undo st') = copy) ∧
  length (history st') = Nat.min 50 (S (length (history st))) ∧
  Engine.view (V2.undo st') = Engine.view st ∧
  history (V2.undo st') = Engine.kept (history st) ∧
  V1.click i e rect answer st = st.
Proof.
  intros Hm Hcancel Hwf Hle. cbv zeta.
  rewrite V2_click_cancelled by done.
  assert (history (Engine.pushHistory st)
          = Engine.kept (history st)
            ++ [(Engine.structuredClone (heap st) (annotations st)).2]) as Hh.
  { by rewrite pushHistory_history, push_bounded_snoc. }
  split_and!.
  - done.
  - by apply pushHistory_view.
  - eexists. split_and!; [exact Hh| |].
    + by apply structuredClone_view.
    + unfold V2.undo, Engine.undo. by rewrite Hh, js_pop_snoc.
  - by rewrite pushHistory_history, push_bounded_length.
  - by apply undo_restores.
  - by apply undo_restores_history.
  - by apply V1_click_cancelled.
Qed.

Lemma cancelled_prompt_pushes_snapshot_witness :
  mode Sample.hi_Q = TextMode ∧ prompt_falsy None = true ∧
  Engine.wf Sample.hi_Q ∧ length (history Sample.hi_Q) ≤ 50 ∧
  Engine.view (V2.undo (V2.click 0 (Sample.at_Q 5 5) Sample.origin_Q None Sample.hi_Q))
  = Engine.view Sample.hi_Q.
Proof.
  assert (Engine.wf Sample.hi_Q) as Hwf by (split; repeat constructor).
  assert (length (history Sample.hi_Q) ≤ 50) as Hle by (vm_compute; lia).
  split; [reflexivity|]. split; [reflexivity|]. split; [exact Hwf|].
  split; [exact Hle|].
  exact (proj1 (proj2 (proj2 (proj2 (proj2
           (cancelled_prompt_pushes_snapshot Q Q_Number Sample.hi_Q 0
              (Sample.at_Q 5 5) Sample.origin_Q None eq_refl eq_refl Hwf Hle)))))).
Defined.

(** * Further properties of the code *)

(** ** Repainting *)

Section RedrawMore.
Context {num : Type}.
Variable paint : annotation num → canvas_op num.
Implicit Types (st : state num).

Lemma redraw_length st :
  length (pages (Engine.redraw paint st)) = length (pages st).
Proof.
  rewrite <- (length_fmap Engine.clearRect), redraw_geometry.
  by rewrite length_fmap.
Qed.

Lemma redraw_ext_state st (shown : list (page_view num)) :
  Engine.clearRect <$> shown = Engine.clearRect <$> pages st →
  Engine.redraw paint (set_pages shown st) = Engine.redraw paint st.
Proof. intros Hshown. unfold Engine.redraw. simpl. by rewrite Hshown. Qed.

Lemma redraw_twice st :
  Engine.redraw paint (Engine.redraw paint st) = Engine.redraw paint st.
Proof.
  change (Engine.redraw paint (Engine.redraw paint st))
    with (Engine.redraw paint (set_pages (pages (Engine.redraw paint st)) st)).
  apply redraw_ext_state, redraw_geometry.
Qed.

(** [redraw] repaints from the store alone: what the overlays showed before
    has no effect on what they show after, so calling it again changes
    nothing. *)
Theorem redraw_from_store_alone st (shown : list (page_view num)) :
  Engine.clearRect <$> shown = Engine.clearRect <$> pages st →
  Engine.redraw paint (set_pages shown st) = Engine.redraw paint st ∧
  Engine.redraw paint (Engine.redraw paint st) = Engine.redraw paint st.
Proof.
  intros Hshown. split; [by apply redraw_ext_state | apply redraw_twice].
Qed.

End RedrawMore.

Lemma redraw_from_store_alone_witness :
  Engine.clearRect <$> pages Sample.opened_Q
    = Engine.clearRect <$> pages Sample.hi_Q ∧
  Engine.redraw V1.paint (set_pages (pages Sample.opened_Q) Sample.hi_Q)
    = Engine.redraw V1.paint Sample.hi_Q.
Proof.
  split; [reflexivity|].
  exact (proj1 (redraw_from_store_alone V1.paint Sample.hi_Q
                  (pages Sample.opened_Q) eq_refl)).
Defined.

(** ** The export, instruction by instruction *)

Section ExportMore.
Context {num : Type} `{!Number num} `{!Font}.
Implicit Types (page : pdf_page num) (canvas : page_view num)
  (doc : list (pdf_page num)) (pgs : list (page_view num))
  (anns : list (annotation num)).

Lemma V2_export_stroke page canvas i pts w c :
  V2.export_ops page canvas (Stroke i pts w c)
  = zip_with (λ p1 p2,
      DrawLine (pt_x p1 * (pg_width page / anno_width canvas))%js
               (pg_height page - pt_y p1 * (pg_height page / anno_height canvas))%js
               (pt_x p2 * (pg_width page / anno_width canvas))%js
               (pg_height page - pt_y p2 * (pg_height page / anno_height canvas))%js
               num_2 (rgb 0 1 0))
      pts (tail pts).
Proof. unfold V2.export_ops. apply segments_zip. Qed.

Lemma length_zip_tail {A B} (f : A → A → B) (l : list A) :
  length (zip_with f l (tail l)) = length l - 1.
Proof.
  rewrite length_zip_with. destruct l as [|x l]; [done|]. cbn [tail length]. lia.
Qed.

(** A text is exported as one instruction; a stroke of [n] points as [n - 1]
    lines, so a stroke of no point or of one point adds nothing to the
    document, while the overlay path has one command per point. *)
Theorem export_instruction_count (page : pdf_page num) (canvas : page_view num)
    (a : annotation num) :
  let count := match a with
               | Text _ _ _ _ _ _ => 1
               | Stroke _ pts _ _ => length pts - 1
               end in
  length (V1.export_ops page canvas a) = count ∧
  length (V2.export_ops page canvas a) = count ∧
  length (V3.export_ops page canvas a) = count ∧
  ∀ i pts w c, length (trace (num:=num) pts) = length pts ∧
    (length pts ≤ 1 →
     V1.export_ops page canvas (Stroke i pts w c) = [] ∧
     V2.export_ops page canvas (Stroke i pts w c) = [] ∧
     V3.export_ops page canvas (Stroke i pts w c) = []).
Proof.
  cbv zeta. split_and!.
  - destruct a; [done|]. by rewrite V1_export_stroke, length_zip_tail.
  - destruct a; [done|]. by rewrite V2_export_stroke, length_zip_tail.
  - destruct a; [done|].
    by rewrite V3_export_is_V1, V1_export_stroke, length_zip_tail.
  - intros i pts w c. split; [apply length_imap|].
    intros Hshort. destruct pts as [|p [|q pts]]; [done|done|simpl in Hshort; lia].
Qed.

Lemma flattened_skip ops pgs doc a anns :
  doc !! pageIndex a = None ∨ pgs !! pageIndex a = None →
  Flatten.flattened ops pgs doc (a :: anns) = Flatten.flattened ops pgs doc anns.
Proof.
  intros Hmiss. unfold Flatten.flattened. apply list_eq. intros i.
  rewrite !list_lookup_imap.
  destruct (doc !! i) as [page|] eqn:Hd; [|done]. simpl.
  destruct (pgs !! i) as [canvas|] eqn:Hp; [|done].
  rewrite filter_cons. destruct (decide (pageIndex a = i)) as [<-|]; [|done].
  destruct Hmiss; congruence.
Qed.

Lemma flattened_step
    (ops : pdf_page num → page_view num → annotation num → list (pdf_op num))
    pgs doc a anns page canvas :
  (∀ p c content b,
     ops (PdfPage (pg_width p) (pg_height p) content) c b = ops p c b) →
  doc !! pageIndex a = Some page → pgs !! pageIndex a = Some canvas →
  Flatten.flattened ops pgs
    (<[pageIndex a := PdfPage (pg_width page) (pg_height page)
                        (pg_content page ++ ops page canvas a)]> doc) anns
  = Flatten.flattened ops pgs doc (a :: anns).
Proof.
  intros Hsize Hd Hp. unfold Flatten.flattened. apply list_eq. intros i.
  rewrite !list_lookup_imap.
  destruct (decide (pageIndex a = i)) as [<-|Hne].
  - rewrite list_lookup_insert_eq by by eapply lookup_lt_Some.
    rewrite Hd, Hp. simpl. rewrite filter_cons, decide_True by done.
    simpl. f_equal. f_equal. rewrite <- app_assoc. f_equal. f_equal.
    apply flat_map_ext. intros b. apply Hsize.
  - rewrite list_lookup_insert_ne by done.
    destruct (doc !! i) as [page'|]; [|done]. simpl.
    destruct (pgs !! i) as [canvas'|]; [|done].
    by rewrite filter_cons, decide_False.
Qed.

Lemma V1_savePdf_loop_flattened lib pgs doc anns doc' :
  V1.savePdf_loop lib pgs doc anns = Some doc' →
  doc' = Flatten.flattened V1.export_ops pgs doc anns.
Proof.
  revert doc. induction anns as [|a anns IH]; intros doc Hloop.
  - injection Hloop as <-. unfold Flatten.flattened.
    apply list_eq. intros i. rewrite list_lookup_imap.
    destruct (doc !! i) as [[w h content]|]; [|done]. simpl.
    destruct (pgs !! i); [|done]. simpl. by rewrite app_nil_r.
  - simpl in Hloop. unfold getPage in Hloop.
    destruct (doc !! pageIndex a) as [page|] eqn:Hd.
    + destruct (pgs !! pageIndex a) as [canvas|] eqn:Hp.
      * destruct (drawable a); [|done].
        apply IH in Hloop. rewrite Hloop. by apply flattened_step.
      * apply IH in Hloop. rewrite Hloop. symmetry. apply flattened_skip. by right.
    + destruct lib; [|done].
      apply IH in Hloop. rewrite Hloop. symmetry. apply flattened_skip. by left.
Qed.

Lemma V2_savePdf_loop_flattened lib pgs doc anns doc' :
  V2.savePdf_loop lib pgs doc anns = Some doc' →
  doc' = Flatten.flattened V2.export_ops pgs doc anns.
Proof.
  revert doc. induction anns as [|a anns IH]; intros doc Hloop.
  - injection Hloop as <-. unfold Flatten.flattened.
    apply list_eq. intros i. rewrite list_lookup_imap.
    destruct (doc !! i) as [[w h content]|]; [|done]. simpl.
    destruct (pgs !! i); [|done]. simpl. by rewrite app_nil_r.
  - simpl in Hloop. unfold getPage in Hloop.
    destruct (doc !! pageIndex a) as [page|] eqn:Hd.
    + destruct (pgs !! pageIndex a) as [canvas|] eqn:Hp; [|done].
      destruct (drawable a); [|done].
      apply IH in Hloop. rewrite Hloop. by apply flattened_step.
    + by destruct lib.
Qed.

(** When the export is made, it is the closed form: the pages of the
    document are the pages it had, each with its size and with what it held
    first, followed by the instructions of its annotations in the order of
    the store.  Nothing is removed, no page is added, and an annotation of
    one page adds nothing to another. *)
Theorem export_is_flattening (lib : missing_page) (doc : list (pdf_page num))
    (st : state num) (doc' : list (pdf_page num)) :
  (V1.savePdf lib doc st = Saved doc' →
   doc' = Flatten.flattened V1.export_ops (pages st) doc (Engine.view st)) ∧
  (V2.savePdf lib doc st = Saved doc' →
   doc' = Flatten.flattened V2.export_ops (pages st) doc (Engine.view st)) ∧
  (V3.savePdf lib doc st = Saved doc' →
   doc' = Flatten.flattened V3.export_ops (pages st) doc (Engine.view st)) ∧
  ∀ ops, length (Flatten.flattened ops (pages st) doc (Engine.view st)) = length doc ∧
    ∀ i page', Flatten.flattened ops (pages st) doc (Engine.view st) !! i = Some page' →
      ∃ page, doc !! i = Some page ∧
        pg_width page' = pg_width page ∧ pg_height page' = pg_height page ∧
        pg_content page `prefix_of` pg_content page'.
Proof.
  split_and!.
  - unfold V1.savePdf. destruct (pdfBytes st); [|done].
    destruct (V1.savePdf_loop _ _ _ _) eqn:Hloop; [|done].
    intros [= <-]. by eapply V1_savePdf_loop_flattened.
  - unfold V2.savePdf. destruct (pdfBytes st); [|done].
    destruct (V2.savePdf_loop _ _ _ _) eqn:Hloop; [|done].
    intros [= <-]. by eapply V2_savePdf_loop_flattened.
  - rewrite V3_savePdf_is_V1, V3_export_is_V1.
    unfold V1.savePdf. destruct (pdfBytes st); [|done].
    destruct (V1.savePdf_loop _ _ _ _) eqn:Hloop; [|done].
    intros [= <-]. by eapply V1_savePdf_loop_flattened.
  - intros ops. unfold Flatten.flattened. split; [apply length_imap|].
    intros i page'. rewrite list_lookup_imap.
    destruct (doc !! i) as [page|]; [|done]. simpl. intros [= <-].
    exists page. split; [done|].
    destruct (pages st !! i); simpl; split_and!; try done.
    by apply prefix_app_r.
Qed.

End ExportMore.

Lemma export_is_flattening_witness :
  V1.savePdf RaisesError [Sample.page_Q] Sample.hi_Q
    = Saved [PdfPage 612 792
               [DrawText "Hi" ((50 - 0) * (612 / 900))
                         (792 - (100 - 0) * (792 / 1400) - 18) 18 (rgb 1 1 0)]]%Q ∧
  [PdfPage 612 792
     [DrawText "Hi" ((50 - 0) * (612 / 900))
               (792 - (100 - 0) * (792 / 1400) - 18) 18 (rgb 1 1 0)]]%Q
  = Flatten.flattened V1.export_ops (pages Sample.hi_Q) [Sample.page_Q]
      (Engine.view Sample.hi_Q).
Proof.
  split; [reflexivity|].
  exact (proj1 (export_is_flattening RaisesError [Sample.page_Q] Sample.hi_Q _)
               eq_refl).
Defined.

(** ** Annotations stay on pages that are shown *)

Section PlaceFacts.
Context {num : Type}.
Variable paint : annotation num → canvas_op num.
Implicit Types (st : state num) (arr : list nat).

Lemma on_pages_view st arr :
  Place.on_pages st arr
  ↔ Forall (λ a, pageIndex a < length (pages st)) (Engine.deref (heap st) <$> arr).
Proof. unfold Place.on_pages. by rewrite Forall_fmap. Qed.

Lemma on_pages_ext st st' arr :
  length (pages st') = length (pages st) →
  Engine.deref (heap st') <$> arr = Engine.deref (heap st) <$> arr →
  Place.on_pages st arr → Place.on_pages st' arr.
Proof.
  intros Hlen Hview. rewrite !on_pages_view, Hlen, Hview. done.
Qed.

Lemma placed_pushHistory st : Place.placed st → Place.placed (Engine.pushHistory st).
Proof.
  intros (Hwf & Hw & Ha & Hh). pose proof Hwf as [Hva Hvh].
  split_and!.
  - by apply wf_pushHistory.
  - done.
  - rewrite pushHistory_annotations.
    eapply (on_pages_ext st); [done| |exact Ha].
    apply view_prefix; [apply pushHistory_heap_prefix | done].
  - rewrite pushHistory_history, push_bounded_snoc. apply Forall_app. split.
    + apply kept_valid.
      apply Forall_forall. intros entry Hentry.
      eapply (on_pages_ext st); [done| |].
      * apply view_prefix; [apply pushHistory_heap_prefix|].
        by eapply Forall_forall in Hvh.
      * by eapply Forall_forall in Hh.
    + apply Forall_singleton.
      apply (proj2 (on_pages_view (Engine.pushHistory st) _)).
      rewrite pushHistory_heap, structuredClone_view by done.
      exact (proj1 (on_pages_view st (annotations st)) Ha).
Qed.

Lemma placed_annotations_push st obj :
  pageIndex obj < length (pages st) →
  Place.placed st → Place.placed (Engine.annotations_push obj st).
Proof.
  intros Hobj (Hwf & Hw & Ha & Hh). pose proof Hwf as [Hva Hvh].
  split_and!.
  - by apply wf_annotations_push.
  - done.
  - apply (proj2 (on_pages_view (Engine.annotations_push obj st) _)).
    change (Engine.deref (heap (Engine.annotations_push obj st))
              <$> annotations (Engine.annotations_push obj st))
      with (Engine.view (Engine.annotations_push obj st)).
    rewrite annotations_push_view by done.
    apply Forall_app. split; [|by apply Forall_singleton].
    exact (proj1 (on_pages_view st (annotations st)) Ha).
  - apply Forall_forall. intros entry Hentry.
    eapply (on_pages_ext st); [done| |by eapply Forall_forall in Hh].
    apply view_prefix; [by apply prefix_app_r|by eapply Forall_forall in Hvh].
Qed.

Lemma points_push_pageIndex st l pt l' :
  pageIndex (Engine.deref (heap (Engine.points_push l pt st)) l')
  = pageIndex (Engine.deref (heap st) l').
Proof.
  unfold Engine.points_push.
  destruct (heap st !! l) as [[|i pts w c]|] eqn:Hl; try done.
  simpl. unfold Engine.deref.
  destruct (decide (l = l')) as [<-|Hne].
  - rewrite list_lookup_insert_eq by by eapply lookup_lt_Some. by rewrite Hl.
  - by rewrite list_lookup_insert_ne.
Qed.

Lemma points_push_pages st l pt :
  pages (Engine.points_push l pt st) = pages st.
Proof. unfold Engine.points_push. by repeat case_match. Qed.

Lemma points_push_wires st l pt :
  wires (Engine.points_push l pt st) = wires st.
Proof. unfold Engine.points_push. by repeat case_match. Qed.

Lemma points_push_history st l pt :
  history (Engine.points_push l pt st) = history st.
Proof. unfold Engine.points_push. by repeat case_match. Qed.

Lemma on_pages_points_push st l pt arr :
  Place.on_pages st arr → Place.on_pages (Engine.points_push l pt st) arr.
Proof.
  unfold Place.on_pages. rewrite points_push_pages.
  intros Harr. eapply Forall_impl; [exact Harr|].
  intros l' Hl'. simpl. by rewrite points_push_pageIndex.
Qed.

Lemma placed_points_push st l pt :
  Place.placed st → Place.placed (Engine.points_push l pt st).
Proof.
  intros (Hwf & Hw & Ha & Hh). split_and!.
  - by apply wf_points_push.
  - by rewrite points_push_wires, points_push_pages.
  - rewrite points_push_annotations. by apply on_pages_points_push.
  - rewrite points_push_history.
    eapply Forall_impl; [exact Hh|]. intros entry. apply on_pages_points_push.
Qed.

Lemma placed_redraw st : Place.placed st → Place.placed (Engine.redraw paint st).
Proof.
  intros (Hwf & Hw & Ha & Hh).
  assert (length (pages (Engine.redraw paint st)) = length (pages st)) as Hlen
    by apply redraw_length.
  split_and!.
  - done.
  - by rewrite Hlen.
  - by eapply (on_pages_ext st); [exact Hlen| |exact Ha].
  - eapply Forall_impl; [exact Hh|]. intros entry Hentry.
    by eapply (on_pages_ext st); [exact Hlen| |exact Hentry].
Qed.

Lemma placed_undo st : Place.placed st → Place.placed (Engine.undo paint st).
Proof.
  intros Hplaced. unfold Engine.undo.
  destruct (js_pop (history st)) as [[top older]|] eqn:Hpop; [|done].
  apply js_pop_Some in Hpop.
  apply placed_redraw.
  destruct Hplaced as ((Hva & Hvh) & Hw & Ha & Hh).
  rewrite Hpop in Hvh, Hh.
  apply Forall_app in Hvh as [Hvh Hvt%Forall_inv].
  apply Forall_app in Hh as [Hh Ht%Forall_inv].
  by split_and!.
Qed.

Lemma placed_wires st (ws : list wire_vars) :
  length ws = length (wires st) →
  Place.placed st → Place.placed (set_wires ws st).
Proof. intros Hlen (Hwf & Hw & Ha & Hh). split_and!; try done. simpl. congruence. Qed.

Lemma placed_mode st m : Place.placed st → Place.placed (set_mode m st).
Proof. done. Qed.

(** A session that has just read the bytes of a file: nothing in the store
    or in the history, and the pages the rasterizer rendered. *)
Lemma placed_loaded st bytes (pgs : list (page_view num)) (ws : list wire_vars) :
  length ws = length pgs →
  Place.placed
    (set_wires ws
       (set_pages pgs
          (set_wires [] (set_pages []
             (set_history [] (set_annotations [] (set_pdfBytes (Some bytes) st))))))).
Proof.
  intros Hlen. split_and!.
  - split; constructor.
  - done.
  - constructor.
  - constructor.
Qed.

Lemma placed_rejected st bytes :
  Place.placed
    (set_wires [] (set_pages []
       (set_history [] (set_annotations [] (set_pdfBytes (Some bytes) st))))).
Proof. split_and!; try constructor; done. Qed.

End PlaceFacts.

Section SessionFacts.
Context {num : Type} `{!Number num} `{!Font}.
Implicit Types (st : state num) (doc : list (pdf_page num))
  (pgs : list (page_view num)) (anns : list (annotation num)).

Lemma V1_renderPdf_placed r st bytes :
  Place.placed (V1.renderPdf r
    (set_history [] (set_annotations [] (set_pdfBytes (Some bytes) st)))).
Proof.
  unfold V1.renderPdf. destruct r as [|viewports []].
  - apply placed_rejected.
  - apply (placed_redraw V1.paint), placed_loaded. by rewrite !length_fmap.
  - apply placed_loaded. by rewrite !length_fmap.
Qed.

Lemma V1_handle_placed st ev :
  Place.placed st → V1Session.possible_event st ev → Place.placed (V1.handle st ev).
Proof.
  intros Hplaced Hev.
  destruct ev as [| | |bytes r|file r|i e rect answer|i e rect|i e rect|];
    simpl in *; try done.
  - by apply placed_undo.
  - apply V1_renderPdf_placed.
  - destruct file; [|done]. apply V1_renderPdf_placed.
  - unfold V1.click. destruct (mode st), answer as [[|c s]|]; try done.
    by apply placed_redraw, placed_annotations_push, placed_pushHistory.
  - unfold V1.mousedown. destruct (mode st); try done.
    apply placed_points_push, placed_wires; [by rewrite length_insert|].
    by apply placed_annotations_push, placed_pushHistory.
  - unfold V1.mousemove.
    destruct (wires st !! i) as [[[] [l|]]|], (mode st); try done.
    by apply placed_redraw, placed_points_push.
  - apply placed_wires; [by rewrite length_fmap|done].
Qed.

Lemma V2_renderPdf_placed r st bytes :
  Place.placed (V2.renderPdf r
    (set_history [] (set_annotations [] (set_pdfBytes (Some bytes) st)))).
Proof.
  unfold V2.renderPdf. destruct r as [|viewports all].
  - apply placed_rejected.
  - apply placed_loaded. by rewrite !length_fmap.
Qed.

Lemma V2_handle_placed st ev :
  Place.placed st → V2Session.possible_event st ev →
  Place.placed (V2Session.handle st ev).
Proof.
  intros Hplaced Hev.
  destruct ev as [| | |file r|i e rect answer|i e rect|i e rect|];
    simpl in *; try done.
  - by apply placed_undo.
  - destruct file; [|done]. apply V2_renderPdf_placed.
  - unfold V2.click. destruct (mode st); try done.
    destruct answer as [[|c s]|]; try by apply placed_pushHistory.
    by apply placed_redraw, placed_annotations_push, placed_pushHistory.
  - unfold V2.mousedown. destruct (mode st); try done.
    apply placed_wires; [by rewrite length_insert|].
    by apply placed_annotations_push, placed_pushHistory.
  - unfold V2.mousemove.
    destruct (wires st !! i) as [[[] [l|]]|], (mode st); try done.
    by apply placed_redraw, placed_points_push.
  - apply placed_wires; [by rewrite length_fmap|done].
Qed.

Lemma V3_renderPdf_placed r st bytes :
  Place.placed (V3Session.renderPdf r
    (set_history [] (set_annotations [] (set_pdfBytes (Some bytes) st)))).
Proof.
  unfold V3Session.renderPdf. destruct r as [|viewports []].
  - apply placed_rejected.
  - apply (placed_redraw V3.paint), placed_loaded. by rewrite !length_fmap.
  - apply placed_loaded. by rewrite !length_fmap.
Qed.

Lemma V3_handle_placed st ev :
  Place.placed st → V3Session.possible_event st ev →
  Place.placed (V3Session.handle st ev).
Proof.
  intros Hplaced Hev.
  destruct ev as [| | | |bytes r|file r|tb i e rect answer|tb i e rect|i e rect|];
    simpl in *; try done.
  - by apply placed_undo.
  - apply V3_renderPdf_placed.
  - destruct file; [|done]. apply V3_renderPdf_placed.
  - unfold V3.click. destruct (mode st), answer as [[|c s]|]; try done.
    by apply placed_annotations_push, placed_pushHistory.
  - unfold V3.mousedown. destruct (mode st); try done;
      (apply placed_points_push, placed_wires; [by rewrite length_insert|];
       by apply placed_annotations_push, placed_pushHistory).
  - unfold V3.mousemove.
    destruct (wires st !! i) as [[[] [l|]]|], (mode st); try done;
      by apply placed_redraw, placed_points_push.
  - apply placed_wires; [by rewrite length_fmap|done].
Qed.

Lemma initial_placed : Place.placed (@V1.initial num).
Proof. split_and!; try constructor; done. Qed.

Lemma placed_view st :
  Place.placed st →
  Forall (λ a, pageIndex a < length (pages st)) (Engine.view st).
Proof. intros (_ & _ & Ha & _). by apply on_pages_view. Qed.

Lemma V1_savePdf_loop_total lib pgs doc anns :
  Forall (λ a, pageIndex a < length doc) anns →
  Forall (λ a, drawable a = true) anns →
  is_Some (V1.savePdf_loop lib pgs doc anns).
Proof.
  intros Hall Hdrawn. revert doc Hall.
  induction anns as [|a anns IH]; intros doc Hall; [by eexists|].
  apply Forall_cons_1 in Hall as [Ha Hall].
  apply Forall_cons_1 in Hdrawn as [Hdrawn_a Hdrawn]. simpl. unfold getPage.
  destruct (lookup_lt_is_Some_2 doc (pageIndex a) Ha) as [page ->].
  rewrite Hdrawn_a.
  destruct (pgs !! pageIndex a); apply IH; by rewrite ?length_insert.
Qed.

Lemma V2_savePdf_loop_total lib pgs doc anns :
  Forall (λ a, pageIndex a < length doc) anns →
  Forall (λ a, pageIndex a < length pgs) anns →
  Forall (λ a, drawable a = true) anns →
  is_Some (V2.savePdf_loop lib pgs doc anns).
Proof.
  intros Hdoc Hpgs Hdrawn. revert doc Hdoc.
  induction anns as [|a anns IH]; intros doc Hdoc; [by eexists|].
  apply Forall_cons_1 in Hdoc as [Ha Hdoc].
  apply Forall_cons_1 in Hpgs as [Hp Hpgs].
  apply Forall_cons_1 in Hdrawn as [Hdrawn_a Hdrawn]. simpl. unfold getPage.
  destruct (lookup_lt_is_Some_2 doc (pageIndex a) Ha) as [page ->].
  destruct (lookup_lt_is_Some_2 pgs (pageIndex a) Hp) as [canvas ->].
  rewrite Hdrawn_a. apply IH; [done|done|]. by rewrite length_insert.
Qed.

(** On pages that resolve, the export stops at the first text the font
    cannot encode. *)
Lemma V1_savePdf_loop_stops lib pgs doc anns :
  Forall (λ a, pageIndex a < length doc) anns →
  Forall (λ a, pageIndex a < length pgs) anns →
  Exists (λ a, drawable a = false) anns →
  V1.savePdf_loop lib pgs doc anns = None.
Proof.
  intros Hdoc Hpgs Hsome. revert doc Hdoc.
  induction anns as [|a anns IH]; intros doc Hdoc; [by apply Exists_nil in Hsome|].
  apply Forall_cons_1 in Hdoc as [Ha Hdoc].
  apply Forall_cons_1 in Hpgs as [Hp Hpgs]. simpl. unfold getPage.
  destruct (lookup_lt_is_Some_2 doc (pageIndex a) Ha) as [page ->].
  destruct (lookup_lt_is_Some_2 pgs (pageIndex a) Hp) as [canvas ->].
  destruct (drawable a) eqn:Hdrawn_a; [|done].
  apply Exists_cons in Hsome as [Hhere|Hlater]; [congruence|].
  apply IH; [done|done|]. by rewrite length_insert.
Qed.

Lemma V2_savePdf_loop_stops lib pgs doc anns :
  Exists (λ a, drawable a = false) anns →
  V2.savePdf_loop lib pgs doc anns = None.
Proof.
  intros Hsome. revert doc.
  induction anns as [|a anns IH]; intros doc; [by apply Exists_nil in Hsome|].
  simpl.
  destruct (getPage lib doc (pageIndex a)), (pgs !! pageIndex a); try done.
  destruct (drawable a) eqn:Hdrawn_a; [|done].
  apply Exists_cons in Hsome as [Hhere|Hlater]; [congruence|]. by apply IH.
Qed.

Lemma Forall_lt_le (anns : list (annotation num)) (n m : nat) :
  n ≤ m → Forall (λ a, pageIndex a < n) anns → Forall (λ a, pageIndex a < m) anns.
Proof.
  intros Hnm Hall. eapply Forall_impl; [exact Hall|]. intros a Ha. simpl in *. lia.
Qed.

(** *** Loads step by step *)

Lemma placed_push_page st (p : page_view num) (w : wire_vars) :
  Place.placed st →
  Place.placed (set_wires (wires st ++ [w]) (set_pages (pages st ++ [p]) st)).
Proof.
  intros (Hwf & Hlen & Ha & Hh). split_and!.
  - done.
  - simpl. rewrite !length_app. simpl. lia.
  - eapply Forall_impl; [exact Ha|]. intros l Hl. simpl in *.
    rewrite length_app. lia.
  - eapply Forall_impl; [exact Hh|]. intros arr Harr.
    eapply Forall_impl; [exact Harr|]. intros l Hl. simpl in *.
    rewrite length_app. lia.
Qed.

Lemma push_page_twice st (ps ps' : list (page_view num)) (ws ws' : list wire_vars) :
  set_wires (wires (set_wires (wires st ++ ws) (set_pages (pages st ++ ps) st)) ++ ws')
    (set_pages (pages (set_wires (wires st ++ ws) (set_pages (pages st ++ ps) st)) ++ ps')
       (set_wires (wires st ++ ws) (set_pages (pages st ++ ps) st)))
  = set_wires (wires st ++ ws ++ ws') (set_pages (pages st ++ ps ++ ps') st).
Proof. unfold set_wires, set_pages. simpl. by rewrite !app_assoc. Qed.

Lemma push_no_page st :
  set_wires (wires st ++ []) (set_pages (pages st ++ []) st) = st.
Proof. destruct st. unfold set_wires, set_pages. simpl. by rewrite !app_nil_r. Qed.

Section MachineFacts.
Variable ev : Type.
Variable begins : ev → option (list Byte.byte * raster num).
Variable act : list nat → ev → state num → state num.
Variable finish : state num → state num.
Variable target : ev → option nat.

Lemma resume_idle s t : Async.waiting s = [] → Async.resume finish t s = s.
Proof. intros Hw. unfold Async.resume. by rewrite Hw. Qed.

Lemma resumes_idle s n :
  Async.waiting s = [] → Async.run begins act finish s (replicate n (Async.Resume 0)) = s.
Proof.
  intros Hw. induction n as [|n IH]; [done|].
  unfold Async.run in *. simpl. by rewrite resume_idle.
Qed.

Lemma run_cons s e evs :
  Async.run begins act finish s (e :: evs)
  = Async.run begins act finish (Async.step begins act finish s e) evs.
Proof. reflexivity. Qed.

Lemma resume_push st wd k (v : num * num) rest (all : bool) :
  Async.resume finish 0 (Async.Session st wd [Async.Task k (v :: rest) all])
  = let st' := set_wires (wires st ++ [WireVars false None])
                 (set_pages (pages st ++ [overlay v]) st) in
    match rest, all with
    | [], true => Async.Session (finish st') (wd ++ [k]) []
    | _, _ => Async.Session st' (wd ++ [k]) [Async.Task (S k) rest all]
    end.
Proof. by destruct rest, all. Qed.

(** A call of [renderPdf] that nothing interrupts pushes the overlays of its
    pages one after the other, each wired with the index of its page, and
    repaints at the end when every page was rendered. *)
Lemma resumes_render st wd k (viewports : list (num * num)) (all : bool) n :
  (if all then Nat.max 1 (length viewports) else S (length viewports)) ≤ n →
  Async.run begins act finish (Async.Session st wd [Async.Task k viewports all])
      (replicate n (Async.Resume 0))
  = Async.Session
      ((if all then finish else id)
         (set_wires (wires st ++ ((λ _, WireVars false None) <$> viewports))
            (set_pages (pages st ++ (overlay <$> viewports)) st)))
      (wd ++ seq k (length viewports)) [].
Proof.
  revert st wd k n.
  induction viewports as [|v rest IH]; intros st wd k n Hn.
  - destruct n as [|n]; [destruct all; simpl in Hn; lia|].
    cbn [replicate]. rewrite run_cons.
    change (Async.step begins act finish ?s (Async.Resume 0))
      with (Async.resume finish 0 s).
    unfold Async.resume. cbn [Async.waiting Async.todo lookup list_lookup].
    rewrite resumes_idle by done. cbn [fmap list_fmap length seq].
    rewrite push_no_page, app_nil_r. by destruct all.
  - destruct n as [|n]; [destruct all; simpl in Hn; lia|].
    cbn [replicate]. rewrite run_cons.
    change (Async.step begins act finish ?s (Async.Resume 0))
      with (Async.resume finish 0 s).
    rewrite resume_push. cbv zeta.
    destruct rest as [|v' rest], all.
    + by rewrite resumes_idle.
    + etrans; [apply IH; simpl in *; lia|].
      by rewrite push_page_twice, <- app_assoc.
    + etrans; [apply IH; simpl in *; lia|].
      by rewrite push_page_twice, <- app_assoc.
    + etrans; [apply IH; simpl in *; lia|].
      by rewrite push_page_twice, <- app_assoc.
Qed.

(** A load that nothing interrupts, from its assignments to the end of its
    call of [renderPdf]. *)
Lemma uninterrupted_load s e bytes r n :
  begins e = Some (bytes, r) → Async.waiting s = [] → Async.steps r ≤ n →
  Async.run begins act finish s (Async.uninterrupted e n)
  = let st :=
      set_wires [] (set_pages []
        (set_history [] (set_annotations []
           (set_pdfBytes (Some bytes) (Async.now s))))) in
    match r with
    | OpenRejected => Async.Session st [] []
    | Opened viewports all =>
        Async.Session
          ((if all then finish else id)
             (set_wires ((λ _, WireVars false None) <$> viewports)
                (set_pages (overlay <$> viewports) st)))
          (seq 0 (length viewports)) []
    end.
Proof.
  intros Hb Hw Hn. unfold Async.uninterrupted. rewrite run_cons.
  unfold Async.step. rewrite Hb. unfold Async.begin. rewrite Hw.
  destruct r as [|viewports all]; cbn [app Async.task_of].
  - by rewrite (resumes_render _ _ _ [] false n).
  - rewrite (resumes_render _ _ _ viewports all n) by by destruct all.
    done.
Qed.

Hypothesis finish_placed : ∀ st, Place.placed st → Place.placed (finish st).
Hypothesis finish_pages : ∀ st, length (pages (finish st)) = length (pages st).
Hypothesis act_placed : ∀ st e,
  begins e = None → Place.placed st →
  (∀ k, target e = Some k → k < length (pages st)) →
  Place.placed (act (seq 0 (length (pages st))) e st) ∧
  length (pages (act (seq 0 (length (pages st))) e st)) = length (pages st).

Lemma step_orderly s e :
  Place.placed (Async.now s) → Async.aligned s →
  Async.orderly_event begins target s e →
  Place.placed (Async.now (Async.step begins act finish s e)) ∧
  Async.aligned (Async.step begins act finish s e).
Proof.
  destruct s as [st wd ws]. unfold Async.aligned. simpl.
  intros Hplaced [-> Hwaiting] He. destruct e as [e|t].
  - destruct He as [Hcalm Hon]. simpl in Hcalm, Hon. unfold Async.step.
    destruct (begins e) as [[bytes r]|] eqn:Hb.
    + rewrite (Hcalm ltac:(done)). unfold Async.begin. simpl.
      split; [apply placed_rejected|]. split; [done|]. right.
      destruct r as [|viewports all]; by eexists _, _.
    + destruct (act_placed st e Hb Hplaced Hon) as [Hplaced' Hpages].
      simpl. by rewrite Hpages.
  - change (Async.step begins act finish ?s (Async.Resume t))
      with (Async.resume finish t s).
    destruct Hwaiting as [->|(viewports & all & ->)].
    { rewrite resume_idle by done. simpl. by split; [|split; [|left]]. }
    destruct t as [|t].
    2: { unfold Async.resume. simpl. split; [done|]. split; [done|].
         right. by eexists _, _. }
    destruct viewports as [|v rest].
    + unfold Async.resume. simpl. destruct all.
      * split; [by apply finish_placed|]. rewrite finish_pages. by split; [|left].
      * by split; [|split; [|left]].
    + rewrite resume_push. cbv zeta.
      assert (Place.placed
                (set_wires (wires st ++ [WireVars false None])
                   (set_pages (pages st ++ [overlay v]) st)))
        as Hpushed by by apply placed_push_page.
      assert (length (pages (set_wires (wires st ++ [WireVars false None])
                               (set_pages (pages st ++ [overlay v]) st)))
              = S (length (pages st))) as Hlen.
      { simpl. rewrite length_app. simpl. lia. }
      assert (seq 0 (length (pages st)) ++ [length (pages st)]
              = seq 0 (S (length (pages st)))) as Hseq by by rewrite seq_S.
      destruct rest as [|v' rest], all; cbn [Async.now Async.wired Async.waiting].
      * split; [by apply finish_placed|].
        rewrite finish_pages, Hlen, Hseq. by split; [|left].
      * split; [done|]. rewrite Hlen, Hseq. split; [done|]. right. by eexists _, _.
      * split; [done|]. rewrite Hlen, Hseq. split; [done|]. right. by eexists _, _.
      * split; [done|]. rewrite Hlen, Hseq. split; [done|]. right. by eexists _, _.
Qed.

Lemma run_orderly s evs :
  Place.placed (Async.now s) → Async.aligned s →
  Async.orderly begins act finish target s evs →
  Place.placed (Async.now (Async.run begins act finish s evs)).
Proof.
  revert s. induction evs as [|e evs IH]; intros s Hplaced Haligned Hevs; [done|].
  destruct Hevs as [He Hevs].
  destruct (step_orderly s e Hplaced Haligned He) as [Hplaced' Haligned'].
  unfold Async.run. simpl. by apply IH.
Qed.

End MachineFacts.

(** *** The handlers of an orderly session *)

Lemma V1_handle_pages st e :
  V1Async.begins e = None → length (pages (V1.handle st e)) = length (pages st).
Proof.
  intros Hb.
  destruct e as [| | |bytes r|[bytes|] r|i e rect answer|i e rect|i e rect|];
    try done; simpl.
  - unfold V1.undo, Engine.undo. destruct (js_pop (history st)) as [[top older]|]; [|done].
    by rewrite redraw_length.
  - unfold V1.click. destruct (mode st), answer as [[|c s]|]; try done.
    unfold V1.redraw. by rewrite redraw_length.
  - unfold V1.mousedown. destruct (mode st); try done.
    by rewrite points_push_pages.
  - unfold V1.mousemove.
    destruct (wires st !! i) as [[[] [l|]]|], (mode st); try done.
    unfold V1.redraw. by rewrite redraw_length, points_push_pages.
Qed.

Lemma V1_act_placed st e :
  V1Async.begins e = None → Place.placed st →
  (∀ k, V1Async.target e = Some k → k < length (pages st)) →
  Place.placed (V1Async.act (seq 0 (length (pages st))) e st) ∧
  length (pages (V1Async.act (seq 0 (length (pages st))) e st)) = length (pages st).
Proof.
  intros Hb Hplaced Hon.
  assert (V1Async.act (seq 0 (length (pages st))) e st = V1.handle st e) as ->.
  { destruct e as [| | |bytes r|[bytes|] r|i e rect answer|i e rect|i e rect|];
      try done; simpl; by rewrite lookup_seq_lt by by apply Hon. }
  split; [|by apply V1_handle_pages].
  apply V1_handle_placed; [done|].
  destruct e; try done; by apply Hon.
Qed.

Lemma V2_handle_pages st e :
  V2Async.begins e = None →
  length (pages (V2Session.handle st e)) = length (pages st).
Proof.
  intros Hb.
  destruct e as [| | |[bytes|] r|i e rect answer|i e rect|i e rect|];
    try done; simpl.
  - unfold V2.undo, Engine.undo. destruct (js_pop (history st)) as [[top older]|]; [|done].
    by rewrite redraw_length.
  - unfold V2.click. destruct (mode st), answer as [[|c s]|]; try done.
    unfold V2.redraw. by rewrite redraw_length.
  - unfold V2.mousedown. by destruct (mode st).
  - unfold V2.mousemove.
    destruct (wires st !! i) as [[[] [l|]]|], (mode st); try done.
    unfold V2.redraw. by rewrite redraw_length, points_push_pages.
Qed.

Lemma V2_act_placed st e :
  V2Async.begins e = None → Place.placed st →
  (∀ k, V2Async.target e = Some k → k < length (pages st)) →
  Place.placed (V2Async.act (seq 0 (length (pages st))) e st) ∧
  length (pages (V2Async.act (seq 0 (length (pages st))) e st)) = length (pages st).
Proof.
  intros Hb Hplaced Hon.
  assert (V2Async.act (seq 0 (length (pages st))) e st = V2Session.handle st e) as ->.
  { destruct e as [| | |[bytes|] r|i e rect answer|i e rect|i e rect|];
      try done; simpl; by rewrite lookup_seq_lt by by apply Hon. }
  split; [|by apply V2_handle_pages].
  apply V2_handle_placed; [done|].
  destruct e; try done; by apply Hon.
Qed.

Lemma V3_handle_pages st e :
  V3Async.begins e = None →
  length (pages (V3Session.handle st e)) = length (pages st).
Proof.
  intros Hb.
  destruct e as [| | | |bytes r|[bytes|] r|tb i e rect answer|tb i e rect|i e rect|];
    try done; simpl.
  - unfold V3.undo, Engine.undo. destruct (js_pop (history st)) as [[top older]|]; [|done].
    by rewrite redraw_length.
  - unfold V3.click. by destruct (mode st), answer as [[|c s]|].
  - unfold V3.mousedown. destruct (mode st); try done;
      by rewrite points_push_pages.
  - unfold V3.mousemove.
    destruct (wires st !! i) as [[[] [l|]]|], (mode st); try done;
      unfold V3.redraw; by rewrite redraw_length, points_push_pages.
Qed.

Lemma V3_act_placed st e :
  V3Async.begins e = None → Place.placed st →
  (∀ k, V3Async.target e = Some k → k < length (pages st)) →
  Place.placed (V3Async.act (seq 0 (length (pages st))) e st) ∧
  length (pages (V3Async.act (seq 0 (length (pages st))) e st)) = length (pages st).
Proof.
  intros Hb Hplaced Hon.
  assert (V3Async.act (seq 0 (length (pages st))) e st = V3Session.handle st e) as ->.
  { destruct e as [| | | |bytes r|[bytes|] r|tb i e rect answer|tb i e rect|i e rect|];
      try done; simpl; by rewrite lookup_seq_lt by by apply Hon. }
  split; [|by apply V3_handle_pages].
  apply V3_handle_placed; [done|].
  destruct e; try done; by apply Hon.
Qed.

Lemma initial_aligned : Async.aligned (@V1Async.initial num).
Proof. split; [done|by left]. Qed.

(** First variant.  In a session where no load begins while another is
    still rendering, and the pointer events come from overlays that are in
    the viewer, whatever else is interleaved with the steps of the loads
    (clicks and strokes on the pages already rendered, undo, mode changes),
    every annotation of the store is on a page that is shown.  The export of
    such a session on a document with at least the pages shown saves the
    flattened document when the font encodes every text of the store,
    whatever [getPage] does with a missing page; and it raises, with nothing
    saved, when the store holds a text the font cannot encode. *)
Theorem V1_session_export_succeeds (evs : list (Async.event V1.event))
    (lib : missing_page) (doc : list (pdf_page num)) :
  V1Async.orderly V1Async.initial evs →
  let st := Async.now (V1Async.run V1Async.initial evs) in
  Forall (λ a, pageIndex a < length (pages st)) (Engine.view st) ∧
  (length (pages st) ≤ length doc → is_Some (pdfBytes st) →
   (Forall (λ a, drawable a = true) (Engine.view st) →
    V1.savePdf lib doc st
    = Saved (Flatten.flattened V1.export_ops (pages st) doc (Engine.view st))) ∧
   (Exists (λ a, drawable a = false) (Engine.view st) →
    V1.savePdf lib doc st = Throws)).
Proof.
  intros Hevs st.
  assert (Place.placed st) as Hplaced.
  { eapply (run_orderly _ _ _ V1.redraw V1Async.target);
      [apply (placed_redraw V1.paint)|apply (redraw_length V1.paint)
      |apply V1_act_placed|apply initial_placed|apply initial_aligned|exact Hevs]. }
  pose proof (placed_view st Hplaced) as Hview.
  split; [done|]. intros Hlen [bytes Hbytes].
  unfold V1.savePdf. rewrite Hbytes. split.
  - intros Hdrawn.
    destruct (V1_savePdf_loop_total lib (pages st) doc (Engine.view st))
      as [doc' Hloop]; [by eapply Forall_lt_le|done|].
    rewrite Hloop. f_equal. by eapply V1_savePdf_loop_flattened.
  - intros Hsome. rewrite V1_savePdf_loop_stops; [done| |done|done].
    by eapply Forall_lt_le.
Qed.

(** Second variant: the same.  Its export has no guard, and in such a
    session it needs none. *)
Theorem V2_session_export_succeeds (evs : list (Async.event V2Session.event))
    (lib : missing_page) (doc : list (pdf_page num)) :
  V2Async.orderly V2Async.initial evs →
  let st := Async.now (V2Async.run V2Async.initial evs) in
  Forall (λ a, pageIndex a < length (pages st)) (Engine.view st) ∧
  (length (pages st) ≤ length doc → is_Some (pdfBytes st) →
   (Forall (λ a, drawable a = true) (Engine.view st) →
    V2.savePdf lib doc st
    = Saved (Flatten.flattened V2.export_ops (pages st) doc (Engine.view st))) ∧
   (Exists (λ a, drawable a = false) (Engine.view st) →
    V2.savePdf lib doc st = Throws)).
Proof.
  intros Hevs st.
  assert (Place.placed st) as Hplaced.
  { eapply (run_orderly _ _ _ id V2Async.target);
      [done|done|apply V2_act_placed|apply initial_placed
      |apply initial_aligned|exact Hevs]. }
  pose proof (placed_view st Hplaced) as Hview.
  split; [done|]. intros Hlen [bytes Hbytes].
  unfold V2.savePdf. rewrite Hbytes. split.
  - intros Hdrawn.
    destruct (V2_savePdf_loop_total lib (pages st) doc (Engine.view st))
      as [doc' Hloop]; [by eapply Forall_lt_le|done|done|].
    rewrite Hloop. f_equal. by eapply V2_savePdf_loop_flattened.
  - intros Hsome. by rewrite V2_savePdf_loop_stops.
Qed.

(** Third variant: the same as the first. *)
Theorem V3_session_export_succeeds (evs : list (Async.event V3Session.event))
    (lib : missing_page) (doc : list (pdf_page num)) :
  V3Async.orderly V3Async.initial evs →
  let st := Async.now (V3Async.run V3Async.initial evs) in
  Forall (λ a, pageIndex a < length (pages st)) (Engine.view st) ∧
  (length (pages st) ≤ length doc → is_Some (pdfBytes st) →
   (Forall (λ a, drawable a = true) (Engine.view st) →
    V3.savePdf lib doc st
    = Saved (Flatten.flattened V3.export_ops (pages st) doc (Engine.view st))) ∧
   (Exists (λ a, drawable a = false) (Engine.view st) →
    V3.savePdf lib doc st = Throws)).
Proof.
  intros Hevs st.
  assert (Place.placed st) as Hplaced.
  { eapply (run_orderly _ _ _ V3.redraw V3Async.target);
      [apply (placed_redraw V3.paint)|apply (redraw_length V3.paint)
      |apply V3_act_placed|apply initial_placed|apply initial_aligned|exact Hevs]. }
  pose proof (placed_view st Hplaced) as Hview.
  split; [done|]. intros Hlen [bytes Hbytes].
  rewrite V3_savePdf_is_V1, V3_export_is_V1.
  unfold V1.savePdf. rewrite Hbytes. split.
  - intros Hdrawn.
    destruct (V1_savePdf_loop_total lib (pages st) doc (Engine.view st))
      as [doc' Hloop]; [by eapply Forall_lt_le|done|].
    rewrite Hloop. f_equal. by eapply V1_savePdf_loop_flattened.
  - intros Hsome. rewrite V1_savePdf_loop_stops; [done| |done|done].
    by eapply Forall_lt_le.
Qed.

End SessionFacts.

Lemma V1_session_export_succeeds_witness :
  V1Async.orderly V1Async.initial Trace.a1 ∧
  V1.savePdf RaisesError [Sample.page_Q; Sample.page_Q]
    (Async.now (V1Async.run V1Async.initial Trace.a1))
  = Saved [PdfPage 612 792
             [DrawText "Hi" ((50 - 0) * (612 / 900))
                (792 - (100 - 0) * (792 / 1400) - 18) 18 (rgb 1 1 0)];
           PdfPage 612 792
             [DrawLine ((10 - 0) * (612 / 900)) (792 - (10 - 0) * (792 / 1400))
                ((20 - 0) * (612 / 900)) (792 - (30 - 0) * (792 / 1400))
                2 (rgb 0 1 0)]]%Q.
Proof.
  assert (V1Async.orderly V1Async.initial Trace.a1) as Hevs.
  { vm_compute. repeat split; try done; try (by intros [? [=]]);
      intros k [= <-]; lia. }
  split; [exact Hevs|].
  etrans;
    [apply (proj1 (proj2 (V1_session_export_succeeds Trace.a1 RaisesError
                            [Sample.page_Q; Sample.page_Q] Hevs)
                     ltac:(vm_compute; lia) ltac:(by eexists)));
     vm_compute; repeat constructor|].
  by vm_compute.
Defined.

Lemma V2_session_export_succeeds_witness :
  V2Async.orderly V2Async.initial Trace.a2 ∧
  V2.savePdf RaisesError [Sample.page_Q; Sample.page_Q]
    (Async.now (V2Async.run V2Async.initial Trace.a2))
  = Saved [PdfPage 612 792
             [DrawText "Hi" ((50 - 0) * (612 / 900))
                (792 - (100 - 0) * (792 / 1400) - 18) 18 (rgb 1 1 0)];
           PdfPage 612 792 []]%Q.
Proof.
  assert (V2Async.orderly V2Async.initial Trace.a2) as Hevs.
  { vm_compute. repeat split; try done; try (by intros [? [=]]);
      intros k [= <-]; lia. }
  split; [exact Hevs|].
  etrans;
    [apply (proj1 (proj2 (V2_session_export_succeeds Trace.a2 RaisesError
                            [Sample.page_Q; Sample.page_Q] Hevs)
                     ltac:(vm_compute; lia) ltac:(by eexists)));
     vm_compute; repeat constructor|].
  by vm_compute.
Defined.

Lemma V3_session_export_succeeds_witness :
  V3Async.orderly V3Async.initial Trace.a3 ∧
  V3.savePdf RaisesError [Sample.page_Q; Sample.page_Q]
    (Async.now (V3Async.run V3Async.initial Trace.a3))
  = Saved [PdfPage 612 792
             [DrawText "Hi" ((50 - 0) * (612 / 900))
                (792 - (100 - 0) * (792 / 1400) - 24) 24 (rgb 1 1 0)];
           PdfPage 612 792
             [DrawLine ((10 - 0) * (612 / 900)) (792 - (10 - 0) * (792 / 1400))
                ((20 - 0) * (612 / 900)) (792 - (30 - 0) * (792 / 1400))
                3 (rgb 0 1 0)]]%Q.
Proof.
  assert (V3Async.orderly V3Async.initial Trace.a3) as Hevs.
  { vm_compute. repeat split; try done; try (by intros [? [=]]);
      intros k [= <-]; lia. }
  split; [exact Hevs|].
  etrans;
    [apply (proj1 (proj2 (V3_session_export_succeeds Trace.a3 RaisesError
                            [Sample.page_Q; Sample.page_Q] Hevs)
                     ltac:(vm_compute; lia) ltac:(by eexists)));
     vm_compute; repeat constructor|].
  by vm_compute.
Defined.

(** Without that order the first property fails: when a load begins while
    another is rendering, an overlay of the first document can land in the
    viewer of the second and store an annotation with an index the second
    document has no page for.  The guarded export stops on it when [getPage]
    raises, and passes over it when [getPage] answers [undefined]; the
    export of the second variant raises. *)
Example overlapping_loads_dangle :
  let st := Async.now (V1Async.run V1Async.initial Trace.overlapping) in
  ¬ V1Async.orderly V1Async.initial Trace.overlapping ∧
  length (pages st) = 2 ∧
  Engine.view st = [Text 1 (50 - 0) (100 - 0) "Hi" (Some 18) None]%Q ∧
  V1.savePdf RaisesError [Sample.page_Q] st = Throws ∧
  V1.savePdf AnswersUndefined [Sample.page_Q] st = Saved [Sample.page_Q] ∧
  V2.savePdf AnswersUndefined [Sample.page_Q] st = Throws.
Proof.
  split_and!; try by vm_compute.
  intros (_ & _ & [Hcalm _] & _). by specialize (Hcalm ltac:(by eexists)).
Qed.

(** ** Edits and undo in the second and third variants *)

Section DragFacts.
Context {num : Type} `{!Number num} `{!Font}.
Implicit Types (st base : state num) (e : mouse_event num) (rect : dom_rect num).

(** The stroke object is pushed and the closure of page [i] holds it. *)
Lemma begun_framed base i obj :
  Engine.framed base i
    (set_wires
       (<[i := WireVars true (Some (length (heap base)))]>
          (wires (Engine.annotations_push obj base)))
       (Engine.annotations_push obj base)).
Proof.
  split_and!; [done|simpl; by apply prefix_app_r|].
  intros w l. cbn [wires set_wires Engine.annotations_push set_annotations set_heap].
  destruct (decide (i < length (wires base))) as [Hi|Hi].
  - rewrite list_lookup_insert_eq by done. intros [= <-] [= <-]. done.
  - rewrite list_insert_ge by lia. rewrite lookup_ge_None_2 by lia. done.
Qed.

Lemma V2_mousedown_framed st i e rect :
  mode st = DrawMode →
  Engine.framed (Engine.pushHistory st) i (V2.mousedown i e rect st).
Proof. intros Hm. unfold V2.mousedown. rewrite Hm. apply begun_framed. Qed.

Lemma V3_mousedown_framed tb st i e rect :
  mode st ≠ TextMode →
  Engine.framed (Engine.pushHistory st) i (V3.mousedown tb i e rect st).
Proof.
  intros Hm. unfold V3.mousedown.
  destruct (mode st); [done| |];
    (apply framed_points_push; [apply begun_framed|done]).
Qed.

Lemma V2_mousemove_framed base st i e rect :
  Engine.framed base i st → Engine.framed base i (V2.mousemove i e rect st).
Proof.
  intros Hf. unfold V2.mousemove.
  destruct (wires st !! i) as [[[] [l|]]|] eqn:Hw; try done.
  destruct (mode st); try done.
  apply framed_redraw, framed_points_push; [done|].
  destruct Hf as (_ & _ & Hl). by eapply Hl.
Qed.

Lemma V3_mousemove_framed base st i e rect :
  Engine.framed base i st → Engine.framed base i (V3.mousemove i e rect st).
Proof.
  intros Hf. unfold V3.mousemove.
  destruct (wires st !! i) as [[[] [l|]]|] eqn:Hw; try done.
  destruct (mode st); try done;
    (apply framed_redraw, framed_points_push; [done|];
     destruct Hf as (_ & _ & Hl); by eapply Hl).
Qed.

Lemma V1_drag_framed st i e rect moves :
  mode st = DrawMode →
  Engine.framed (Engine.pushHistory st) i (Drag.v1 i e rect moves st).
Proof.
  intros Hm. unfold Drag.v1.
  assert (∀ s, Engine.framed (Engine.pushHistory st) i s →
               Engine.framed (Engine.pushHistory st) i
                 (foldl (λ st m, V1.mousemove i m.1 m.2 st) s moves)) as Hmoves.
  { induction moves as [|m moves IH]; intros s Hs; [done|].
    simpl. by apply IH, V1_mousemove_framed. }
  by apply Hmoves, V1_mousedown_framed.
Qed.

Lemma V2_drag_framed st i e rect moves :
  mode st = DrawMode →
  Engine.framed (Engine.pushHistory st) i (Drag.v2 i e rect moves st).
Proof.
  intros Hm. unfold Drag.v2.
  assert (∀ s, Engine.framed (Engine.pushHistory st) i s →
               Engine.framed (Engine.pushHistory st) i
                 (foldl (λ st m, V2.mousemove i m.1 m.2 st) s moves)) as Hmoves.
  { induction moves as [|m moves IH]; intros s Hs; [done|].
    simpl. by apply IH, V2_mousemove_framed. }
  by apply Hmoves, V2_mousedown_framed.
Qed.

Lemma V3_drag_framed tb st i e rect moves :
  mode st ≠ TextMode →
  Engine.framed (Engine.pushHistory st) i (Drag.v3 tb i e rect moves st).
Proof.
  intros Hm. unfold Drag.v3.
  assert (∀ s, Engine.framed (Engine.pushHistory st) i s →
               Engine.framed (Engine.pushHistory st) i
                 (foldl (λ st m, V3.mousemove i m.1 m.2 st) s moves)) as Hmoves.
  { induction moves as [|m moves IH]; intros s Hs; [done|].
    simpl. by apply IH, V3_mousemove_framed. }
  by apply Hmoves, V3_mousedown_framed.
Qed.

(** Second variant: undo right after a click in text mode, whatever the
    prompt was answered, or after a stroke dragged over any number of
    points, brings the store back as it read before. *)
Theorem V2_undo_inverts_edit (st : state num) (i : nat) (e : mouse_event num)
    (rect : dom_rect num) (answer : option string)
    (moves : list (mouse_event num * dom_rect num)) :
  (mode st = TextMode →
   Engine.view (V2.undo (V2.click i e rect answer st)) = Engine.view st) ∧
  (mode st = DrawMode →
   Engine.view (V2.undo (Drag.v2 i e rect moves st)) = Engine.view st ∧
   Engine.view (V2.undo (V2.mouseup (Drag.v2 i e rect moves st))) = Engine.view st).
Proof.
  split.
  - intros Hm. unfold V2.undo. apply undo_restores.
    + unfold V2.click. rewrite Hm. by destruct answer as [[|c s]|].
    + unfold V2.click. rewrite Hm.
      destruct answer as [[|c s]|]; try done. simpl. by apply prefix_app_r.
  - intros Hm.
    destruct (V2_drag_framed st i e rect moves Hm) as (Hh & Hpre & _).
    split; unfold V2.undo; by apply undo_restores.
Qed.

(** Third variant: undo right after a text was typed, or after a stroke was
    dragged in draw or in eraser mode, brings the store back as it read
    before. *)
Theorem V3_undo_inverts_edit (tb : toolbar num) (st : state num) (i : nat)
    (e : mouse_event num) (rect : dom_rect num) (c : Ascii.ascii) (s : string)
    (moves : list (mouse_event num * dom_rect num)) :
  (mode st = TextMode →
   Engine.view (V3.undo (V3.click tb i e rect (Some (String c s)) st))
   = Engine.view st) ∧
  (mode st ≠ TextMode →
   Engine.view (V3.undo (Drag.v3 tb i e rect moves st)) = Engine.view st ∧
   Engine.view (V3.undo (V3.mouseup (Drag.v3 tb i e rect moves st)))
   = Engine.view st).
Proof.
  split.
  - intros Hm. unfold V3.undo. apply undo_restores.
    + unfold V3.click. by rewrite Hm.
    + unfold V3.click. rewrite Hm. simpl. by apply prefix_app_r.
  - intros Hm.
    destruct (V3_drag_framed tb st i e rect moves Hm) as (Hh & Hpre & _).
    split; unfold V3.undo; by apply undo_restores.
Qed.

(** A move that writes to an object allocated after the objects of the
    store leaves the store as it reads. *)
Lemma detached_points_push st n l pt :
  Forall (λ r, r < n) (annotations st) → n ≤ l →
  Engine.view (Engine.points_push l pt st) = Engine.view st.
Proof.
  intros Hbelow Hl. unfold Engine.view. rewrite points_push_annotations.
  induction Hbelow as [|r arr Hr _ IH]; [done|].
  simpl. f_equal; [|done].
  unfold Engine.points_push.
  destruct (heap st !! l) as [[|j pts w c']|]; try done.
  simpl. unfold Engine.deref. rewrite list_lookup_insert_ne by lia. done.
Qed.

Lemma V1_mousemove_cases st i e rect :
  V1.mousemove i e rect st = st ∨
  ∃ l, wires st !! i = Some (WireVars true (Some l)) ∧
       V1.mousemove i e rect st
       = V1.redraw (Engine.points_push l (V1.local e rect) st).
Proof.
  unfold V1.mousemove.
  destruct (wires st !! i) as [[[] [l|]]|]; try by left.
  destruct (mode st); try by left.
  right. by exists l.
Qed.

(** First variant: undo pressed while the button is still down.  The store
    is restored, and the moves that follow on that page write to the stroke
    that is no longer in the store: the store stays as restored. *)
Theorem V1_undo_detaches_stroke (st : state num) (i : nat) (e : mouse_event num)
    (rect : dom_rect num) (moves after : list (mouse_event num * dom_rect num)) :
  mode st = DrawMode →
  Engine.view
    (foldl (λ st m, V1.mousemove i m.1 m.2 st)
       (V1.undo (Drag.v1 i e rect moves st)) after)
  = Engine.view st.
Proof.
  intros Hm.
  destruct (V1_drag_framed st i e rect moves Hm) as (Hh & Hpre & Hw).
  set (dragged := Drag.v1 i e rect moves st) in *.
  set (base := Engine.pushHistory st) in *.
  rewrite <- (undo_restores V1.paint st dragged Hh Hpre).
  assert (history dragged = Engine.kept (history st)
            ++ [(Engine.structuredClone (heap st) (annotations st)).2]) as Hh'.
  { rewrite Hh. unfold base. by rewrite pushHistory_history, push_bounded_snoc. }
  assert (∀ s,
    Forall (λ r, r < length (heap base)) (annotations s) →
    (∀ w l, wires s !! i = Some w → stroke w = Some l → length (heap base) ≤ l) →
    Engine.view (foldl (λ st m, V1.mousemove i m.1 m.2 st) s after)
    = Engine.view s) as Hafter.
  { induction after as [|m after IH]; intros s Hbelow Hwire; [done|].
    simpl.
    destruct (V1_mousemove_cases s i m.1 m.2) as [->|(l & Hws & ->)];
      [by apply IH|].
    rewrite IH.
    - unfold V1.redraw. rewrite redraw_view.
      eapply detached_points_push; [exact Hbelow|]. by eapply Hwire.
    - change (annotations (V1.redraw ?x)) with (annotations x).
      by rewrite points_push_annotations.
    - change (wires (V1.redraw ?x)) with (wires x).
      by rewrite points_push_wires. }
  apply Hafter.
  - unfold V1.undo, Engine.undo. rewrite Hh', js_pop_snoc. simpl.
    apply (structuredClone_fresh (heap st) (annotations st)).
  - unfold V1.undo, Engine.undo. rewrite Hh', js_pop_snoc. simpl. exact Hw.
Qed.

End DragFacts.

(** ** Moves without a stroke, modes, history slots, loading *)

Section HandlerFacts.
Context {num : Type} `{!Number num} `{!Font}.
Implicit Types (st : state num) (e : mouse_event num) (rect : dom_rect num).

Lemma idle_lookup st i w :
  Forall (λ w, drawing w = false) (wires st) → wires st !! i = Some w →
  drawing w = false.
Proof. intros Hidle Hw. by eapply Forall_lookup_1 in Hidle. Qed.

Lemma V1_mousemove_idle st i e rect :
  Forall (λ w, drawing w = false) (wires st) → V1.mousemove i e rect st = st.
Proof.
  intros Hidle. unfold V1.mousemove.
  destruct (wires st !! i) as [[[] l]|] eqn:Hw; try done.
  by apply (idle_lookup st i _ Hidle) in Hw.
Qed.

Lemma V2_mousemove_idle st i e rect :
  Forall (λ w, drawing w = false) (wires st) → V2.mousemove i e rect st = st.
Proof.
  intros Hidle. unfold V2.mousemove.
  destruct (wires st !! i) as [[[] l]|] eqn:Hw; try done.
  by apply (idle_lookup st i _ Hidle) in Hw.
Qed.

Lemma V3_mousemove_idle st i e rect :
  Forall (λ w, drawing w = false) (wires st) → V3.mousemove i e rect st = st.
Proof.
  intros Hidle. unfold V3.mousemove.
  destruct (wires st !! i) as [[[] l]|] eqn:Hw; try done.
  by apply (idle_lookup st i _ Hidle) in Hw.
Qed.

(** Once the button is released, the mouse moving over any pages changes
    nothing: no point is added to the stroke that was drawn, or to any
    other, and nothing is repainted, until the next pointer down. *)
Theorem mouseup_ends_stroke (st : state num)
    (moves : list (nat * mouse_event num * dom_rect num)) :
  Drag.moves1 (V1.mouseup st) moves = V1.mouseup st ∧
  Drag.moves2 (V2.mouseup st) moves = V2.mouseup st ∧
  Drag.moves3 (V3.mouseup st) moves = V3.mouseup st.
Proof.
  assert (∀ (f : wire_vars → wire_vars),
            (∀ w, drawing (f w) = false) →
            Forall (λ w, drawing w = false) (f <$> wires st)) as Hidle.
  { intros f Hf. apply Forall_fmap, Forall_forall. intros w _. apply Hf. }
  split_and!.
  - induction moves as [|m moves IH]; [done|].
    unfold Drag.moves1 in *. simpl.
    rewrite V1_mousemove_idle; [done|]. by apply Hidle.
  - induction moves as [|m moves IH]; [done|].
    unfold Drag.moves2 in *. simpl.
    rewrite V2_mousemove_idle; [done|]. by apply Hidle.
  - induction moves as [|m moves IH]; [done|].
    unfold Drag.moves3 in *. simpl.
    rewrite V3_mousemove_idle; [done|]. by apply Hidle.
Qed.

(** One gesture takes one place in the history, however many points the
    drag has: the history after a stroke is the history after its pointer
    down. *)
Theorem gesture_takes_one_slot (st : state num) (i : nat) (g : V1.gesture)
    (e : mouse_event num) (rect : dom_rect num)
    (moves : list (mouse_event num * dom_rect num)) :
  length (history st) ≤ 50 →
  length (history (V1.perform i g st)) = Nat.min 50 (S (length (history st))) ∧
  history (V1.perform i (V1.DrawStroke e rect moves) st)
  = history (V1.perform i (V1.DrawStroke e rect []) st).
Proof.
  intros Hle.
  assert (∀ g', history (V1.perform i g' st)
                = Engine.push_bounded (history st)
                    (Engine.structuredClone (heap st) (annotations st)).2) as Hpush.
  { intros g'. by destruct (V1_perform_continues st i g') as (m & -> & _). }
  split.
  - by rewrite Hpush, push_bounded_length.
  - by rewrite !Hpush.
Qed.

Lemma redraw_empty_store (paint : annotation num → canvas_op num) st :
  annotations st = [] → Forall (λ p, annoCtx p = []) (pages st) →
  Engine.redraw paint st = st.
Proof.
  intros Ha Hp. unfold Engine.redraw, Engine.view. rewrite Ha. simpl.
  assert (Engine.clearRect <$> pages st = pages st) as ->.
  { induction Hp as [|p pgs Hops _ IH]; [done|].
    rewrite fmap_cons, IH. f_equal. destruct p; simpl in *. by subst. }
  by destruct st.
Qed.

Lemma V1_loadFile_closed (bytes : list Byte.byte) (r : raster num) st :
  V1.loadFile (Some bytes) r st
  = State (mode st) (Some bytes)
      (overlay
         <$> match r with OpenRejected => [] | Opened vps _ => vps end)
      [] [] (heap st)
      ((λ _, WireVars false None)
         <$> match r with OpenRejected => [] | Opened vps _ => vps end).
Proof.
  unfold V1.loadFile, V1.renderPdf. destruct r as [|vps []]; try done.
  unfold V1.redraw. rewrite redraw_empty_store; [done|done|].
  simpl. apply Forall_fmap, Forall_forall. by intros v _.
Qed.

Lemma V2_loadFile_is_V1 (file : option (list Byte.byte)) (r : raster num) st :
  V2.loadFile file r st = V1.loadFile file r st.
Proof.
  destruct file as [bytes|]; [|done]. rewrite V1_loadFile_closed.
  unfold V2.loadFile, V2.renderPdf. by destruct r as [|vps []].
Qed.

Lemma V3_loadFile_closed (bytes : list Byte.byte) (r : raster num) st :
  V3Session.loadFile (Some bytes) r st
  = State (mode st) (Some bytes)
      (overlay
         <$> match r with OpenRejected => [] | Opened vps _ => vps end)
      [] [] (heap st)
      ((λ _, WireVars false None)
         <$> match r with OpenRejected => [] | Opened vps _ => vps end).
Proof.
  unfold V3Session.loadFile, V3Session.renderPdf. destruct r as [|vps []]; try done.
  unfold V3.redraw. rewrite redraw_empty_store; [done|done|].
  simpl. apply Forall_fmap, Forall_forall. by intros v _.
Qed.

Lemma V3_loadFile_is_V1 (file : option (list Byte.byte)) (r : raster num) st :
  V3Session.loadFile file r st = V1.loadFile file r st.
Proof.
  destruct file as [bytes|]; [|done].
  by rewrite V3_loadFile_closed, V1_loadFile_closed.
Qed.

(** A load that nothing interrupts.  Run step by step (the assignments of
    [loadFile] or [createNewPdf], then [renderPdf] one page at a time) it
    ends in the state [loadFile] computes in one go, with every overlay wired
    with its position and no call left waiting: the store and the history
    are empty, the mode is kept, and the overlays are those of the pages
    rendered, nothing painted on them, each of the size its canvas took from
    the viewport, which is the integer part of the viewport's size (892 for
    the 892.5 of an A4 page created by the New button).  The three variants
    end in the same state, and undo right after has nothing to undo. *)
Theorem load_starts_afresh (bytes : list Byte.byte) (r : raster num)
    (s : Async.session num) (n : nat) :
  Async.waiting s = [] → Async.steps r ≤ n →
  let viewports := match r with OpenRejected => [] | Opened vps _ => vps end in
  let st' := V1.loadFile (Some bytes) r (Async.now s) in
  let loaded := Async.Session st' (seq 0 (length viewports)) [] in
  V1Async.run s (Async.uninterrupted (V1.FileChosen (Some bytes) r) n) = loaded ∧
  V1Async.run s (Async.uninterrupted (V1.NewBtn bytes r) n) = loaded ∧
  V2Async.run s (Async.uninterrupted (V2Session.FileChosen (Some bytes) r) n)
  = loaded ∧
  V3Async.run s (Async.uninterrupted (V3Session.FileChosen (Some bytes) r) n)
  = loaded ∧
  V3Async.run s (Async.uninterrupted (V3Session.NewBtn bytes r) n) = loaded ∧
  st' = State (mode (Async.now s)) (Some bytes) (overlay <$> viewports)
              [] [] (heap (Async.now s))
              ((λ _, WireVars false None) <$> viewports) ∧
  V1.undo st' = st' ∧ V2.undo st' = st' ∧ V3.undo st' = st' ∧
  overlay (892.5, 1263)%float = PageView 892%float 1263%float [] ∧
  overlay (1785 # 2, 1263)%Q = PageView 892%Q 1263%Q [].
Proof.
  intros Hw Hn. cbv zeta.
  assert (∀ finish : state num → state num,
            (∀ st, annotations st = [] →
                   Forall (λ p, annoCtx p = []) (pages st) → finish st = st) →
            (match r with
             | OpenRejected =>
                 Async.Session
                   (set_wires [] (set_pages []
                      (set_history [] (set_annotations []
                         (set_pdfBytes (Some bytes) (Async.now s)))))) [] []
             | Opened viewports all =>
                 Async.Session
                   ((if all then finish else id)
                      (set_wires ((λ _, WireVars false None) <$> viewports)
                         (set_pages (overlay <$> viewports)
                            (set_wires [] (set_pages []
                               (set_history [] (set_annotations []
                                  (set_pdfBytes (Some bytes) (Async.now s)))))))))
                   (seq 0 (length viewports)) []
             end)
            = Async.Session (V1.loadFile (Some bytes) r (Async.now s))
                (seq 0 (length match r with
                                | OpenRejected => []
                                | Opened vps _ => vps
                                end)) []) as Hclosed.
  { intros finish Hfinish. rewrite V1_loadFile_closed.
    destruct r as [|viewports []]; try done.
    rewrite Hfinish; [done|done|].
    simpl. apply Forall_fmap, Forall_forall. by intros v _. }
  split_and!.
  - unfold V1Async.run.
    rewrite (uninterrupted_load _ _ _ _ s _ bytes r n) by done.
    apply Hclosed, redraw_empty_store.
  - unfold V1Async.run.
    rewrite (uninterrupted_load _ _ _ _ s _ bytes r n) by done.
    apply Hclosed, redraw_empty_store.
  - unfold V2Async.run.
    rewrite (uninterrupted_load _ _ _ _ s _ bytes r n) by done.
    by apply Hclosed.
  - unfold V3Async.run.
    rewrite (uninterrupted_load _ _ _ _ s _ bytes r n) by done.
    apply Hclosed, redraw_empty_store.
  - unfold V3Async.run.
    rewrite (uninterrupted_load _ _ _ _ s _ bytes r n) by done.
    apply Hclosed, redraw_empty_store.
  - apply V1_loadFile_closed.
  - by rewrite V1_loadFile_closed.
  - by rewrite V1_loadFile_closed.
  - by rewrite V1_loadFile_closed.
  - by vm_compute.
  - by vm_compute.
Qed.


End HandlerFacts.

(** ** Files and new documents *)

Section StringFacts.

Lemma string_length_app (s t : string) :
  String.length (s +:+ t) = String.length s + String.length t.
Proof. induction s as [|c s IH]; simpl; [done|]. by rewrite IH. Qed.

Lemma substring_app_skip (s t : string) (m : nat) :
  String.substring (String.length s) m (s +:+ t) = String.substring 0 m t.
Proof. induction s as [|c s IH]; simpl; [done|]. exact IH. Qed.

Lemma substring_whole (t : string) :
  String.substring 0 (String.length t) t = t.
Proof. induction t as [|c t IH]; simpl; [done|]. by rewrite IH. Qed.

Lemma toLowerCase_app (s t : string) :
  Files.toLowerCase (s +:+ t) = Files.toLowerCase s +:+ Files.toLowerCase t.
Proof. induction s as [|c s IH]; simpl; [done|]. by rewrite IH. Qed.

Lemma endsWith_app (s t : string) : Files.endsWith (s +:+ t) t = true.
Proof.
  unfold Files.endsWith. rewrite string_length_app.
  replace (String.length s + String.length t - String.length t)
    with (String.length s) by lia.
  rewrite substring_app_skip, substring_whole, String.eqb_refl.
  rewrite andb_true_r. apply Nat.leb_le. lia.
Qed.

Lemma upper_char_A (c : Ascii.ascii) :
  Files.upper_char c = "A"%char → c = "A"%char ∨ c = "a"%char.
Proof.
  destruct c as [[] [] [] [] [] [] [] []]; vm_compute; intros H;
    try discriminate H; auto.
Qed.

Lemma upper_char_4 (c : Ascii.ascii) :
  Files.upper_char c = "4"%char → c = "4"%char.
Proof.
  destruct c as [[] [] [] [] [] [] [] []]; vm_compute; intros H;
    try discriminate H; auto.
Qed.

Lemma toUpperCase_A4 (s : string) :
  Files.toUpperCase s = "A4" ↔ s = "A4" ∨ s = "a4".
Proof.
  split.
  - destruct s as [|c1 [|c2 [|c3 s]]]; simpl; try discriminate.
    intros [= H1 H2].
    apply upper_char_A in H1 as [->| ->]; apply upper_char_4 in H2 as ->; auto.
  - by intros [->| ->].
Qed.

End StringFacts.

Section FileFacts.
Context {num : Type} `{!Number num} `{!Font}.

(** A dropped file that is neither of type application/pdf nor named with
    the extension .pdf (in any letter case) changes nothing, in either
    variant; the first variant says so, the second is silent.  A name with
    the extension is enough for the first variant, whatever the type; the
    second looks at the type only.  What the second variant's drop loads, the
    first variant's drop loads to the same state.  The file input does not
    look at the file: once the bytes of any chosen file are read, the store
    and the history are empty. *)
Theorem dropped_and_chosen_files (f : Files.file) (r : raster num)
    (st : state num) :
  (Files.isPdf f = false →
   Files.drop1 (Some f) r st = (st, Some "Please drop a PDF file.") ∧
   Files.drop2 (Some f) r st = st) ∧
  (∀ base ext, Files.toLowerCase ext = ".pdf" →
     Files.file_name f = base +:+ ext →
     Files.drop1 (Some f) r st = (V1.loadFile (Files.arrayBuffer f) r st, None)) ∧
  (Files.file_type f ≠ "application/pdf" → Files.drop2 (Some f) r st = st) ∧
  (Files.file_type f = "application/pdf" →
   (Files.drop1 (Some f) r st).1 = Files.drop2 (Some f) r st) ∧
  (∀ bytes, Files.arrayBuffer f = Some bytes →
     annotations (Files.change1 (Some f) r st) = [] ∧
     history (Files.change1 (Some f) r st) = [] ∧
     Files.change2 (Some f) r st = Files.change1 (Some f) r st) ∧
  Files.drop1 None r st = (st, None) ∧ Files.change1 None r st = st.
Proof.
  pose proof (λ file, V2_loadFile_is_V1 (num:=num) file r st) as Hsame.
  split_and!.
  - intros Hno. unfold Files.drop1, Files.drop2. rewrite Hno.
    unfold Files.isPdf in Hno. apply orb_false_iff in Hno as [-> _]. done.
  - intros base ext Hext Hname. unfold Files.drop1, Files.isPdf.
    by rewrite Hname, toLowerCase_app, Hext, endsWith_app, orb_true_r.
  - intros Htype. unfold Files.drop2.
    by apply String.eqb_neq in Htype as ->.
  - intros Htype. unfold Files.drop1, Files.drop2, Files.isPdf.
    rewrite Htype. simpl. by rewrite Hsame.
  - intros bytes Hbytes. unfold Files.change1, Files.change2.
    rewrite Hsame, Hbytes, V1_loadFile_closed. done.
  - done.
  - done.
Qed.

End FileFacts.

Section NewPdfFacts.
Variable blank : Q * Q.

(** The pages of the document [createNewPdf] makes.  When the answer to the
    first prompt parses to [n] (up to [2 ^ 53], where the loop counter stops
    being exact) they are [max 1 n] pages of the size chosen; when it does
    not parse, [Math.max(1, NaN)] is [NaN], the loop adds nothing, and the
    document has the one page the library adds when it saves a document
    without pages, of the library's size and not of the size chosen; when
    the prompt is cancelled or left empty it is one page of the size chosen.
    The size chosen is A4 exactly when the second answer is ["A4"] or
    ["a4"], and Letter for any other answer, a cancelled prompt included.
    [parseInt] skips white space, reads a sign and stops at the first
    character that is no digit. *)
Theorem new_document_pages (count size : option string) :
  (∀ n, NewPdf.parseInt10 (NewPdf.answer_or count "1") = Some n → (n ≤ 2 ^ 53)%Z →
     NewPdf.saved_pages blank count size
     = replicate (Z.to_nat (Z.max 1 n)) (NewPdf.dims size) ∧
     1 ≤ Z.to_nat (Z.max 1 n)) ∧
  (NewPdf.parseInt10 (NewPdf.answer_or count "1") = None →
   NewPdf.added_pages count size = [] ∧
   NewPdf.saved_pages blank count size = [blank]) ∧
  (prompt_falsy count = true →
   NewPdf.saved_pages blank count size = [NewPdf.dims size]) ∧
  (NewPdf.dims size = (595, 842)%Q ↔ size = Some "A4" ∨ size = Some "a4") ∧
  (NewPdf.dims size ≠ (595, 842)%Q → NewPdf.dims size = (612, 792)%Q) ∧
  NewPdf.parseInt10 "-5" = Some (-5)%Z ∧ NewPdf.parseInt10 " 7" = Some 7%Z ∧
  NewPdf.parseInt10 "+2" = Some 2%Z ∧ NewPdf.parseInt10 "3 pages" = Some 3%Z ∧
  NewPdf.parseInt10 "1e3" = Some 1%Z ∧ NewPdf.parseInt10 "three" = None ∧
  NewPdf.parseInt10 "- 5" = None ∧ NewPdf.parseInt10 " " = None.
Proof.
  assert (∀ n, 1 ≤ Z.to_nat (Z.max 1 n)) as Hpos by (intros n; lia).
  split_and!; [| | | | |by vm_compute..].
  - intros n Hn _. split; [|done].
    unfold NewPdf.saved_pages, NewPdf.added_pages, NewPdf.pagesCount. rewrite Hn.
    specialize (Hpos n). by destruct (Z.to_nat (Z.max 1 n)); [lia|].
  - intros Hn. unfold NewPdf.saved_pages, NewPdf.added_pages, NewPdf.pagesCount.
    by rewrite Hn.
  - intros Hcancel. by destruct count as [[|c s]|].
  - unfold NewPdf.dims.
    destruct (String.eqb_spec (Files.toUpperCase (NewPdf.answer_or size "LETTER")) "A4")
      as [Heq|Hne].
    + split; [intros _|done].
      apply toUpperCase_A4 in Heq.
      destruct size as [[|c s]|]; simpl in Heq;
        destruct Heq as [Heq|Heq]; try discriminate Heq; rewrite Heq; auto.
    + split; [done|]. intros Hsize. exfalso. apply Hne.
      by destruct Hsize as [->| ->].
  - unfold NewPdf.dims. by case_match.
Qed.

End NewPdfFacts.

(** ** Snapshots are never written to *)

Section SealFacts.
Context {num : Type}.
Variable paint : annotation num → canvas_op num.
Implicit Types (st : state num) (arr : list nat).

Lemma sealed_grow st st' arr :
  length (heap st) ≤ length (heap st') → wires st' = wires st →
  Seal.sealed st arr → Seal.sealed st' arr.
Proof.
  intros Hlen Hw [Hvalid Hfree]. split; [|by rewrite Hw].
  by eapply refs_valid_mono.
Qed.

Lemma handles_grow st st' :
  length (heap st) ≤ length (heap st') → wires st' = wires st →
  Forall (λ w, ∀ l, stroke w = Some l → l < length (heap st)) (wires st) →
  Forall (λ w, ∀ l, stroke w = Some l → l < length (heap st')) (wires st').
Proof.
  intros Hlen Hw Hall. rewrite Hw. eapply Forall_impl; [exact Hall|].
  intros w Hl l Hs. specialize (Hl l Hs). lia.
Qed.

Lemma pushHistory_length st :
  length (heap st) ≤ length (heap (Engine.pushHistory st)).
Proof. rewrite pushHistory_heap. simpl. rewrite length_app. lia. Qed.

Lemma points_push_length st l pt :
  length (heap (Engine.points_push l pt st)) = length (heap st).
Proof.
  unfold Engine.points_push. repeat case_match; try done.
  simpl. by rewrite length_insert.
Qed.

Lemma good_pushHistory st : Seal.good st → Seal.good (Engine.pushHistory st).
Proof.
  intros [Hhandles Hsealed]. split.
  - by apply (handles_grow st); [apply pushHistory_length|done|].
  - rewrite pushHistory_history, push_bounded_snoc. apply Forall_app. split.
    + apply kept_valid. eapply Forall_impl; [exact Hsealed|].
      intros arr. by apply sealed_grow; [apply pushHistory_length|].
    + apply Forall_singleton. split.
      * rewrite pushHistory_heap. apply structuredClone_fresh.
      * eapply Forall_impl; [exact Hhandles|].
        intros w Hl l Hs Hin. specialize (Hl l Hs).
        simpl in Hin. apply elem_of_seq in Hin. lia.
Qed.

Lemma annotations_push_length st (obj : annotation num) :
  length (heap (Engine.annotations_push obj st)) = S (length (heap st)).
Proof. unfold Engine.annotations_push. simpl. rewrite length_app. simpl. lia. Qed.

Lemma good_annotations_push st obj :
  Seal.good st → Seal.good (Engine.annotations_push obj st).
Proof.
  intros [Hhandles Hsealed].
  assert (length (heap st) ≤ length (heap (Engine.annotations_push obj st)))
    as Hlen by (simpl; rewrite length_app; lia).
  split.
  - by apply (handles_grow st).
  - eapply Forall_impl; [exact Hsealed|]. intros arr. by apply sealed_grow.
Qed.

Lemma good_points_push st l pt :
  Seal.good st → Seal.good (Engine.points_push l pt st).
Proof.
  intros [Hhandles Hsealed].
  assert (length (heap st) ≤ length (heap (Engine.points_push l pt st)))
    as Hlen by by rewrite points_push_length.
  split.
  - apply (handles_grow st); [done|apply points_push_wires|done].
  - rewrite points_push_history.
    eapply Forall_impl; [exact Hsealed|]. intros arr.
    apply sealed_grow; [done|apply points_push_wires].
Qed.

Lemma good_undo st : Seal.good st → Seal.good (Engine.undo paint st).
Proof.
  intros Hgood. unfold Engine.undo.
  destruct (js_pop (history st)) as [[top older]|] eqn:Hpop; [|done].
  apply js_pop_Some in Hpop. destruct Hgood as [Hhandles Hsealed].
  rewrite Hpop in Hsealed. apply Forall_app in Hsealed as [Holder _].
  by split.
Qed.

(** The closure of page [i] takes a stroke that has just been allocated. *)
Lemma good_begin st i d l :
  l < length (heap st) → Forall (Forall (λ r, r < l)) (history st) →
  Seal.good st →
  Seal.good (set_wires (<[i := WireVars d (Some l)]> (wires st)) st).
Proof.
  intros Hl Hbelow [Hhandles Hsealed]. split; simpl.
  - apply Forall_insert; [done|]. by intros l' [= <-].
  - apply Forall_forall. intros arr Harr.
    pose proof (proj1 (Forall_forall _ _) Hsealed arr Harr) as [Hvalid Hfree].
    pose proof (proj1 (Forall_forall _ _) Hbelow arr Harr) as Harr_below.
    split; [done|]. simpl. apply Forall_insert; [done|].
    intros l' [= <-] Hin.
    pose proof (proj1 (Forall_forall _ _) Harr_below l Hin) as Hlt.
    simpl in Hlt. lia.
Qed.

Lemma sealed_begin st i d l arr :
  Forall (λ r, r < l) arr → Seal.sealed st arr →
  Seal.sealed (set_wires (<[i := WireVars d (Some l)]> (wires st)) st) arr.
Proof.
  intros Hbelow [Hvalid Hfree]. split; [done|]. simpl.
  apply Forall_insert; [done|]. intros l' [= <-] Hin.
  pose proof (proj1 (Forall_forall _ _) Hbelow l Hin) as Hlt.
  simpl in Hlt. lia.
Qed.

Lemma good_released st (f : wire_vars → wire_vars) :
  (∀ w l, stroke (f w) = Some l → stroke w = Some l) →
  Seal.good st → Seal.good (set_wires (f <$> wires st) st).
Proof.
  intros Hf [Hhandles Hsealed]. split; simpl.
  - apply Forall_fmap. eapply Forall_impl; [exact Hhandles|].
    intros w Hl l Hs. apply Hl, Hf, Hs.
  - eapply Forall_impl; [exact Hsealed|]. intros arr [Hvalid Hfree].
    split; [done|]. simpl. apply Forall_fmap.
    eapply Forall_impl; [exact Hfree|]. intros w Hl l Hs. apply Hl, Hf, Hs.
Qed.

Lemma sealed_released st (f : wire_vars → wire_vars) arr :
  (∀ w l, stroke (f w) = Some l → stroke w = Some l) →
  Seal.sealed st arr → Seal.sealed (set_wires (f <$> wires st) st) arr.
Proof.
  intros Hf [Hvalid Hfree]. split; [done|]. simpl. apply Forall_fmap.
  eapply Forall_impl; [exact Hfree|]. intros w Hl l Hs. apply Hl, Hf, Hs.
Qed.

(** A write through a reference that is not in [arr] is not seen in the
    objects of [arr]. *)
Lemma points_push_elsewhere st l pt arr :
  l ∉ arr →
  Engine.deref (heap (Engine.points_push l pt st)) <$> arr
  = Engine.deref (heap st) <$> arr.
Proof.
  intros Hl. apply list_fmap_ext. intros k r Hr.
  unfold Engine.points_push.
  destruct (heap st !! l) as [[|j pts w c]|]; try done.
  simpl. unfold Engine.deref. rewrite list_lookup_insert_ne; [done|].
  intros ->. apply Hl. by eapply list_elem_of_lookup_2.
Qed.

Lemma sealed_wire st arr i d l :
  Seal.sealed st arr → wires st !! i = Some (WireVars d (Some l)) → l ∉ arr.
Proof.
  intros [_ Hfree] Hw. by eapply (proj1 (Forall_lookup _ _) Hfree i _ Hw).
Qed.

End SealFacts.

Section SnapshotFacts.
Context {num : Type} `{!Number num} `{!Font}.
Implicit Types (st : state num) (arr : list nat).

Lemma V1_renderPdf_heap r st : heap (V1.renderPdf r st) = heap st.
Proof. unfold V1.renderPdf. by destruct r as [|vps []]. Qed.

Lemma V1_renderPdf_handles r st (w : wire_vars) :
  w ∈ wires (V1.renderPdf r st) → stroke w = None.
Proof.
  unfold V1.renderPdf. destruct r as [|vps []]; simpl;
    try (by intros ?%elem_of_nil);
    by intros (v & -> & _)%list_elem_of_fmap.
Qed.

Lemma V1_renderPdf_sealed r st arr :
  Forall (λ l, l < length (heap st)) arr → Seal.sealed (V1.renderPdf r st) arr.
Proof.
  intros Hvalid. split; [by rewrite V1_renderPdf_heap|].
  apply Forall_forall. intros w Hw l Hs.
  by rewrite (V1_renderPdf_handles r st w Hw) in Hs.
Qed.

Lemma V1_renderPdf_good r st :
  history st = [] → Seal.good (V1.renderPdf r st).
Proof.
  intros Hh. split.
  - apply Forall_forall. intros w Hw l Hs.
    by rewrite (V1_renderPdf_handles r st w Hw) in Hs.
  - rewrite V1_renderPdf_history, Hh. constructor.
Qed.

Lemma V1_handle_good st ev : Seal.good st → Seal.good (V1.handle st ev).
Proof.
  intros Hgood.
  destruct ev as [| | |bytes r|file r|i e rect answer|i e rect|i e rect|];
    simpl; try done.
  - by apply good_undo.
  - by apply V1_renderPdf_good.
  - destruct file; [|done]. by apply V1_renderPdf_good.
  - unfold V1.click. destruct (mode st), answer as [[|c s]|]; try done.
    by apply good_annotations_push, good_pushHistory.
  - unfold V1.mousedown. destruct (mode st); try done.
    apply good_points_push.
    pose proof (good_pushHistory st Hgood) as Hpushed.
    apply good_begin; [| |by apply good_annotations_push].
    + rewrite annotations_push_length. lia.
    + destruct Hpushed as [_ Hsealed].
      eapply Forall_impl; [exact Hsealed|]. by intros arr [Hvalid _].
  - destruct (V1_mousemove_cases st i e rect) as [->|(l & Hw & ->)]; [done|].
    by apply good_points_push.
  - by apply good_released.
Qed.

(** An array that is sealed stays sealed and reads the same after any
    event. *)
Lemma V1_handle_sealed st ev arr :
  Seal.sealed st arr →
  Seal.sealed (V1.handle st ev) arr ∧
  Engine.deref (heap (V1.handle st ev)) <$> arr = Engine.deref (heap st) <$> arr.
Proof.
  intros Hsealed. pose proof Hsealed as [Hvalid Hfree].
  assert (Seal.sealed (Engine.pushHistory st) arr) as Hpushed.
  { by apply (sealed_grow st); [apply pushHistory_length| |]. }
  assert (Engine.deref (heap (Engine.pushHistory st)) <$> arr
          = Engine.deref (heap st) <$> arr) as Hpushed_view.
  { apply view_prefix; [apply pushHistory_heap_prefix|done]. }
  destruct ev as [| | |bytes r|file r|i e rect answer|i e rect|i e rect|];
    simpl; try done.
  - unfold V1.undo, Engine.undo. by destruct (js_pop (history st)) as [[top older]|].
  - split; [by apply V1_renderPdf_sealed|]. unfold V1.createNewPdf.
    by rewrite V1_renderPdf_heap.
  - destruct file; [|done]. unfold V1.loadFile.
    split; [by apply V1_renderPdf_sealed|]. by rewrite V1_renderPdf_heap.
  - unfold V1.click. destruct (mode st), answer as [[|c s]|]; try done.
    split.
    + apply (sealed_grow (Engine.pushHistory st)); [|done|done].
      simpl. rewrite !length_app. lia.
    + rewrite <- Hpushed_view.
      apply view_prefix; [by apply prefix_app_r|by destruct Hpushed].
  - unfold V1.mousedown. destruct (mode st); try done.
    set (b := V1.pushHistory st) in *.
    set (s1 := Engine.annotations_push (Stroke i [] (Some num_2) None) b).
    assert (Seal.sealed s1 arr) as Hs1.
    { apply (sealed_grow b); [|done|done].
      unfold s1. rewrite annotations_push_length. lia. }
    assert (Seal.sealed
              (set_wires (<[i:=WireVars true (Some (length (heap b)))]> (wires s1)) s1)
              arr) as Hs2.
    { apply sealed_begin; [by destruct Hpushed|done]. }
    split.
    + eapply sealed_grow; [|apply points_push_wires|exact Hs2].
      by rewrite points_push_length.
    + rewrite points_push_elsewhere.
      * rewrite <- Hpushed_view. simpl.
        apply view_prefix; [by apply prefix_app_r|by destruct Hpushed].
      * intros Hin. destruct Hpushed as [Hvalid' _].
        pose proof (proj1 (Forall_forall _ _) Hvalid' _ Hin) as Hlt.
        simpl in Hlt. lia.
  - destruct (V1_mousemove_cases st i e rect) as [->|(l & Hw & ->)]; [done|].
    split.
    + apply (sealed_grow st); [|apply points_push_wires|done].
      change (length (heap st)
              ≤ length (heap (Engine.points_push l (V1.local e rect) st))).
      by rewrite points_push_length.
    + apply points_push_elsewhere. by eapply sealed_wire.
  - split; [|done]. by apply sealed_released.
Qed.

Lemma V1_run_good st evs : Seal.good st → Seal.good (V1.run st evs).
Proof.
  revert st. induction evs as [|ev evs IH]; intros st Hgood; [done|].
  simpl. by apply IH, V1_handle_good.
Qed.

Lemma V1_run_sealed st evs arr :
  Seal.sealed st arr →
  Engine.deref (heap (V1.run st evs)) <$> arr = Engine.deref (heap st) <$> arr.
Proof.
  revert st. induction evs as [|ev evs IH]; intros st Hsealed; [done|].
  destruct (V1_handle_sealed st ev arr Hsealed) as [Hsealed' Hview].
  simpl. by rewrite IH.
Qed.

(** First variant: a snapshot, once in the history, is never written to.
    Whatever events follow (edits, drags, undos, loads), its objects read as
    they did when it was taken, so an undo that pops it installs exactly
    what was copied. *)
Theorem snapshots_are_never_written (st0 : state num)
    (before after : list V1.event) (entry : list nat) :
  Seal.good st0 →
  entry ∈ history (V1.run st0 before) →
  Engine.deref (heap (V1.run (V1.run st0 before) after)) <$> entry
  = Engine.deref (heap (V1.run st0 before)) <$> entry.
Proof.
  intros Hgood Hentry. apply V1_run_sealed.
  destruct (V1_run_good st0 before Hgood) as [_ Hsealed].
  by eapply (proj1 (Forall_forall _ _) Hsealed).
Qed.

End SnapshotFacts.

(** ** Instances *)

Lemma export_instruction_count_witness :
  length [Point 10%Q 10%Q] ≤ 1 ∧
  V1.export_ops Sample.page_Q Sample.canvas_Q
    (Stroke 0 [Point 10%Q 10%Q] (Some 2%Q) None) = [].
Proof.
  assert (length [Point 10%Q 10%Q] ≤ 1) as Hshort by (simpl; lia).
  split; [exact Hshort|].
  exact (proj1 (proj2 (proj2 (proj2 (proj2
           (export_instruction_count Sample.page_Q Sample.canvas_Q
              (Stroke 0 [Point 10%Q 10%Q] (Some 2%Q) None))))
           0 [Point 10%Q 10%Q] (Some 2%Q) None) Hshort)).
Defined.

Lemma V2_undo_inverts_edit_witness :
  mode Sample.drawing_Q = DrawMode ∧
  Engine.view
    (V2.undo (Drag.v2 0 (Sample.at_Q 10 10) Sample.origin_Q
                [(Sample.at_Q 20 30, Sample.origin_Q)] Sample.drawing_Q))
  = Engine.view Sample.drawing_Q.
Proof.
  split; [reflexivity|].
  exact (proj1 (proj2 (V2_undo_inverts_edit Sample.drawing_Q 0
                         (Sample.at_Q 10 10) Sample.origin_Q None
                         [(Sample.at_Q 20 30, Sample.origin_Q)]) eq_refl)).
Defined.

Lemma V3_undo_inverts_edit_witness :
  mode Sample.erasing_Q ≠ TextMode ∧
  Engine.view
    (V3.undo (Drag.v3 Sample.tools_Q 0 (Sample.at_Q 10 10) Sample.origin_Q
                [(Sample.at_Q 20 30, Sample.origin_Q)] Sample.erasing_Q))
  = Engine.view Sample.erasing_Q.
Proof.
  assert (mode Sample.erasing_Q ≠ TextMode) as Hmode by discriminate.
  split; [exact Hmode|].
  exact (proj1 (proj2 (V3_undo_inverts_edit Sample.tools_Q Sample.erasing_Q 0
                         (Sample.at_Q 10 10) Sample.origin_Q "H"%char "i"
                         [(Sample.at_Q 20 30, Sample.origin_Q)]) Hmode)).
Defined.

Lemma V1_undo_detaches_stroke_witness :
  mode Sample.drawing_Q = DrawMode ∧
  Engine.view
    (foldl (λ st m, V1.mousemove 0 m.1 m.2 st)
       (V1.undo (Drag.v1 0 (Sample.at_Q 10 10) Sample.origin_Q
                   [(Sample.at_Q 20 30, Sample.origin_Q)] Sample.drawing_Q))
       [(Sample.at_Q 40 50, Sample.origin_Q)])
  = Engine.view Sample.drawing_Q.
Proof.
  split; [reflexivity|].
  exact (V1_undo_detaches_stroke Sample.drawing_Q 0 (Sample.at_Q 10 10)
           Sample.origin_Q [(Sample.at_Q 20 30, Sample.origin_Q)]
           [(Sample.at_Q 40 50, Sample.origin_Q)] eq_refl).
Defined.

Lemma gesture_takes_one_slot_witness :
  length (history Sample.opened_Q) ≤ 50 ∧
  history (V1.perform 0
             (V1.DrawStroke (Sample.at_Q 10 10) Sample.origin_Q
                [(Sample.at_Q 20 30, Sample.origin_Q)]) Sample.opened_Q)
  = history (V1.perform 0
               (V1.DrawStroke (Sample.at_Q 10 10) Sample.origin_Q [])
               Sample.opened_Q).
Proof.
  assert (length (history Sample.opened_Q) ≤ 50) as Hle by (simpl; lia).
  split; [exact Hle|].
  exact (proj2 (gesture_takes_one_slot Sample.opened_Q 0
                  (V1.TypeText (Sample.at_Q 50 100) Sample.origin_Q "H"%char "i")
                  (Sample.at_Q 10 10) Sample.origin_Q
                  [(Sample.at_Q 20 30, Sample.origin_Q)] Hle)).
Defined.


Lemma dropped_and_chosen_files_witness :
  Files.toLowerCase ".PDF" = ".pdf" ∧
  Files.file_name Trace.report = "REPORT" +:+ ".PDF" ∧
  Files.drop1 (Some Trace.report) (Opened [(900%Q, 1400%Q)] true) V1.initial
  = (V1.loadFile (Files.arrayBuffer Trace.report)
       (Opened [(900%Q, 1400%Q)] true) V1.initial, None).
Proof.
  split; [reflexivity|]. split; [reflexivity|].
  exact (proj1 (proj2 (dropped_and_chosen_files Trace.report
                         (Opened [(900%Q, 1400%Q)] true) V1.initial))
           "REPORT" ".PDF" eq_refl eq_refl).
Defined.

Lemma new_document_pages_witness :
  NewPdf.parseInt10 (NewPdf.answer_or (Some "three") "1") = None ∧
  NewPdf.saved_pages (59528 # 100, 84189 # 100) (Some "three") (Some "a4")
  = [(59528 # 100, 84189 # 100)].
Proof.
  split; [reflexivity|].
  exact (proj2 (proj1 (proj2
           (new_document_pages (59528 # 100, 84189 # 100) (Some "three") (Some "a4")))
           eq_refl)).
Defined.

Lemma snapshots_are_never_written_witness :
  Seal.good (@V1.initial Q) ∧
  [1] ∈ history (V1.run V1.initial (take 4 Trace.v1)) ∧
  Engine.deref (heap (V1.run (V1.run V1.initial (take 4 Trace.v1))
                        (drop 4 Trace.v1))) <$> [1]
  = Engine.deref (heap (V1.run V1.initial (take 4 Trace.v1))) <$> [1].
Proof.
  assert (Seal.good (@V1.initial Q)) as Hgood by (split; constructor).
  assert ([1] ∈ history (V1.run (@V1.initial Q) (take 4 Trace.v1))) as Hentry
    by (vm_compute; repeat constructor).
  split; [exact Hgood|]. split; [exact Hentry|].
  exact (snapshots_are_never_written V1.initial (take 4 Trace.v1)
           (drop 4 Trace.v1) [1] Hgood Hentry).
Defined.

Lemma load_starts_afresh_witness :
  Async.waiting (@V1Async.initial Q) = [] ∧
  Async.steps (Opened [(1785 # 2, 1263)%Q] true) ≤ 1 ∧
  V1Async.run V1Async.initial
    (Async.uninterrupted (V1.NewBtn [] (Opened [(1785 # 2, 1263)%Q] true)) 1)
  = Async.Session
      (State TextMode (Some []) [PageView 892 1263 []] [] [] []
             [WireVars false None])%Q
      [0] [].
Proof.
  assert (Async.steps (Opened [(1785 # 2, 1263)%Q] true) ≤ 1) as Hn
    by (simpl; lia).
  split; [reflexivity|]. split; [exact Hn|].
  etrans;
    [exact (proj1 (proj2 (load_starts_afresh [] (Opened [(1785 # 2, 1263)%Q] true)
                            V1Async.initial 1 eq_refl Hn)))|].
  reflexivity.
Defined.
